(** * tiny-number-crunch: the calculator widget of [src/components/Calculator.tsx]

    The component keeps one [CalculatorState] record and four callbacks
    ([inputNumber], [inputDecimal], [clear], [performOperation]) that replace
    it.  The callbacks are embedded below as functions from the current state
    to the next state, together with the toasts they fire.

    JavaScript numbers are IEEE 754 binary64 values.  They are modelled by
    the Standard Library's [spec_float] at precision 53, with the library's
    reference operations [SFadd], [SFsub], [SFmul] and [SFdiv] (round to
    nearest, ties to even).  The three built-in conversions the component
    calls ([parseFloat], [Number.prototype.toPrecision] and [String] applied
    to a number) are written out after ECMA-262. *)

From Stdlib Require Import ZArith Lia List Bool Ascii String.
From Stdlib Require Import Floats.SpecFloat.
Import ListNotations.

Local Open Scope string_scope.
Local Open Scope Z_scope.

(** ** JavaScript numbers *)

Module JS.

Definition number : Type := spec_float.

Definition prec : Z := 53.
Definition emax : Z := 1024.

Definition NaN : number := S754_nan.
Definition zero : number := S754_zero false.

Definition add : number -> number -> number := SFadd prec emax.
Definition sub : number -> number -> number := SFsub prec emax.
Definition mul : number -> number -> number := SFmul prec emax.
Definition div : number -> number -> number := SFdiv prec emax.

(** [isFinite(x)] for a number [x]. *)
Definition isFinite (x : number) : bool :=
  match x with
  | S754_zero _ | S754_finite _ _ _ => true
  | S754_infinity _ | S754_nan => false
  end.

Definition isNaN (x : number) : bool :=
  match x with
  | S754_nan => true
  | _ => false
  end.

(** [x === y] on numbers: IEEE equality, so [-0 === 0] and [NaN !== NaN]. *)
Definition strictEq (x y : number) : bool := SFeqb x y.

(** [ToBoolean] on numbers: [0], [-0] and [NaN] are falsy. *)
Definition truthy (x : number) : bool :=
  match x with
  | S754_zero _ | S754_nan => false
  | _ => true
  end.

(** [x || y] where [x] is a number. *)
Definition or_else (x y : number) : number := if truthy x then x else y.

(** Structural equality of two values (tells [0] from [-0]). *)
Definition same (x y : number) : bool :=
  match x, y with
  | S754_zero a, S754_zero b => Bool.eqb a b
  | S754_infinity a, S754_infinity b => Bool.eqb a b
  | S754_nan, S754_nan => true
  | S754_finite a m e, S754_finite b n f =>
      Bool.eqb a b && Pos.eqb m n && Z.eqb e f
  | _, _ => false
  end.

(** *** Decimal digits *)

Definition is_digit (c : ascii) : bool :=
  (48 <=? Z.of_nat (nat_of_ascii c)) && (Z.of_nat (nat_of_ascii c) <=? 57).

Definition digit_val (c : ascii) : Z := Z.of_nat (nat_of_ascii c) - 48.

Definition digit_char (d : Z) : ascii := ascii_of_nat (Z.to_nat (48 + d)).

(** The longest prefix of decimal digits, and what follows it. *)
Fixpoint span_digits (s : string) : string * string :=
  match s with
  | String c r =>
      if is_digit c
      then let '(ds, rest) := span_digits r in (String c ds, rest)
      else (EmptyString, s)
  | EmptyString => (EmptyString, EmptyString)
  end.

(** The number a string of digits denotes, most significant digit first. *)
Fixpoint digits_value (acc : Z) (s : string) : Z :=
  match s with
  | String c r => digits_value (10 * acc + digit_val c) r
  | EmptyString => acc
  end.

(** The [len] low decimal digits of [n], most significant first. *)
Fixpoint digits_fixed (len : nat) (n : Z) : string :=
  match len with
  | O => EmptyString
  | S l => String (digit_char ((n / 10 ^ Z.of_nat l) mod 10)) (digits_fixed l n)
  end.

(** How many decimal digits a non-negative integer has ([1] for [0]). *)
Fixpoint count_digits (fuel : nat) (n : Z) : nat :=
  match fuel with
  | O => 1%nat
  | S f => if n <? 10 then 1%nat else S (count_digits f (n / 10))
  end.

(** The decimal numeral of a non-negative integer, without leading zeros. *)
Definition nat_string (n : Z) : string :=
  digits_fixed (count_digits (Z.to_nat (Z.log2 n)) n) n.

Fixpoint zeros (k : nat) : string :=
  match k with
  | O => EmptyString
  | S j => String "0" (zeros j)
  end.

(** *** From a decimal to the nearest binary64 value

    [round_decimal s m e] is the number value of [(-1)^s * m * 10^e]: the
    binary64 value nearest to it, ties to even, an infinity past the largest
    finite value.  The decimal is written as a quotient of two integers and
    rounded once by the reference division. *)
Definition round_decimal (s : bool) (m : Z) (e : Z) : number :=
  match m * 10 ^ Z.max 0 e with
  | Zpos num =>
      SFdiv prec emax (S754_finite s num 0)
                      (S754_finite false (Z.to_pos (10 ^ Z.max 0 (- e))) 0)
  | _ => S754_zero s
  end.

(** *** parseFloat *)

(** ASCII white space; the calculator never builds a display with any. *)
Definition is_space (c : ascii) : bool :=
  let n := nat_of_ascii c in
  ((9 <=? n) && (n <=? 13))%nat || (n =? 32)%nat.

Fixpoint trim_start (s : string) : string :=
  match s with
  | String c r => if is_space c then trim_start r else s
  | EmptyString => EmptyString
  end.

(** An optional sign: whether it is a minus, and what follows it. *)
Definition take_sign (s : string) : bool * string :=
  match s with
  | String "-" r => (true, r)
  | String "+" r => (false, r)
  | _ => (false, s)
  end.

(** The value of an exponent part [e digits], [e+digits] or [e-digits] at the
    head of [s]; [0] when [s] does not start with a complete exponent part. *)
Definition exponent_part (s : string) : Z :=
  match s with
  | String c r =>
      if (Ascii.eqb c "e" || Ascii.eqb c "E")%bool then
        let '(neg, r1) := take_sign r in
        let '(ds, _) := span_digits r1 in
        match ds with
        | EmptyString => 0
        | _ => if neg then - digits_value 0 ds else digits_value 0 ds
        end
      else 0
  | EmptyString => 0
  end.

(** [parseFloat(s)]: the longest prefix of the trimmed string that is a
    decimal literal ([Infinity], or digits with an optional fraction and an
    optional exponent, after an optional sign); [NaN] when there is none. *)
Definition parseFloat (str : string) : number :=
  let '(neg, s1) := take_sign (trim_start str) in
  if String.prefix "Infinity" s1 then S754_infinity neg else
  let '(ip, r1) := span_digits s1 in
  let '(fp, r2) :=
    match r1 with
    | String "." r => span_digits r
    | _ => (EmptyString, r1)
    end in
  match ip ++ fp with
  | EmptyString => NaN
  | ds =>
      round_decimal neg (digits_value 0 ds)
                    (exponent_part r2 - Z.of_nat (String.length fp))
  end.

(** *** From a binary64 value to decimal digits *)

(** The quotient [m * 2^e / 10^j] as a pair of positive integers. *)
Definition scaled (m : positive) (e j : Z) : Z * Z :=
  (Zpos m * 2 ^ Z.max 0 e * 10 ^ Z.max 0 (- j),
   2 ^ Z.max 0 (- e) * 10 ^ Z.max 0 j).

(** The decimal exponent of [m * 2^e]: the greatest [j] with
    [10^j <= m * 2^e], looked for downwards from [308], the decimal exponent
    of the largest finite value, to [-324], that of the smallest. *)
Fixpoint decimal_exponent_from (fuel : nat) (j : Z) (m : positive) (e : Z) : Z :=
  match fuel with
  | O => j
  | S f =>
      let '(a, b) := scaled m e j in
      if b <=? a then j else decimal_exponent_from f (j - 1) m e
  end.

Definition decimal_exponent (m : positive) (e : Z) : Z :=
  decimal_exponent_from 632 308 m e.

(** [precision_digits p m e] is the pair [(n, j)] with
    [10^(p-1) <= n < 10^p] for which [n * 10^(j-p+1)] is nearest to
    [m * 2^e], the larger [n] when two are equally near. *)
Definition precision_digits (p : nat) (m : positive) (e : Z) : Z * Z :=
  let j := decimal_exponent m e in
  let '(a, b) := scaled m e (j - Z.of_nat p + 1) in
  let n := (2 * a + b) / (2 * b) in
  if n <? 10 ^ Z.of_nat p then (n, j) else (10 ^ (Z.of_nat p - 1), j + 1).

Definition sign_string (s : bool) : string := if s then "-" else "".

(** The exponent part of the exponential notation: [e+21], [e-7]. *)
Definition exponent_suffix (e : Z) : string :=
  "e" ++ (if e <? 0 then "-" else "+") ++ nat_string (Z.abs e).

(** A digit string with a point after its first digit (none when it is one
    digit long). *)
Definition point_after_first (ds : string) : string :=
  match ds with
  | String d EmptyString => ds
  | String d rest => String d ("." ++ rest)
  | EmptyString => EmptyString
  end.

(** [Number.prototype.toPrecision]: [x.toPrecision(p)] for [1 <= p <= 100]. *)
Definition toPrecision (x : number) (p : nat) : string :=
  match x with
  | S754_nan => "NaN"
  | S754_infinity s => sign_string s ++ "Infinity"
  | S754_zero _ => point_after_first (zeros p)
  | S754_finite s m e =>
      let '(n, j) := precision_digits p m e in
      let ds := digits_fixed p n in
      sign_string s ++
      (if (j <? -6) || (Z.of_nat p <=? j) then
         point_after_first ds ++ exponent_suffix j
       else if j =? Z.of_nat p - 1 then ds
       else if 0 <=? j then
         substring 0 (Z.to_nat (j + 1)) ds ++ "." ++
         substring (Z.to_nat (j + 1)) (p - Z.to_nat (j + 1)) ds
       else "0." ++ zeros (Z.to_nat (- (j + 1))) ++ ds)
  end.

(** Whether the decimal [s * 10^j] has [m * 2^e] for its number value. *)
Definition reads_back (m : positive) (e : Z) (s j : Z) : bool :=
  same (round_decimal false s j) (S754_finite false m e).

(** The [k]-digit decimals next below and next above [m * 2^e]; the one that
    reads back as [m * 2^e], the nearer one when both do, the even one when
    they are equally near.  The result is the digits [s] and the position [n]
    of the decimal point, for the value [s * 10^(n-k)]. *)
Definition shortest_at (k : nat) (m : positive) (e : Z) : option (Z * Z) :=
  let j := decimal_exponent m e in
  let '(a, b) := scaled m e (j - Z.of_nat k + 1) in
  let lo := a / b in
  let '(hi, hj) :=
    if lo + 1 <? 10 ^ Z.of_nat k then (lo + 1, j)
    else (10 ^ (Z.of_nat k - 1), j + 1) in
  let lo_ok := reads_back m e lo (j - Z.of_nat k + 1) in
  let hi_ok := reads_back m e hi (hj - Z.of_nat k + 1) in
  let lo_nearer :=
    (2 * a <? (2 * lo + 1) * b) || ((2 * a =? (2 * lo + 1) * b) && Z.even lo) in
  if lo_ok && (negb hi_ok || lo_nearer) then Some (lo, j + 1)
  else if hi_ok then Some (hi, hj + 1)
  else None.

(** The fewest digits that read back: [(k, s, n)] for the first [k] of [ks]
    that does.  Seventeen digits always do, which is where the search ends. *)
Fixpoint shortest (ks : list nat) (m : positive) (e : Z) : nat * Z * Z :=
  match ks with
  | k :: rest =>
      match shortest_at k m e with
      | Some (s, n) => (k, s, n)
      | None => shortest rest m e
      end
  | [] => let '(s, j) := precision_digits 17 m e in (17%nat, s, j + 1)
  end.

(** [Number::toString(x)] in radix 10, which is [String(x)] for a number. *)
Definition NumberToString (x : number) : string :=
  match x with
  | S754_nan => "NaN"
  | S754_zero _ => "0"
  | S754_infinity s => sign_string s ++ "Infinity"
  | S754_finite s m e =>
      let '(k, d, n) := shortest (seq 1 17) m e in
      let ds := digits_fixed k d in
      sign_string s ++
      (if (Z.of_nat k <=? n) && (n <=? 21) then ds ++ zeros (Z.to_nat n - k)
       else if (0 <? n) && (n <=? 21) then
         substring 0 (Z.to_nat n) ds ++ "." ++
         substring (Z.to_nat n) (k - Z.to_nat n) ds
       else if (-6 <? n) && (n <=? 0) then "0." ++ zeros (Z.to_nat (- n)) ++ ds
       else point_after_first ds ++ exponent_suffix (n - 1))
  end.

End JS.

(** ** The calculator *)

Module Calculator.
Import JS.

(** [interface CalculatorState]. *)
Record CalculatorState : Type := {
  display : string;
  previousValue : option number;
  operation : option string;
  waitingForOperand : bool
}.

(** The argument of a [toast] call. *)
Record Toast : Type := {
  title : string;
  description : string;
  variant : string
}.

(** The value [useState] starts from. *)
Definition initialState : CalculatorState :=
  {| display := "0";
     previousValue := None;
     operation := None;
     waitingForOperand := false |}.

(** [inputNumber(num)]. *)
Definition inputNumber (num : string) (state : CalculatorState) : CalculatorState :=
  if waitingForOperand state then
    {| display := num;
       previousValue := previousValue state;
       operation := operation state;
       waitingForOperand := false |}
  else
    {| display := if String.eqb (display state) "0" then num
                  else display state ++ num;
       previousValue := previousValue state;
       operation := operation state;
       waitingForOperand := waitingForOperand state |}.

(** [s.indexOf(c)] for a one-character [c]: [-1] when [c] does not occur. *)
Fixpoint indexOf (s : string) (c : ascii) : Z :=
  match s with
  | String d r =>
      if Ascii.eqb d c then 0
      else let i := indexOf r c in if i =? -1 then -1 else i + 1
  | EmptyString => -1
  end.

(** [inputDecimal()]. *)
Definition inputDecimal (state : CalculatorState) : CalculatorState :=
  if waitingForOperand state then
    {| display := "0.";
       previousValue := previousValue state;
       operation := operation state;
       waitingForOperand := false |}
  else if indexOf (display state) "." =? -1 then
    {| display := display state ++ ".";
       previousValue := previousValue state;
       operation := operation state;
       waitingForOperand := waitingForOperand state |}
  else state.

(** [clear()]. *)
Definition clear (state : CalculatorState) : CalculatorState :=
  {| display := "0";
     previousValue := None;
     operation := None;
     waitingForOperand := false |}.

Definition divideByZeroToast : Toast :=
  {| title := "Error";
     description := "Cannot divide by zero";
     variant := "destructive" |}.

Definition invalidCalculationToast : Toast :=
  {| title := "Error";
     description := "Invalid calculation";
     variant := "destructive" |}.

(** [parseFloat(result.toPrecision(12))]. *)
Definition formatResult (result : number) : number :=
  parseFloat (toPrecision result 12).

(** What [performOperation] does with [result] once the [switch] has
    assigned it: the finiteness check, the rounding and the new state. *)
Definition commit (nextOperation : string) (state : CalculatorState)
    (result : number) : CalculatorState * list Toast :=
  if negb (isFinite result) then (clear state, [invalidCalculationToast])
  else
    let formattedResult := formatResult result in
    ({| display := NumberToString formattedResult;
        previousValue :=
          if String.eqb nextOperation "=" then None else Some formattedResult;
        operation :=
          if String.eqb nextOperation "=" then None else Some nextOperation;
        waitingForOperand := true |}, []).

(** [performOperation(nextOperation)]: the next state and the toasts fired.
    A [return] before any [setState] leaves the state as it is.  None of the
    calls inside the [try] block throws (the precision [12] is in range), so
    the [catch] branch is never entered. *)
Definition performOperation (nextOperation : string) (state : CalculatorState)
    : CalculatorState * list Toast :=
  let inputValue := parseFloat (display state) in
  match previousValue state with
  | None =>
      ({| display := display state;
          previousValue := Some inputValue;
          operation := Some nextOperation;
          waitingForOperand := true |}, [])
  | Some previousValue =>
      match operation state with
      | None | Some EmptyString => (state, [])
      | Some operation =>
          let currentValue := or_else previousValue zero in
          if String.eqb operation "+" then
            commit nextOperation state (add currentValue inputValue)
          else if String.eqb operation "-" then
            commit nextOperation state (sub currentValue inputValue)
          else if String.eqb operation "×" then
            commit nextOperation state (mul currentValue inputValue)
          else if String.eqb operation "÷" then
            if strictEq inputValue zero then (state, [divideByZeroToast])
            else commit nextOperation state (div currentValue inputValue)
          else (state, [])
      end
  end.

(** [/\d/.test(key)]: some character of [key] is a decimal digit. *)
Fixpoint has_digit (key : string) : bool :=
  match key with
  | String c r => is_digit c || has_digit r
  | EmptyString => false
  end.

(** [handleKeyPress(key)]. *)
Definition handleKeyPress (key : string) (state : CalculatorState)
    : CalculatorState * list Toast :=
  if has_digit key then (inputNumber key state, [])
  else if String.eqb key "." then (inputDecimal state, [])
  else if String.eqb key "+" || String.eqb key "-" then
    performOperation key state
  else if String.eqb key "*" then performOperation "×" state
  else if String.eqb key "/" then performOperation "÷" state
  else if String.eqb key "=" || String.eqb key "Enter" then
    performOperation "=" state
  else if String.eqb key "Escape" || String.eqb key "c" || String.eqb key "C"
  then (clear state, [])
  else (state, []).

(** Keys pressed one after the other; the toasts are listed in the order
    they were fired. *)
Fixpoint pressKeys (keys : list string) (state : CalculatorState)
    : CalculatorState * list Toast :=
  match keys with
  | key :: rest =>
      let '(s1, t1) := handleKeyPress key state in
      let '(s2, t2) := pressKeys rest s1 in
      (s2, (t1 ++ t2)%list)
  | [] => (state, [])
  end.

End Calculator.

(** ** Vocabulary of the specification *)

Import JS Calculator.

(** The value the [switch] of [performOperation] assigns to [result] for a
    stored [operation] and its two operands; none for a string that is not
    one of the four arithmetic operators.  (The guard on a zero divisor is
    not part of it.) *)
Definition arithmetic (operation : string) (a b : number) : option number :=
  if String.eqb operation "+" then Some (add a b)
  else if String.eqb operation "-" then Some (sub a b)
  else if String.eqb operation "×" then Some (mul a b)
  else if String.eqb operation "÷" then Some (div a b)
  else None.

(** The state a committed result leaves behind. *)
Definition committed (nextOperation : string) (rounded : number) : CalculatorState :=
  {| display := NumberToString rounded;
     previousValue := if String.eqb nextOperation "=" then None else Some rounded;
     operation := if String.eqb nextOperation "=" then None else Some nextOperation;
     waitingForOperand := true |}.

(** The calls the keypad and the keyboard make on the engine. *)
Inductive Event : Type :=
  | InputNumber (num : string)
  | InputDecimal
  | Clear
  | PerformOperation (nextOperation : string).

Definition dispatch (ev : Event) (state : CalculatorState)
    : CalculatorState * list Toast :=
  match ev with
  | InputNumber num => (inputNumber num state, [])
  | InputDecimal => (inputDecimal state, [])
  | Clear => (clear state, [])
  | PerformOperation nextOperation => performOperation nextOperation state
  end.

Fixpoint run (evs : list Event) (state : CalculatorState)
    : CalculatorState * list Toast :=
  match evs with
  | ev :: rest =>
      let '(s1, t1) := dispatch ev state in
      let '(s2, t2) := run rest s1 in
      (s2, (t1 ++ t2)%list)
  | [] => (state, [])
  end.

Definition isClear (ev : Event) : bool :=
  match ev with
  | Clear => true
  | _ => false
  end.

(** The five operator strings the buttons and [handleKeyPress] pass. *)
Definition isOperator (op : string) : bool :=
  String.eqb op "+" || String.eqb op "-" || String.eqb op "×" ||
  String.eqb op "÷" || String.eqb op "=".

(** The states the widget can be in: from the initial state, by digits,
    the decimal point, clear and the five operators. *)
Inductive reachable : CalculatorState -> Prop :=
  | reachable_initial : reachable initialState
  | reachable_digit state d :
      reachable state -> is_digit d = true ->
      reachable (inputNumber (String d EmptyString) state)
  | reachable_decimal state :
      reachable state -> reachable (inputDecimal state)
  | reachable_clear state :
      reachable state -> reachable (clear state)
  | reachable_operation state op :
      reachable state -> isOperator op = true ->
      reachable (fst (performOperation op state)).

(** How many decimal points a string holds. *)
Fixpoint count_points (s : string) : nat :=
  match s with
  | String c r => ((if Ascii.eqb c "." then 1 else 0) + count_points r)%nat
  | EmptyString => O
  end.

(** ** Vocabulary of the proofs *)

(** How far [shr_fexp] shifts a mantissa [m] at exponent [e]. *)
Definition shift_of (m e : Z) : Z := Z.max 0 (fexp prec emax (Zdigits2 m + e) - e).

(** The largest finite binary64 value. *)
Definition max_value : Z := (2 ^ 53 - 1) * 2 ^ 971.

(** A number is well formed when its mantissa fits in 53 bits and its
    exponent lies between -1074 and 971. *)
Definition well_formed (x : number) : Prop :=
  match x with
  | S754_finite _ m e => Zpos m < 2 ^ 53 /\ -1074 <= e <= 971
  | _ => True
  end.

(** The [p]-digit rounding of the largest finite value, in units of
    [10^(309-p)]. *)
Definition top_digits (p : Z) : Z :=
  (2 * max_value + 10 ^ (309 - p)) / (2 * 10 ^ (309 - p)).

(** A string of decimal digits only. *)
Fixpoint all_digits (s : string) : bool :=
  match s with
  | String c r => is_digit c && all_digits r
  | EmptyString => true
  end.

(** What may follow the digits of a literal: nothing, or a character that
    is not a digit. *)
Definition no_digit_ahead (s : string) : bool :=
  match s with
  | String c _ => negb (is_digit c)
  | EmptyString => true
  end.

(** Nothing, or a character that is not a decimal point. *)
Definition no_point_ahead (s : string) : bool :=
  match s with
  | String c _ => negb (Ascii.eqb c ".")
  | EmptyString => true
  end.

(** A display the user typed: digits, then at most a point and digits. *)
Definition TypedDisplay (d : string) : Prop :=
  exists ip, all_digits ip = true /\ ip <> "" /\
    (d = ip \/ exists fp, all_digits fp = true /\ d = ip ++ "." ++ fp).

(** A display a committed result left: the string of a finite value. *)
Definition ResultDisplay (d : string) : Prop :=
  exists f, isFinite f = true /\ well_formed f /\ d = NumberToString f.

(** A number that is finite or the positive infinity. *)
Definition finite_or_overflow (x : number) : Prop :=
  isFinite x = true \/ x = S754_infinity false.

(** What every reachable state satisfies. *)
Record Invariant (state : CalculatorState) : Prop := {
  inv_pending : previousValue state = None <-> operation state = None;
  inv_display :
    TypedDisplay (display state) \/
    (waitingForOperand state = true /\ ResultDisplay (display state));
  inv_previous : forall v,
    previousValue state = Some v -> well_formed v /\ finite_or_overflow v
}.

(** Two results that differ at most in the sign of a zero. *)
Definition same_up_to_zero_sign (x y : number) : Prop :=
  x = y \/ exists a b, x = S754_zero a /\ y = S754_zero b.

(** The state after the key 1 and 309 times the key 0: a display of 310
    digits. *)
Definition overlong : CalculatorState :=
  Nat.iter 309 (inputNumber "0") (inputNumber "1" initialState).

(** ** Vocabulary of the further properties *)

(** The digit keys of [ds] pressed one after the other. *)
Fixpoint typeDigits (ds : string) (state : CalculatorState) : CalculatorState :=
  match ds with
  | String c r => typeDigits r (inputNumber (String c EmptyString) state)
  | EmptyString => state
  end.

(** A digit string without its leading zeros. *)
Fixpoint strip_zeros (ds : string) : string :=
  match ds with
  | String c r => if Ascii.eqb c "0" then strip_zeros r else ds
  | EmptyString => EmptyString
  end.

(** The numeral a run of digit keys leaves in a fresh display. *)
Definition typed_numeral (ds : string) : string :=
  if String.eqb (strip_zeros ds) "" then "0" else strip_zeros ds.

(** An ASCII letter. *)
Definition is_letter (c : ascii) : bool :=
  let n := nat_of_ascii c in
  ((65 <=? n) && (n <=? 90) || (97 <=? n) && (n <=? 122))%nat.

(** The keys the keypad has a button for, under the names the keyboard gives
    them, and every key whose name holds no digit. *)
Definition calculatorKey (key : string) : bool :=
  negb (has_digit key) || (String.length key =? 1)%nat.

(** The line above the display,
    [{state.previousValue !== null && state.operation && (<span>...</span>)}]:
    the text of the [span] when it is rendered. *)
Definition pendingLine (state : CalculatorState) : option string :=
  match previousValue state, operation state with
  | Some previousValue, Some (String _ _ as operation) =>
      Some (NumberToString previousValue ++ " " ++ operation)
  | _, _ => None
  end.

(** The binary64 value of a positive integer below [2^53], with the sign
    [s]: the integer shifted to a 53-bit mantissa. *)
Definition of_pos (s : bool) (n : Z) : number :=
  S754_finite s (Z.to_pos (n * 2 ^ (53 - Zdigits2 n))) (Zdigits2 n - 53).

(** The binary64 value of an integer of absolute value below [2^53]. *)
Definition of_int (z : Z) : number :=
  match z with
  | Z0 => zero
  | Zpos _ => of_pos false z
  | Zneg _ => of_pos true (- z)
  end.

(** The decimal numeral of an integer. *)
Definition int_string (z : Z) : string :=
  sign_string (z <? 0) ++ nat_string (Z.abs z).

(** The four operations on integers; a division is defined when it leaves
    no remainder. *)
Definition int_arithmetic (operation : string) (a b : Z) : option Z :=
  if String.eqb operation "+" then Some (a + b)
  else if String.eqb operation "-" then Some (a - b)
  else if String.eqb operation "×" then Some (a * b)
  else if String.eqb operation "÷" then
    if (b =? 0) || negb (a mod b =? 0) then None else Some (a / b)
  else None.

(** A calculation is a first operand and a list of steps, each an operator
    and the digits of its operand.  [evaluate] works it out from left to
    right, as long as every intermediate result has at most twelve
    digits. *)
Fixpoint evaluate (acc : Z) (steps : list (string * string)) : option Z :=
  match steps with
  | [] => Some acc
  | (operation, ds) :: rest =>
      match int_arithmetic operation acc (digits_value 0 ds) with
      | Some z => if Z.abs z <? 10 ^ 12 then evaluate z rest else None
      | None => None
      end
  end.

(** The digits of an operand that is an integer below [2^53]. *)
Definition is_operand (ds : string) : bool :=
  all_digits ds && negb (String.eqb ds "") && (digits_value 0 ds <? 2 ^ 53).

(** The events of a calculation: the digit keys of each operand, the
    operator keys between them, and the equals key. *)
Definition digit_events (ds : string) : list Event :=
  map (fun c => InputNumber (String c "")) (list_ascii_of_string ds).

Fixpoint step_events (steps : list (string * string)) : list Event :=
  match steps with
  | [] => [PerformOperation "="]
  | (operation, ds) :: rest =>
      PerformOperation operation :: (digit_events ds ++ step_events rest)%list
  end.

Definition calculation (ds : string) (steps : list (string * string)) : list Event :=
  (digit_events ds ++ step_events steps)%list.

(** An integer part without a superfluous leading zero. *)
Definition no_leading_zero (ip : string) : bool :=
  match ip with
  | String c (String _ _) => negb (Ascii.eqb c "0")
  | _ => true
  end.

(** A display being typed, in its canonical form: an integer part of digits
    without a superfluous leading zero, then at most a point and the digits
    of the fraction. *)
Definition CanonicalDisplay (d : string) : Prop :=
  exists ip, all_digits ip = true /\ ip <> "" /\ no_leading_zero ip = true /\
    (d = ip \/ exists fp, all_digits fp = true /\ d = ip ++ "." ++ fp).

(** The record [r] holds the integer part of the quotient [X / Y] and tells
    where the remainder lies: at or above the half ([shr_r]), and away from
    both zero and the half ([shr_s]). *)
Definition locates (X Y : Z) (r : shr_record) : Prop :=
  shr_m r = X / Y /\
  shr_r r = (Y <=? 2 * (X mod Y)) /\
  shr_s r = negb (X mod Y =? 0) && negb (2 * (X mod Y) =? Y).

(** The integer nearest to the quotient [X / Y], the even one of two that
    are equally near. *)
Definition nearest_even (X Y : Z) : Z :=
  if 2 * (X mod Y) <? Y then X / Y
  else if (2 * (X mod Y) =? Y) && Z.even (X / Y) then X / Y
  else X / Y + 1.

(** What [binary_round_aux] does with a rounded mantissa [R] at the
    exponent [e]: one more shift when the rounding carried into a 54th bit,
    and the overflow test. *)
Definition finish (s : bool) (R e : Z) : number :=
  let '(mrs, e') := shr_fexp prec emax R e loc_Exact in
  match shr_m mrs with
  | Z0 => S754_zero s
  | Zpos m => if e' <=? emax - prec then S754_finite s m e' else S754_infinity s
  | Zneg _ => S754_nan
  end.

(** The notation [Number::toString] writes for the [k] digits [d] with the
    decimal point after the [n]-th digit: the digits followed by zeros, the
    digits with a point among them, the digits after [0.] and zeros, or the
    exponential notation. *)
Definition decimal_notation (k : nat) (d n : Z) : string :=
  let ds := digits_fixed k d in
  if (Z.of_nat k <=? n) && (n <=? 21) then ds ++ zeros (Z.to_nat n - k)
  else if (0 <? n) && (n <=? 21) then
    substring 0 (Z.to_nat n) ds ++ "." ++
    substring (Z.to_nat n) (k - Z.to_nat n) ds
  else if (-6 <? n) && (n <=? 0) then "0." ++ zeros (Z.to_nat (- n)) ++ ds
  else point_after_first ds ++ exponent_suffix (n - 1).

(** A display that shows a number with at most twelve significant digits:
    an optional minus sign and the notation of [k <= 12] digits, the first
    of them not zero. *)
Definition TwelveDigits (str : string) : Prop :=
  exists s k d n,
    (1 <= k <= 12)%nat /\ 10 ^ (Z.of_nat k - 1) <= d < 10 ^ Z.of_nat k /\
    str = sign_string s ++ decimal_notation k d n.

(** ** The conversions on known values *)

Example parseFloat_tenth :
  parseFloat "0.1" = S754_finite false 7205759403792794 (-56).
Proof. vm_compute. reflexivity. Qed.

Example parseFloat_forms :
  parseFloat "5." = parseFloat "5" /\
  parseFloat ".5" = parseFloat "0.5" /\
  parseFloat "-0" = S754_zero true /\
  parseFloat "12e" = parseFloat "12" /\
  parseFloat "1.5e+3" = parseFloat "1500" /\
  parseFloat "" = NaN /\
  parseFloat "." = NaN /\
  parseFloat "-Infinity" = S754_infinity true.
Proof. vm_compute. repeat split; reflexivity. Qed.

Example parseFloat_limits :
  parseFloat "1.7976931348623158e308" = S754_finite false 9007199254740991 971 /\
  parseFloat "1.7976931348623159e308" = S754_infinity false /\
  parseFloat "5e-324" = S754_finite false 1 (-1074) /\
  parseFloat "2.4e-324" = S754_zero false.
Proof. vm_compute. repeat split; reflexivity. Qed.

Example toPrecision_notations :
  toPrecision (parseFloat "123.456") 4 = "123.5" /\
  toPrecision (parseFloat "0.000123") 2 = "0.00012" /\
  toPrecision (parseFloat "1234.5678") 2 = "1.2e+3" /\
  toPrecision (parseFloat "1.25") 2 = "1.3" /\
  toPrecision (parseFloat "1.005") 3 = "1.00" /\
  toPrecision (parseFloat "0") 12 = "0.00000000000" /\
  toPrecision (parseFloat "1e21") 12 = "1.00000000000e+21" /\
  toPrecision (parseFloat "1e-7") 12 = "1.00000000000e-7".
Proof. vm_compute. repeat split; reflexivity. Qed.

Example NumberToString_notations :
  NumberToString (parseFloat "100") = "100" /\
  NumberToString (parseFloat "-5.5") = "-5.5" /\
  NumberToString (parseFloat "0.000001") = "0.000001" /\
  NumberToString (parseFloat "0.0000001") = "1e-7" /\
  NumberToString (parseFloat "100000000000000000000") = "100000000000000000000" /\
  NumberToString (parseFloat "1e21") = "1e+21" /\
  NumberToString (parseFloat "9007199254740993") = "9007199254740992" /\
  NumberToString (parseFloat "-0") = "0".
Proof. vm_compute. repeat split; reflexivity. Qed.

Example arithmetic_rounding :
  add (parseFloat "0.1") (parseFloat "0.2") = parseFloat "0.30000000000000004" /\
  sub (parseFloat "0.3") (parseFloat "0.1") = parseFloat "0.19999999999999998" /\
  mul (parseFloat "1.1") (parseFloat "1.1") = parseFloat "1.2100000000000002" /\
  div (parseFloat "1") (parseFloat "3") = parseFloat "0.3333333333333333" /\
  div (parseFloat "1") (parseFloat "0") = S754_infinity false /\
  div (parseFloat "0") (parseFloat "0") = NaN.
Proof. vm_compute. repeat split; reflexivity. Qed.

(** ** Rounding to binary64 *)

Lemma digits2_pos_log2 p : Zpos (digits2_pos p) = Z.log2 (Zpos p) + 1.
Proof.
  induction p as [p IH|p IH|]; cbn [digits2_pos]; try reflexivity.
  - rewrite Pos2Z.inj_succ, IH. cbn [Z.log2]. destruct p; cbn; lia.
  - rewrite Pos2Z.inj_succ, IH. cbn [Z.log2]. destruct p; cbn; lia.
Qed.

Lemma Zdigits2_nonneg m : 0 <= Zdigits2 m.
Proof. destruct m; cbn; lia. Qed.

Lemma Zdigits2_lt_pow2 m k : 0 <= m -> 0 <= k -> m < 2 ^ k -> Zdigits2 m <= k.
Proof.
  intros Hm Hk Hlt. destruct m as [|p|p]; [cbn; lia | | lia].
  cbn [Zdigits2]. rewrite digits2_pos_log2.
  apply Z.log2_lt_pow2 in Hlt; lia.
Qed.

Lemma Zdigits2_le_lt_pow2 m k : 0 <= m -> Zdigits2 m <= k -> m < 2 ^ k.
Proof.
  intros Hm Hd. destruct m as [|p|p]; [| | lia].
  - cbn in Hd. apply Z.pow_pos_nonneg; lia.
  - cbn [Zdigits2] in Hd. rewrite digits2_pos_log2 in Hd.
    apply Z.log2_lt_pow2; lia.
Qed.

Lemma shr_1_m r : 0 <= shr_m r -> shr_m (shr_1 r) = shr_m r / 2.
Proof.
  destruct r as [m rb sb]. cbn [shr_m]. intros Hm. unfold shr_1.
  destruct m as [|[p|p|]|p]; cbn [shr_m]; try lia; try reflexivity.
  - rewrite Pos2Z.inj_xI. apply Z.div_unique with (r := 1); lia.
  - rewrite Pos2Z.inj_xO. apply Z.div_unique with (r := 0); lia.
Qed.

Lemma iter_pos_shr_1_m p : forall r,
  0 <= shr_m r -> shr_m (iter_pos shr_1 p r) = shr_m r / 2 ^ Zpos p.
Proof.
  induction p as [p IH|p IH|]; intros r Hr; cbn [iter_pos].
  - assert (H1 : 0 <= shr_m (shr_1 r)) by (rewrite shr_1_m by lia; apply Z.div_pos; lia).
    assert (H2 : 0 <= shr_m (iter_pos shr_1 p (shr_1 r)))
      by (rewrite IH by lia; apply Z.div_pos; [lia | apply Z.pow_pos_nonneg; lia]).
    rewrite IH, IH, shr_1_m by lia.
    rewrite !Z.div_div by (try apply Z.pow_pos_nonneg; lia).
    f_equal. replace (Z.pos p~1) with (1 + Z.pos p + Z.pos p) by lia.
    rewrite !Z.pow_add_r by lia. lia.
  - assert (H2 : 0 <= shr_m (iter_pos shr_1 p r))
      by (rewrite IH by lia; apply Z.div_pos; [lia | apply Z.pow_pos_nonneg; lia]).
    rewrite IH, IH by lia.
    rewrite !Z.div_div by (try apply Z.pow_pos_nonneg; lia).
    f_equal. replace (Z.pos p~0) with (Z.pos p + Z.pos p) by lia.
    rewrite !Z.pow_add_r by lia. lia.
  - rewrite shr_1_m by lia. reflexivity.
Qed.

Lemma shr_record_of_loc_m m l : shr_m (shr_record_of_loc m l) = m.
Proof. destruct l as [|[]]; reflexivity. Qed.

Lemma shr_fexp_spec m e l :
  0 <= m ->
  shr_m (fst (shr_fexp prec emax m e l)) = m / 2 ^ shift_of m e /\
  snd (shr_fexp prec emax m e l) = e + shift_of m e.
Proof.
  intros Hm. unfold shr_fexp, shr, shift_of.
  destruct (fexp prec emax (Zdigits2 m + e) - e) as [|p|p] eqn:En; cbn [fst snd].
  - rewrite shr_record_of_loc_m, Z.div_1_r. split; lia.
  - rewrite iter_pos_shr_1_m by (rewrite shr_record_of_loc_m; exact Hm).
    rewrite shr_record_of_loc_m. split; [| lia].
    f_equal.
  - rewrite shr_record_of_loc_m. cbn [Z.max Z.compare]. rewrite Z.div_1_r. split; lia.
Qed.

Lemma fexp_eq z : fexp prec emax z = Z.max (z - 53) (-1074).
Proof. reflexivity. Qed.

Lemma round_nearest_even_bounds m l :
  m <= round_nearest_even m l <= m + 1.
Proof.
  destruct l as [|[]]; cbn; try lia. destruct (Z.even m); lia.
Qed.

Lemma pow2_pos k : 0 <= k -> 0 < 2 ^ k.
Proof. intros; apply Z.pow_pos_nonneg; lia. Qed.

(** What [binary_round_aux] can return for a non-negative mantissa. *)
Lemma binary_round_aux_cases sx mx ex lx :
  0 <= mx ->
  binary_round_aux prec emax sx mx ex lx = S754_zero sx \/
  binary_round_aux prec emax sx mx ex lx = S754_infinity sx \/
  exists m e, binary_round_aux prec emax sx mx ex lx = S754_finite sx m e /\
              Zpos m < 2 ^ 53 /\ -1074 <= e <= 971.
Proof.
  intros Hmx. unfold binary_round_aux.
  destruct (shr_fexp_spec mx ex lx Hmx) as [Hm1 He1].
  destruct (shr_fexp prec emax mx ex lx) as [mrs1 e1]. cbn [fst snd] in *.
  set (m1 := round_nearest_even (shr_m mrs1) (loc_of_shr_record mrs1)).
  assert (Hm1' : 0 <= m1).
  { pose proof (round_nearest_even_bounds (shr_m mrs1) (loc_of_shr_record mrs1)).
    assert (0 <= shr_m mrs1)
      by (rewrite Hm1; apply Z.div_pos; [lia | apply pow2_pos; unfold shift_of; lia]).
    unfold m1. lia. }
  destruct (shr_fexp_spec m1 e1 loc_Exact Hm1') as [Hm2 He2].
  destruct (shr_fexp prec emax m1 e1 loc_Exact) as [mrs2 e2]. cbn [fst snd] in *.
  assert (Hpos : 0 < 2 ^ shift_of m1 e1) by (apply pow2_pos; unfold shift_of; lia).
  destruct (shr_m mrs2) as [|m|m] eqn:Em2.
  - left. reflexivity.
  - destruct (e2 <=? emax - prec) eqn:Ee; [| right; left; reflexivity].
    right; right. exists m, e2. split; [reflexivity |]. split.
    + rewrite Hm2. apply Z.div_lt_upper_bound; [exact Hpos |].
      rewrite <- Z.pow_add_r by (unfold shift_of; lia).
      apply Zdigits2_le_lt_pow2; [exact Hm1' |].
      unfold shift_of. rewrite fexp_eq. lia.
    + apply Z.leb_le in Ee. unfold emax, prec in Ee. split; [| lia].
      rewrite He2, He1. unfold shift_of. rewrite !fexp_eq. lia.
  - exfalso. assert (0 <= m1 / 2 ^ shift_of m1 e1) by (apply Z.div_pos; lia). lia.
Qed.

(** When [binary_round_aux] does not overflow. *)
Lemma binary_round_aux_no_overflow sx mx ex lx :
  0 <= mx -> ex <= 971 ->
  Zdigits2 mx + ex <= 1024 ->
  (Zdigits2 mx + ex = 1024 -> mx / 2 ^ (971 - ex) <= 2 ^ 53 - 2) ->
  isFinite (binary_round_aux prec emax sx mx ex lx) = true.
Proof.
  intros Hmx Hex Hd Htop. unfold binary_round_aux.
  destruct (shr_fexp_spec mx ex lx Hmx) as [Hm1 He1].
  destruct (shr_fexp prec emax mx ex lx) as [mrs1 e1]. cbn [fst snd] in *.
  set (m1 := round_nearest_even (shr_m mrs1) (loc_of_shr_record mrs1)).
  pose proof (round_nearest_even_bounds (shr_m mrs1) (loc_of_shr_record mrs1)) as Hrne.
  fold m1 in Hrne.
  assert (Hs1 : 0 < 2 ^ shift_of mx ex) by (apply pow2_pos; unfold shift_of; lia).
  assert (HmA : 0 <= shr_m mrs1) by (rewrite Hm1; apply Z.div_pos; lia).
  assert (Hm1' : 0 <= m1) by lia.
  (* the first shift leaves fewer than 54 bits *)
  assert (HmA53 : shr_m mrs1 < 2 ^ 53).
  { rewrite Hm1. apply Z.div_lt_upper_bound; [exact Hs1 |].
    rewrite <- Z.pow_add_r by (unfold shift_of; lia).
    apply Zdigits2_le_lt_pow2; [exact Hmx |].
    unfold shift_of. rewrite fexp_eq. lia. }
  assert (He1lo : -1074 <= e1).
  { rewrite He1. unfold shift_of. rewrite fexp_eq. pose proof (Zdigits2_nonneg mx). lia. }
  assert (He1hi : e1 <= 971).
  { rewrite He1. unfold shift_of. rewrite fexp_eq. lia. }
  destruct (shr_fexp_spec m1 e1 loc_Exact Hm1') as [Hm2 He2].
  destruct (shr_fexp prec emax m1 e1 loc_Exact) as [mrs2 e2]. cbn [fst snd] in *.
  assert (He2hi : e2 <= 971).
  { rewrite He2. unfold shift_of at 1. rewrite fexp_eq.
    destruct (Z.eq_dec m1 (2 ^ 53)) as [Etop | Ntop].
    - (* a carry into the 54th bit *)
      assert (Hd1 : Zdigits2 m1 = 54) by (rewrite Etop; reflexivity).
      rewrite Hd1.
      assert (HA : shr_m mrs1 = 2 ^ 53 - 1) by lia.
      enough (e1 <= 970) by lia.
      destruct (Z.eq_dec e1 971) as [E971 | ]; [exfalso | lia].
      rewrite He1 in E971. unfold shift_of in E971, Hm1. rewrite fexp_eq in E971, Hm1.
      destruct (Z.eq_dec (Zdigits2 mx + ex) 1024) as [E1024 | N1024].
      + specialize (Htop E1024). rewrite E1024 in Hm1.
        replace (Z.max 0 (Z.max (1024 - 53) (-1074) - ex)) with (971 - ex) in Hm1 by lia.
        lia.
      + assert (ex = 971) by lia. subst ex.
        assert (Hlt : mx < 2 ^ 52) by (apply Zdigits2_le_lt_pow2; lia).
        replace (Z.max 0 (Z.max (Zdigits2 mx + 971 - 53) (-1074) - 971)) with 0 in Hm1
          by (pose proof (Zdigits2_nonneg mx); lia).
        rewrite Z.div_1_r in Hm1. change (2 ^ 52) with 4503599627370496 in Hlt.
        change (2 ^ 53) with 9007199254740992 in HA. lia.
    - assert (Hd1 : Zdigits2 m1 <= 53) by (apply Zdigits2_lt_pow2; lia).
      lia. }
  assert (Hpos2 : 0 < 2 ^ shift_of m1 e1) by (apply pow2_pos; unfold shift_of; lia).
  assert (0 <= shr_m mrs2) by (rewrite Hm2; apply Z.div_pos; lia).
  destruct (shr_m mrs2); [reflexivity | | lia].
  replace (e2 <=? emax - prec) with true; [reflexivity |].
  symmetry. apply Z.leb_le. unfold emax, prec. lia.
Qed.

Lemma div_core_spec num den :
  exists q e l,
    SFdiv_core_binary prec emax (Zpos num) 0 (Zpos den) 0 = (q, e, l) /\
    e <= 0 /\ q = (Zpos num * 2 ^ (- e)) / Zpos den.
Proof.
  unfold SFdiv_core_binary.
  set (e := Z.min (fexp prec emax (Zdigits2 (Z.pos num) + 0 - (Zdigits2 (Z.pos den) + 0))) (0 - 0)).
  assert (He : e <= 0) by (unfold e; lia).
  set (m' := match 0 - 0 - e with
             | 0 => Z.pos num
             | Z.pos _ => Z.shiftl (Z.pos num) (0 - 0 - e)
             | Z.neg _ => 0
             end).
  assert (Hm' : m' = Zpos num * 2 ^ (- e)).
  { unfold m'. replace (0 - 0 - e) with (- e) by lia.
    destruct (- e) as [|p|p] eqn:Ee; [lia | | lia].
    apply Z.shiftl_mul_pow2. lia. }
  destruct (Z.div_eucl m' (Z.pos den)) as [q r] eqn:Ediv.
  exists q, e, (new_location (Z.pos den) r). split; [reflexivity |]. split; [exact He |].
  rewrite <- Hm'. unfold Z.div. rewrite Ediv. reflexivity.
Qed.

Lemma round_decimal_unfold s M E num :
  M * 10 ^ Z.max 0 E = Zpos num ->
  exists q e l,
    round_decimal s M E = binary_round_aux prec emax s q e l /\
    e <= 0 /\
    q = (Zpos num * 2 ^ (- e)) / (10 ^ Z.max 0 (- E)).
Proof.
  intros Hnum. unfold round_decimal. rewrite Hnum.
  set (den := Z.to_pos (10 ^ Z.max 0 (- E))).
  assert (Hden : Zpos den = 10 ^ Z.max 0 (- E)).
  { unfold den. apply Z2Pos.id. apply Z.pow_pos_nonneg; lia. }
  destruct (div_core_spec num den) as (q & e & l & Hcore & He & Hq).
  exists q, e, l. unfold SFdiv. rewrite Hcore, Bool.xorb_false_r.
  rewrite <- Hden. auto.
Qed.

Lemma round_decimal_cases s M E :
  round_decimal s M E = S754_zero s \/
  round_decimal s M E = S754_infinity s \/
  exists m e, round_decimal s M E = S754_finite s m e /\
              Zpos m < 2 ^ 53 /\ -1074 <= e <= 971.
Proof.
  destruct (M * 10 ^ Z.max 0 E) as [|num|num] eqn:Hnum;
    try (left; unfold round_decimal; rewrite Hnum; reflexivity).
  destruct (round_decimal_unfold s M E num Hnum) as (q & e & l & -> & He & Hq).
  apply binary_round_aux_cases. rewrite Hq.
  apply Z.div_pos; [| apply Z.pow_pos_nonneg; lia].
  apply Z.mul_nonneg_nonneg; [lia | apply Z.pow_nonneg; lia].
Qed.

Lemma round_decimal_finite s M E :
  M * 10 ^ Z.max 0 E < max_value * 10 ^ Z.max 0 (- E) ->
  isFinite (round_decimal s M E) = true.
Proof.
  intros Hlt.
  destruct (M * 10 ^ Z.max 0 E) as [|num|num] eqn:Hnum;
    try (unfold round_decimal; rewrite Hnum; reflexivity).
  destruct (round_decimal_unfold s M E num Hnum) as (q & e & l & -> & He & Hq).
  set (den := 10 ^ Z.max 0 (- E)) in *.
  assert (Hden : 0 < den) by (apply Z.pow_pos_nonneg; lia).
  assert (Hpe : 0 < 2 ^ (- e)) by (apply pow2_pos; lia).
  assert (Hq0 : 0 <= q).
  { rewrite Hq. apply Z.div_pos; [| exact Hden]. apply Z.mul_nonneg_nonneg; lia. }
  assert (Hqlt : q < (2 ^ 53 - 1) * 2 ^ (971 - e)).
  { rewrite Hq. apply Z.div_lt_upper_bound; [exact Hden |].
    replace (971 - e) with (971 + - e) by lia.
    rewrite Z.pow_add_r by lia. unfold max_value in Hlt.
    replace (den * ((2 ^ 53 - 1) * (2 ^ 971 * 2 ^ (- e))))
      with (((2 ^ 53 - 1) * 2 ^ 971 * den) * 2 ^ (- e)) by ring.
    apply Z.mul_lt_mono_pos_r; [exact Hpe | exact Hlt]. }
  assert (Hp971 : 0 < 2 ^ (971 - e)) by (apply pow2_pos; lia).
  apply binary_round_aux_no_overflow; [exact Hq0 | lia | |].
  - enough (Zdigits2 q <= 1024 - e) by lia.
    apply Zdigits2_lt_pow2; [exact Hq0 | lia |].
    replace (1024 - e) with (53 + (971 - e)) by lia.
    rewrite Z.pow_add_r by lia.
    apply Z.lt_le_trans with (1 := Hqlt).
    apply Z.mul_le_mono_nonneg_r; lia.
  - intros _. enough (q / 2 ^ (971 - e) < 2 ^ 53 - 1) by lia.
    apply Z.div_lt_upper_bound; [exact Hp971 |].
    rewrite Z.mul_comm. exact Hqlt.
Qed.

Lemma well_formed_cases r s :
  (r = S754_zero s \/ r = S754_infinity s \/
   exists m e, r = S754_finite s m e /\ Zpos m < 2 ^ 53 /\ -1074 <= e <= 971) ->
  well_formed r.
Proof.
  intros [-> | [-> | (m & e & -> & Hm & He)]]; cbn; auto.
Qed.

Lemma binary_round_aux_well_formed sx mx ex lx :
  0 <= mx -> well_formed (binary_round_aux prec emax sx mx ex lx).
Proof.
  intros Hmx. apply (well_formed_cases _ sx). apply binary_round_aux_cases. exact Hmx.
Qed.

Lemma binary_normalize_well_formed m e z :
  well_formed (binary_normalize prec emax m e z).
Proof.
  destruct m as [|p|p]; cbn [binary_normalize]; [exact I | |];
    unfold binary_round;
    destruct (shl_align p e (fexp prec emax (Z.pos (digits2_pos p) + e))) as [mz ez];
    apply binary_round_aux_well_formed; lia.
Qed.

Lemma round_decimal_well_formed s M E : well_formed (round_decimal s M E).
Proof. apply (well_formed_cases _ s), round_decimal_cases. Qed.

Lemma add_well_formed x y : well_formed x -> well_formed y -> well_formed (add x y).
Proof.
  intros Hx Hy. unfold add.
  destruct x as [sx|sx| |sx mx ex], y as [sy|sy| |sy my ey];
    try exact I; try exact Hx; try exact Hy;
    try (destruct sx, sy; exact I).
  apply binary_normalize_well_formed.
Qed.

Lemma sub_well_formed x y : well_formed x -> well_formed y -> well_formed (sub x y).
Proof.
  intros Hx Hy. unfold sub.
  destruct x as [sx|sx| |sx mx ex], y as [sy|sy| |sy my ey];
    try exact I; try exact Hx; try exact Hy;
    try (destruct sx, sy; exact I).
  apply binary_normalize_well_formed.
Qed.

Lemma mul_well_formed x y : well_formed (mul x y).
Proof.
  unfold mul.
  destruct x as [sx|sx| |sx mx ex], y as [sy|sy| |sy my ey]; try exact I.
  cbn [SFmul]. apply binary_round_aux_well_formed. lia.
Qed.

(** The quotient [SFdiv_core_binary] hands to the rounding is not
    negative. *)
Lemma div_core_nonneg mx ex my ey :
  0 <= fst (fst (SFdiv_core_binary prec emax (Z.pos mx) ex (Z.pos my) ey)).
Proof.
  unfold SFdiv_core_binary.
  match goal with |- context [Z.div_eucl ?m _] => set (m' := m) end.
  assert (Hm' : 0 <= m').
  { unfold m'. destruct (ex - ey - _); try lia. apply Z.shiftl_nonneg. lia. }
  pose proof (Z.div_pos m' (Z.pos my) Hm' ltac:(lia)) as Hq. unfold Z.div in Hq.
  destruct (Z.div_eucl m' (Z.pos my)) as [q r]. exact Hq.
Qed.

Lemma div_well_formed x y : well_formed (div x y).
Proof.
  unfold div.
  destruct x as [sx|sx| |sx mx ex], y as [sy|sy| |sy my ey]; try exact I.
  cbn [SFdiv].
  pose proof (div_core_nonneg mx ex my ey) as Hq.
  destruct (SFdiv_core_binary prec emax (Z.pos mx) ex (Z.pos my) ey) as [[mz ez] lz].
  apply binary_round_aux_well_formed. exact Hq.
Qed.

(** *** The decimal digits of a well-formed value stay below the overflow
    threshold *)

Lemma decimal_exponent_from_le fuel m e : forall j,
  decimal_exponent_from fuel j m e <= j.
Proof.
  induction fuel as [|f IH]; intros j; cbn [decimal_exponent_from]; [lia |].
  destruct (scaled m e j) as [a b]. destruct (b <=? a); [lia |].
  specialize (IH (j - 1)). lia.
Qed.

Lemma decimal_exponent_le m e : decimal_exponent m e <= 308.
Proof. apply decimal_exponent_from_le. Qed.

Lemma well_formed_value_le m e s :
  well_formed (S754_finite s m e) ->
  Zpos m * 2 ^ Z.max 0 e <= max_value * 2 ^ Z.max 0 (- e).
Proof.
  intros [Hm [_ He]]. unfold max_value.
  assert (0 < 2 ^ Z.max 0 (- e)) by (apply pow2_pos; lia).
  assert (0 < 2 ^ Z.max 0 e) by (apply pow2_pos; lia).
  assert (2 ^ Z.max 0 e <= 2 ^ 971) by (apply Z.pow_le_mono_r; lia).
  assert (0 < 2 ^ 971) by (apply pow2_pos; lia).
  assert (H53 : 0 < 2 ^ 53 - 1) by (vm_compute; reflexivity).
  apply Z.le_trans with ((2 ^ 53 - 1) * 2 ^ 971 * 1); [| apply Z.mul_le_mono_nonneg_l; nia].
  rewrite Z.mul_1_r. apply Z.mul_le_mono_nonneg; lia.
Qed.

Lemma pow10_pos k : 0 < 10 ^ Z.max 0 k.
Proof. apply Z.pow_pos_nonneg; lia. Qed.

Section PrecisionBound.

Variable p : Z.
Hypothesis p_range : 1 <= p <= 308.

Hypothesis top_short : top_digits p < 10 ^ p.
Hypothesis top_below : top_digits p * 10 ^ (309 - p) < max_value.

Lemma precision_digits_bound s m e :
  well_formed (S754_finite s m e) ->
  let '(n, j) := precision_digits (Z.to_nat p) m e in
  0 <= n < 10 ^ p /\
  n * 10 ^ Z.max 0 (j - p + 1) < max_value * 10 ^ Z.max 0 (- (j - p + 1)).
Proof.
  intros Hwf. unfold precision_digits. rewrite Z2Nat.id by lia.
  pose proof (decimal_exponent_le m e) as Hj.
  set (j := decimal_exponent m e) in *.
  unfold scaled.
  set (N := Z.pos m * 2 ^ Z.max 0 e).
  set (U := 2 ^ Z.max 0 (- e)).
  assert (HU : 0 < U) by (apply pow2_pos; lia).
  assert (HN : 0 <= N) by (apply Z.mul_nonneg_nonneg; [lia | apply Z.pow_nonneg; lia]).
  pose proof (well_formed_value_le m e s Hwf) as HX. fold N U in HX.
  set (E := j - p + 1).
  pose proof (pow10_pos E) as HPE. pose proof (pow10_pos (- E)) as HQE.
  set (a := N * 10 ^ Z.max 0 (- E)).
  set (b := U * 10 ^ Z.max 0 E).
  assert (Hb : 0 < b) by (apply Z.mul_pos_pos; assumption).
  assert (Ha : 0 <= a) by (apply Z.mul_nonneg_nonneg; lia).
  set (n0 := (2 * a + b) / (2 * b)).
  assert (Hn0 : 0 <= n0) by (apply Z.div_pos; lia).
  assert (Hmax : 0 < max_value) by (vm_compute; reflexivity).
  assert (H308 : 10 ^ 308 < max_value) by (vm_compute; reflexivity).
  destruct (n0 <? 10 ^ p) eqn:Hcarry.
  - apply Z.ltb_lt in Hcarry. cbv beta iota. fold E. split; [lia |].
    destruct (Z.eq_dec j 308) as [Ej | Nj].
    + (* the top decade *)
      assert (EE : E = 309 - p) by (unfold E; lia).
      assert (Hn0top : n0 <= top_digits p).
      { enough (n0 < top_digits p + 1) by lia.
        apply Z.div_lt_upper_bound; [lia |].
        unfold a, b. rewrite EE.
        replace (Z.max 0 (- (309 - p))) with 0 by lia.
        replace (Z.max 0 (309 - p)) with (309 - p) by lia.
        rewrite Z.pow_0_r, Z.mul_1_r.
        set (T := 10 ^ (309 - p)) in *.
        assert (HT : 0 < T) by (apply Z.pow_pos_nonneg; lia).
        assert (Hdiv : 2 * max_value + T < 2 * T * (top_digits p + 1)).
        { unfold top_digits. fold T.
          pose proof (Z.mul_succ_div_gt (2 * max_value + T) (2 * T)). lia. }
        nia. }
      rewrite EE.
      replace (Z.max 0 (- (309 - p))) with 0 by lia.
      replace (Z.max 0 (309 - p)) with (309 - p) by lia.
      rewrite Z.pow_0_r, Z.mul_1_r.
      apply Z.le_lt_trans with (2 := top_below).
      apply Z.mul_le_mono_nonneg_r; [apply Z.pow_nonneg; lia | exact Hn0top].
    + (* below the top decade the decimal is at most 10^308 *)
      apply Z.lt_le_trans with (10 ^ p * 10 ^ Z.max 0 E).
      * apply Z.mul_lt_mono_pos_r; lia.
      * apply Z.le_trans with (10 ^ 308 * 10 ^ Z.max 0 (- E)).
        -- rewrite <- !Z.pow_add_r by lia. apply Z.pow_le_mono_r; unfold E; lia.
        -- apply Z.mul_le_mono_nonneg_r; lia.
  - apply Z.ltb_ge in Hcarry.
    assert (Hp1 : 0 < 10 ^ (p - 1)) by (apply Z.pow_pos_nonneg; lia).
    cbv beta iota. split.
    + split; [lia |]. apply Z.pow_lt_mono_r; lia.
    + destruct (Z.eq_dec j 308) as [Ej | Nj].
      * (* no carry out of the top decade *)
        exfalso.
        assert (EE : E = 309 - p) by (unfold E; lia).
        enough (n0 < top_digits p + 1) by lia.
        apply Z.div_lt_upper_bound; [lia |].
        unfold a, b. rewrite EE.
        replace (Z.max 0 (- (309 - p))) with 0 by lia.
        replace (Z.max 0 (309 - p)) with (309 - p) by lia.
        rewrite Z.pow_0_r, Z.mul_1_r.
        set (T := 10 ^ (309 - p)) in *.
        assert (HT : 0 < T) by (apply Z.pow_pos_nonneg; lia).
        assert (Hdiv : 2 * max_value + T < 2 * T * (top_digits p + 1)).
        { unfold top_digits. fold T.
          pose proof (Z.mul_succ_div_gt (2 * max_value + T) (2 * T)). lia. }
        nia.
      * pose proof (pow10_pos (- (j + 1 - p + 1))).
        apply Z.le_lt_trans with (10 ^ 308 * 10 ^ Z.max 0 (- (j + 1 - p + 1))).
        -- rewrite <- !Z.pow_add_r by lia. apply Z.pow_le_mono_r; lia.
        -- apply Z.mul_lt_mono_pos_r; lia.
Qed.

End PrecisionBound.

Lemma precision_12_bound s m e :
  well_formed (S754_finite s m e) ->
  let '(n, j) := precision_digits 12 m e in
  0 <= n < 10 ^ 12 /\
  n * 10 ^ Z.max 0 (j - 11) < max_value * 10 ^ Z.max 0 (- (j - 11)).
Proof.
  intros Hwf.
  pose proof (precision_digits_bound 12 ltac:(lia)
                ltac:(vm_compute; reflexivity) ltac:(vm_compute; reflexivity)
                s m e Hwf) as H.
  change (Z.to_nat 12) with 12%nat in H.
  destruct (precision_digits 12 m e) as [n j].
  replace (j - 11) with (j - 12 + 1) by lia. exact H.
Qed.

Lemma precision_17_bound s m e :
  well_formed (S754_finite s m e) ->
  let '(n, j) := precision_digits 17 m e in
  0 <= n < 10 ^ 17 /\
  n * 10 ^ Z.max 0 (j - 16) < max_value * 10 ^ Z.max 0 (- (j - 16)).
Proof.
  intros Hwf.
  pose proof (precision_digits_bound 17 ltac:(lia)
                ltac:(vm_compute; reflexivity) ltac:(vm_compute; reflexivity)
                s m e Hwf) as H.
  change (Z.to_nat 17) with 17%nat in H.
  destruct (precision_digits 17 m e) as [n j].
  replace (j - 16) with (j - 17 + 1) by lia. exact H.
Qed.

(** ** Digit strings *)

Ltac ascii_cases c := destruct c as [[] [] [] [] [] [] [] []].

Lemma digit_char_spec d :
  0 <= d <= 9 -> is_digit (digit_char d) = true /\ digit_val (digit_char d) = d.
Proof.
  intros Hd.
  assert (H : d = 0 \/ d = 1 \/ d = 2 \/ d = 3 \/ d = 4 \/ d = 5 \/ d = 6 \/
              d = 7 \/ d = 8 \/ d = 9) by lia.
  repeat destruct H as [-> | H]; try subst d; split; reflexivity.
Qed.

Lemma digit_not_space c : is_digit c = true -> is_space c = false.
Proof. ascii_cases c; vm_compute; congruence. Qed.

Lemma digit_not_point c : is_digit c = true -> Ascii.eqb c "." = false.
Proof. ascii_cases c; vm_compute; congruence. Qed.

Lemma take_sign_digit c r :
  is_digit c = true -> take_sign (String c r) = (false, String c r).
Proof. ascii_cases c; vm_compute; congruence. Qed.

Lemma prefix_Infinity_digit c r :
  is_digit c = true -> String.prefix "Infinity" (String c r) = false.
Proof. ascii_cases c; intros H; try reflexivity; vm_compute in H; discriminate. Qed.

Lemma span_digits_app ds r :
  all_digits ds = true -> no_digit_ahead r = true ->
  span_digits (ds ++ r) = (ds, r).
Proof.
  intros Hds Hr. induction ds as [|c ds IH]; cbn in *.
  - destruct r as [|c r]; [reflexivity |].
    apply negb_true_iff in Hr. cbn [span_digits]. rewrite Hr. reflexivity.
  - apply andb_true_iff in Hds as [Hc Hds]. rewrite Hc, (IH Hds). reflexivity.
Qed.

Lemma all_digits_app a b :
  all_digits (a ++ b) = all_digits a && all_digits b.
Proof.
  induction a as [|c a IH]; cbn; [reflexivity |]. rewrite IH, andb_assoc. reflexivity.
Qed.

Lemma digits_value_app a : forall acc b,
  digits_value acc (a ++ b) = digits_value (digits_value acc a) b.
Proof.
  induction a as [|c a IH]; intros acc b; cbn; [reflexivity | apply IH].
Qed.

Lemma all_digits_fixed k n : all_digits (digits_fixed k n) = true.
Proof.
  induction k as [|k IH]; cbn [digits_fixed all_digits]; [reflexivity |].
  rewrite IH, andb_true_r.
  apply digit_char_spec.
  pose proof (Z.mod_pos_bound (n / 10 ^ Z.of_nat k) 10). lia.
Qed.

Lemma length_digits_fixed k n : String.length (digits_fixed k n) = k.
Proof. induction k as [|k IH]; cbn; [reflexivity | rewrite IH; reflexivity]. Qed.

Lemma digits_value_fixed k n : forall acc,
  digits_value acc (digits_fixed k n) = acc * 10 ^ Z.of_nat k + n mod 10 ^ Z.of_nat k.
Proof.
  induction k as [|k IH]; intros acc; cbn [digits_fixed digits_value].
  - cbn. rewrite Z.mod_1_r. lia.
  - rewrite IH.
    assert (Hd : digit_val (digit_char ((n / 10 ^ Z.of_nat k) mod 10)) =
                 (n / 10 ^ Z.of_nat k) mod 10).
    { apply digit_char_spec.
      pose proof (Z.mod_pos_bound (n / 10 ^ Z.of_nat k) 10). lia. }
    rewrite Hd. rewrite Nat2Z.inj_succ, Z.pow_succ_r by lia.
    assert (Hp : 0 < 10 ^ Z.of_nat k) by (apply Z.pow_pos_nonneg; lia).
    rewrite (Z.mul_comm 10 (10 ^ Z.of_nat k)).
    rewrite (Z.rem_mul_r n (10 ^ Z.of_nat k) 10) by lia.
    ring.
Qed.

Lemma digits_value_fixed_0 k n :
  0 <= n < 10 ^ Z.of_nat k -> digits_value 0 (digits_fixed k n) = n.
Proof.
  intros Hn. rewrite digits_value_fixed, Z.mod_small by exact Hn. lia.
Qed.

Lemma all_digits_zeros k : all_digits (zeros k) = true.
Proof. induction k; cbn; auto. Qed.

Lemma length_zeros k : String.length (zeros k) = k.
Proof. induction k as [|k IH]; cbn; [reflexivity | rewrite IH; reflexivity]. Qed.

Lemma digits_value_zeros k : forall acc,
  digits_value acc (zeros k) = acc * 10 ^ Z.of_nat k.
Proof.
  induction k as [|k IH]; intros acc; cbn [zeros digits_value].
  - cbn. lia.
  - rewrite IH. change (digit_val "0") with 0.
    rewrite Nat2Z.inj_succ, Z.pow_succ_r by lia. ring.
Qed.

Lemma count_digits_bound fuel : forall n,
  0 <= n < 2 ^ (Z.of_nat fuel + 1) ->
  n < 10 ^ Z.of_nat (count_digits fuel n).
Proof.
  induction fuel as [|f IH]; intros n Hn; cbn [count_digits].
  - cbn in Hn. cbn. lia.
  - destruct (n <? 10) eqn:E10.
    + apply Z.ltb_lt in E10. cbn. lia.
    + apply Z.ltb_ge in E10.
      rewrite Nat2Z.inj_succ, Z.pow_succ_r by lia.
      assert (Hq : n / 10 < 10 ^ Z.of_nat (count_digits f (n / 10))).
      { apply IH. split; [apply Z.div_pos; lia |].
        apply Z.div_lt_upper_bound; [lia |].
        rewrite Nat2Z.inj_succ in Hn.
        replace (Z.succ (Z.of_nat f) + 1) with (1 + (Z.of_nat f + 1)) in Hn by lia.
        rewrite Z.pow_add_r in Hn by lia. change (2 ^ 1) with 2 in Hn.
        assert (0 < 2 ^ (Z.of_nat f + 1)) by (apply pow2_pos; lia). lia. }
      pose proof (Z.mul_succ_div_gt n 10). lia.
Qed.

Lemma nat_string_spec n :
  0 <= n ->
  all_digits (nat_string n) = true /\
  digits_value 0 (nat_string n) = n /\
  nat_string n <> "".
Proof.
  intros Hn. unfold nat_string. split; [apply all_digits_fixed |]. split.
  - apply digits_value_fixed_0. split; [exact Hn |].
    apply count_digits_bound. split; [exact Hn |].
    rewrite Z2Nat.id by apply Z.log2_nonneg.
    destruct (Z.eq_dec n 0) as [-> | Hne]; [cbn; lia |].
    apply Z.log2_spec. lia.
  - destruct (Z.to_nat (Z.log2 n)); cbn [count_digits]; [discriminate |].
    destruct (n <? 10); discriminate.
Qed.

Lemma append_empty_r s : s ++ "" = s.
Proof. induction s as [|c s IH]; cbn; [reflexivity | rewrite IH; reflexivity]. Qed.

Lemma append_assoc a b c : (a ++ b) ++ c = a ++ (b ++ c).
Proof. induction a as [|x a IH]; cbn; [reflexivity | rewrite IH; reflexivity]. Qed.

Lemma length_append a b :
  String.length (a ++ b) = (String.length a + String.length b)%nat.
Proof. induction a as [|x a IH]; cbn; [reflexivity | rewrite IH; reflexivity]. Qed.

(** [parseFloat] on a string that starts, after an optional minus sign, with
    a digit. *)
Lemma parseFloat_after_sign s c r :
  is_digit c = true ->
  parseFloat (sign_string s ++ String c r) =
    let '(ip, r1) := span_digits (String c r) in
    let '(fp, r2) :=
      match r1 with
      | String "." r' => span_digits r'
      | _ => (EmptyString, r1)
      end in
    match ip ++ fp with
    | EmptyString => NaN
    | ds => round_decimal s (digits_value 0 ds)
                          (exponent_part r2 - Z.of_nat (String.length fp))
    end.
Proof.
  intros Hc. unfold parseFloat.
  assert (Hsign : take_sign (trim_start (sign_string s ++ String c r)) = (s, String c r)).
  { destruct s; cbn [sign_string append].
    - reflexivity.
    - cbn [trim_start]. rewrite (digit_not_space c Hc). apply take_sign_digit, Hc. }
  rewrite Hsign, (prefix_Infinity_digit c r Hc). reflexivity.
Qed.

Lemma no_point_ahead_match (tail : string) (A : Type) (f : string -> A) (d : A) :
  no_point_ahead tail = true ->
  match tail with
  | String "." r' => f r'
  | _ => d
  end = d.
Proof.
  destruct tail as [|c t]; [reflexivity |]. cbn [no_point_ahead].
  ascii_cases c; intros H; try reflexivity; vm_compute in H; discriminate.
Qed.

Lemma parseFloat_plain s ip tail :
  all_digits ip = true -> ip <> "" ->
  no_digit_ahead tail = true -> no_point_ahead tail = true ->
  parseFloat (sign_string s ++ ip ++ tail) =
    round_decimal s (digits_value 0 ip) (exponent_part tail).
Proof.
  intros Hip Hne Htail Hpoint.
  destruct ip as [|c ip']; [congruence |].
  pose proof Hip as Hip0. cbn [all_digits] in Hip. apply andb_true_iff in Hip as [Hc Hip'].
  change (String c ip' ++ tail) with (String c (ip' ++ tail)).
  rewrite (parseFloat_after_sign s c _ Hc).
  change (String c (ip' ++ tail)) with (String c ip' ++ tail).
  rewrite (span_digits_app _ _ Hip0 Htail).
  rewrite (no_point_ahead_match tail _ (fun r' => span_digits r') (EmptyString, tail) Hpoint).
  rewrite append_empty_r. cbn [String.length Z.of_nat]. rewrite Z.sub_0_r. reflexivity.
Qed.

Lemma parseFloat_point s ip fp tail :
  all_digits ip = true -> ip <> "" ->
  all_digits fp = true -> no_digit_ahead tail = true ->
  parseFloat (sign_string s ++ ip ++ "." ++ fp ++ tail) =
    round_decimal s (digits_value 0 (ip ++ fp))
                  (exponent_part tail - Z.of_nat (String.length fp)).
Proof.
  intros Hip Hne Hfp Htail.
  destruct ip as [|c ip']; [congruence |].
  pose proof Hip as Hip0. cbn [all_digits] in Hip. apply andb_true_iff in Hip as [Hc Hip'].
  change (String c ip' ++ "." ++ fp ++ tail) with (String c (ip' ++ "." ++ fp ++ tail)).
  rewrite (parseFloat_after_sign s c _ Hc).
  change (String c (ip' ++ "." ++ fp ++ tail)) with (String c ip' ++ ("." ++ fp ++ tail)).
  rewrite (span_digits_app _ ("." ++ fp ++ tail) Hip0 eq_refl).
  change ("." ++ fp ++ tail) with (String "." (fp ++ tail)). cbv iota beta.
  rewrite (span_digits_app _ _ Hfp Htail).
  reflexivity.
Qed.

Lemma exponent_part_suffix j : exponent_part (exponent_suffix j) = j.
Proof.
  unfold exponent_suffix.
  destruct (nat_string_spec (Z.abs j) (Z.abs_nonneg j)) as (Hd & Hv & Hne).
  change ("e" ++ ?x) with (String "e" x). cbn [exponent_part].
  change (Ascii.eqb "e" "e" || Ascii.eqb "e" "E")%bool with true. cbv iota.
  destruct (j <? 0) eqn:Ej.
  - change ("-" ++ nat_string (Z.abs j)) with (String "-" (nat_string (Z.abs j))).
    cbn [take_sign].
    rewrite <- (append_empty_r (nat_string (Z.abs j))) at 1.
    rewrite (span_digits_app _ "" Hd eq_refl).
    destruct (nat_string (Z.abs j)) eqn:En; [congruence |].
    rewrite Hv. apply Z.ltb_lt in Ej. lia.
  - change ("+" ++ nat_string (Z.abs j)) with (String "+" (nat_string (Z.abs j))).
    cbn [take_sign].
    rewrite <- (append_empty_r (nat_string (Z.abs j))) at 1.
    rewrite (span_digits_app _ "" Hd eq_refl).
    destruct (nat_string (Z.abs j)) eqn:En; [congruence |].
    rewrite Hv. apply Z.ltb_ge in Ej. lia.
Qed.

(** *** The four notations of a number, read back *)

Lemma substring_split s : forall i,
  (i <= String.length s)%nat ->
  substring 0 i s ++ substring i (String.length s - i) s = s.
Proof.
  induction s as [|c s IH]; intros i Hi.
  - destruct i; reflexivity.
  - destruct i as [|i]; cbn [substring String.length Nat.sub].
    + cbn [append]. f_equal.
      specialize (IH 0%nat ltac:(lia)). rewrite Nat.sub_0_r in IH.
      destruct s; [reflexivity |]. cbn [substring append] in IH |- *. exact IH.
    + cbn [append]. f_equal. apply IH. cbn in Hi. lia.
Qed.

Lemma all_digits_substring s : forall a b,
  all_digits s = true -> all_digits (substring a b s) = true.
Proof.
  induction s as [|c s IH]; intros a b Hs.
  - destruct a, b; reflexivity.
  - cbn [all_digits] in Hs. apply andb_true_iff in Hs as [Hc Hs].
    destruct a as [|a]; cbn [substring].
    + destruct b as [|b]; [reflexivity |]. cbn [all_digits]. rewrite Hc. apply IH, Hs.
    + apply IH, Hs.
Qed.

Lemma length_substring s : forall a b,
  (a + b <= String.length s)%nat -> String.length (substring a b s) = b.
Proof.
  induction s as [|c s IH]; intros a b Hab; cbn [String.length] in Hab.
  - destruct a, b; cbn in *; lia.
  - destruct a as [|a]; cbn [substring].
    + destruct b as [|b]; [reflexivity |]. cbn [String.length]. f_equal. apply IH. lia.
    + apply IH. lia.
Qed.

Lemma round_decimal_shift s d z :
  0 <= z -> round_decimal s (d * 10 ^ z) 0 = round_decimal s d z.
Proof.
  intros Hz. unfold round_decimal.
  replace (Z.max 0 0) with 0 by lia. replace (Z.max 0 z) with z by lia.
  replace (Z.max 0 (- 0)) with 0 by lia. replace (Z.max 0 (- z)) with 0 by lia.
  rewrite Z.pow_0_r, Z.mul_1_r. reflexivity.
Qed.

Section Notations.

Variable s : bool.
Variable ds : string.
Hypothesis ds_digits : all_digits ds = true.
Hypothesis ds_not_empty : ds <> "".

Lemma parse_integer_notation z :
  parseFloat (sign_string s ++ ds ++ zeros z) =
    round_decimal s (digits_value 0 ds) (Z.of_nat z).
Proof.
  rewrite <- (append_empty_r (ds ++ zeros z)).
  rewrite parseFloat_plain; try reflexivity.
  - rewrite digits_value_app, digits_value_zeros.
    change (exponent_part "") with 0. apply round_decimal_shift. lia.
  - rewrite all_digits_app, ds_digits, all_digits_zeros. reflexivity.
  - destruct ds; [congruence | discriminate].
Qed.

Lemma parse_split_notation i :
  (0 < i < String.length ds)%nat ->
  parseFloat (sign_string s ++ substring 0 i ds ++ "." ++ substring i (String.length ds - i) ds) =
    round_decimal s (digits_value 0 ds) (- Z.of_nat (String.length ds - i)).
Proof.
  intros Hi.
  rewrite <- (append_empty_r (substring i _ ds)).
  rewrite parseFloat_point; try reflexivity.
  - rewrite substring_split by lia.
    rewrite length_substring by lia. change (exponent_part "") with 0. f_equal.
  - apply all_digits_substring, ds_digits.
  - intros Hempty.
    assert (Hl : String.length (substring 0 i ds) = i) by (apply length_substring; lia).
    rewrite Hempty in Hl. cbn in Hl. lia.
  - apply all_digits_substring, ds_digits.
Qed.

Lemma parse_small_notation z :
  parseFloat (sign_string s ++ "0." ++ zeros z ++ ds) =
    round_decimal s (digits_value 0 ds) (- Z.of_nat (z + String.length ds)).
Proof.
  change ("0." ++ zeros z ++ ds) with ("0" ++ "." ++ (zeros z ++ ds)).
  rewrite <- (append_empty_r (zeros z ++ ds)).
  rewrite parseFloat_point; try reflexivity.
  - change ("0" ++ zeros z ++ ds) with (String "0" (zeros z ++ ds)).
    cbn [digits_value]. change (10 * 0 + digit_val "0") with 0.
    rewrite digits_value_app, digits_value_zeros, Z.mul_0_l.
    rewrite !length_append, length_zeros. change (exponent_part "") with 0. f_equal.
  - discriminate.
  - rewrite all_digits_app, ds_digits, all_digits_zeros. reflexivity.
Qed.

Lemma parse_exponential_notation j :
  parseFloat (sign_string s ++ point_after_first ds ++ exponent_suffix j) =
    round_decimal s (digits_value 0 ds) (j - (Z.of_nat (String.length ds) - 1)).
Proof.
  destruct ds as [|c [|c2 rest]] eqn:Eds; [congruence | |].
  - cbn [point_after_first].
    rewrite parseFloat_plain; try reflexivity; [| exact ds_digits | discriminate].
    rewrite exponent_part_suffix. f_equal. cbn. lia.
  - cbn [point_after_first].
    change (String c ("." ++ String c2 rest) ++ exponent_suffix j)
      with (String c "" ++ "." ++ String c2 rest ++ exponent_suffix j).
    cbn [all_digits] in ds_digits. apply andb_true_iff in ds_digits as [Hc Hrest].
    rewrite parseFloat_point; try reflexivity.
    + rewrite exponent_part_suffix. f_equal. cbn [String.length]. lia.
    + cbn [all_digits]. rewrite Hc. reflexivity.
    + discriminate.
    + exact Hrest.
Qed.

End Notations.

Lemma precision_digits_range p m e :
  (1 <= p)%nat ->
  let '(n, j) := precision_digits p m e in 0 <= n < 10 ^ Z.of_nat p.
Proof.
  intros Hp. unfold precision_digits, scaled. cbv beta iota zeta.
  match goal with |- context [(2 * ?a + ?b) / (2 * ?b)] =>
    set (A := a); set (B := b) end.
  assert (HB : 0 < B).
  { unfold B. apply Z.mul_pos_pos; apply Z.pow_pos_nonneg; lia. }
  assert (HA : 0 <= A).
  { unfold A. repeat apply Z.mul_nonneg_nonneg; try lia; apply Z.pow_nonneg; lia. }
  destruct ((2 * A + B) / (2 * B) <? 10 ^ Z.of_nat p) eqn:Hlt.
  - apply Z.ltb_lt in Hlt. split; [apply Z.div_pos; lia | exact Hlt].
  - split; [apply Z.pow_nonneg; lia | apply Z.pow_lt_mono_r; lia].
Qed.

(** The rounded result is the number value of the twelve digits. *)
Lemma formatResult_finite s m e :
  let '(n, j) := precision_digits 12 m e in
  formatResult (S754_finite s m e) = round_decimal s n (j - 11).
Proof.
  pose proof (precision_digits_range 12 m e ltac:(lia)) as Hrange.
  unfold formatResult, toPrecision.
  destruct (precision_digits 12 m e) as [n j].
  set (ds := digits_fixed 12 n).
  assert (Hds : all_digits ds = true) by apply all_digits_fixed.
  assert (Hlen : String.length ds = 12%nat) by apply length_digits_fixed.
  assert (Hne : ds <> "") by (intros E; rewrite E in Hlen; discriminate).
  assert (Hval : digits_value 0 ds = n) by (apply digits_value_fixed_0; exact Hrange).
  destruct ((j <? -6) || (Z.of_nat 12 <=? j)) eqn:Eexp.
  - rewrite (parse_exponential_notation s ds Hds Hne), Hval, Hlen. f_equal.
  - apply orb_false_elim in Eexp as [E6 E12].
    apply Z.ltb_ge in E6. apply Z.leb_gt in E12.
    destruct (j =? Z.of_nat 12 - 1) eqn:E11.
    + apply Z.eqb_eq in E11.
      rewrite <- (append_empty_r ds). change "" with (zeros 0).
      rewrite (parse_integer_notation s ds Hds Hne), Hval. f_equal. lia.
    + apply Z.eqb_neq in E11.
      destruct (0 <=? j) eqn:E0.
      * apply Z.leb_le in E0.
        replace (12 - Z.to_nat (j + 1))%nat
          with (String.length ds - Z.to_nat (j + 1))%nat by (rewrite Hlen; reflexivity).
        rewrite (parse_split_notation s ds Hds) by lia.
        rewrite Hval, Hlen. f_equal. lia.
      * apply Z.leb_gt in E0.
        rewrite (parse_small_notation s ds Hds), Hval, Hlen. f_equal. lia.
Qed.

Lemma same_eq x y : same x y = true -> x = y.
Proof.
  destruct x as [a|a| |a m e], y as [b|b| |b n f]; cbn; try discriminate;
    try (intros H; apply Bool.eqb_prop in H; congruence); [reflexivity |].
  intros H. apply andb_true_iff in H as [H He]. apply andb_true_iff in H as [Hs Hm].
  apply Bool.eqb_prop in Hs. apply Pos.eqb_eq in Hm. apply Z.eqb_eq in He. congruence.
Qed.

Lemma binary_round_aux_sign s1 s2 m e l :
  isFinite (binary_round_aux prec emax s1 m e l) =
  isFinite (binary_round_aux prec emax s2 m e l).
Proof.
  unfold binary_round_aux.
  destruct (shr_fexp prec emax m e l) as [mrs1 e1].
  destruct (shr_fexp prec emax _ e1 loc_Exact) as [mrs2 e2].
  destruct (shr_m mrs2); try reflexivity.
  destruct (e2 <=? emax - prec); reflexivity.
Qed.

Lemma round_decimal_sign s1 s2 M E :
  isFinite (round_decimal s1 M E) = isFinite (round_decimal s2 M E).
Proof.
  unfold round_decimal. destruct (M * 10 ^ Z.max 0 E); try reflexivity.
  unfold SFdiv. destruct (SFdiv_core_binary _ _ _ _ _ _) as [[q e] l].
  apply binary_round_aux_sign.
Qed.

Lemma decimal_exponent_from_upper fuel m e : forall j0,
  let j := decimal_exponent_from fuel j0 m e in
  j < j0 -> fst (scaled m e (j + 1)) < snd (scaled m e (j + 1)).
Proof.
  induction fuel as [|f IH]; intros j0; cbn [decimal_exponent_from]; [lia |].
  destruct (scaled m e j0) as [a b] eqn:Es.
  destruct (b <=? a) eqn:Et; [lia |].
  cbv zeta in IH |- *. intros Hlt.
  destruct (Z.eq_dec (decimal_exponent_from f (j0 - 1) m e) (j0 - 1)) as [Eq | Ne].
  - rewrite Eq. replace (j0 - 1 + 1) with j0 by lia. rewrite Es. cbn [fst snd].
    apply Z.leb_gt in Et. exact Et.
  - apply IH. pose proof (decimal_exponent_from_le f m e (j0 - 1)). lia.
Qed.

Lemma decimal_exponent_upper s m e :
  well_formed (S754_finite s m e) ->
  fst (scaled m e (decimal_exponent m e + 1)) <
  snd (scaled m e (decimal_exponent m e + 1)).
Proof.
  intros Hwf.
  pose proof (decimal_exponent_le m e) as Hle.
  destruct (Z.eq_dec (decimal_exponent m e) 308) as [E308 | N308].
  - rewrite E308. unfold scaled. cbn [fst snd].
    pose proof (well_formed_value_le m e s Hwf) as HX.
    change (Z.max 0 (- (308 + 1))) with 0. change (Z.max 0 (308 + 1)) with 309.
    rewrite Z.pow_0_r, Z.mul_1_r.
    assert (HU : 0 < 2 ^ Z.max 0 (- e)) by (apply pow2_pos; lia).
    assert (Hmax : max_value < 10 ^ 309) by (vm_compute; reflexivity).
    apply Z.le_lt_trans with (1 := HX).
    rewrite (Z.mul_comm (2 ^ Z.max 0 (- e))).
    apply Z.mul_lt_mono_pos_r; assumption.
  - apply (decimal_exponent_from_upper 632 m e 308). fold (decimal_exponent m e). lia.
Qed.

Lemma pow10_balance E k :
  0 <= k ->
  10 ^ Z.max 0 E * 10 ^ k * 10 ^ Z.max 0 (- (E + k)) =
  10 ^ Z.max 0 (E + k) * 10 ^ Z.max 0 (- E).
Proof.
  intros Hk. rewrite <- !Z.pow_add_r by lia. f_equal. lia.
Qed.

(** The [k] leading digits of a well-formed value are below [10^k]. *)
Lemma leading_digits_lt s m e k :
  well_formed (S754_finite s m e) -> 0 <= k ->
  let '(a, b) := scaled m e (decimal_exponent m e - k + 1) in
  0 <= a / b < 10 ^ k.
Proof.
  intros Hwf Hk.
  pose proof (decimal_exponent_upper s m e Hwf) as Hup.
  set (j := decimal_exponent m e) in *.
  unfold scaled in *. cbn [fst snd] in Hup.
  set (N := Z.pos m * 2 ^ Z.max 0 e) in *.
  set (U := 2 ^ Z.max 0 (- e)) in *.
  set (E := j - k + 1).
  replace (j + 1) with (E + k) in Hup by (unfold E; lia).
  assert (HU : 0 < U) by (apply pow2_pos; lia).
  assert (HN : 0 <= N) by (apply Z.mul_nonneg_nonneg; [lia | apply Z.pow_nonneg; lia]).
  pose proof (pow10_pos E) as HPE. pose proof (pow10_pos (- E)) as HQE.
  pose proof (pow10_pos (E + k)) as HPEk. pose proof (pow10_pos (- (E + k))) as HQEk.
  pose proof (pow10_balance E k Hk) as Hbal.
  assert (H10k : 0 < 10 ^ k) by (apply Z.pow_pos_nonneg; lia).
  split.
  - apply Z.div_pos; [apply Z.mul_nonneg_nonneg; lia | apply Z.mul_pos_pos; lia].
  - apply Z.div_lt_upper_bound; [apply Z.mul_pos_pos; lia |].
    (* N * Q(E) < U * P(E) * 10^k, from N * Q(E+k) < U * P(E+k) *)
    apply (Z.mul_lt_mono_pos_r (10 ^ Z.max 0 (- (E + k)))); [exact HQEk |].
    replace (U * 10 ^ Z.max 0 E * 10 ^ k * 10 ^ Z.max 0 (- (E + k)))
      with (U * (10 ^ Z.max 0 E * 10 ^ k * 10 ^ Z.max 0 (- (E + k)))) by ring.
    rewrite Hbal.
    replace (N * 10 ^ Z.max 0 (- E) * 10 ^ Z.max 0 (- (E + k)))
      with (N * 10 ^ Z.max 0 (- (E + k)) * 10 ^ Z.max 0 (- E)) by ring.
    replace (U * (10 ^ Z.max 0 (E + k) * 10 ^ Z.max 0 (- E)))
      with (U * 10 ^ Z.max 0 (E + k) * 10 ^ Z.max 0 (- E)) by ring.
    apply Z.mul_lt_mono_pos_r; assumption.
Qed.

Lemma shortest_at_spec s m e k d n :
  well_formed (S754_finite s m e) -> (1 <= k)%nat ->
  shortest_at k m e = Some (d, n) ->
  0 <= d < 10 ^ Z.of_nat k /\
  round_decimal false d (n - Z.of_nat k) = S754_finite false m e.
Proof.
  intros Hwf Hk. unfold shortest_at.
  pose proof (leading_digits_lt s m e (Z.of_nat k) Hwf ltac:(lia)) as Hlo.
  destruct (scaled m e (decimal_exponent m e - Z.of_nat k + 1)) as [a b].
  set (j := decimal_exponent m e) in *.
  set (lo := a / b) in *.
  assert (Hpk : 10 ^ (Z.of_nat k - 1) < 10 ^ Z.of_nat k) by (apply Z.pow_lt_mono_r; lia).
  assert (Hpk0 : 0 < 10 ^ (Z.of_nat k - 1)) by (apply Z.pow_pos_nonneg; lia).
  destruct (lo + 1 <? 10 ^ Z.of_nat k) eqn:Ecarry.
  - apply Z.ltb_lt in Ecarry.
    destruct (reads_back m e lo (j - Z.of_nat k + 1) &&
              (negb (reads_back m e (lo + 1) (j - Z.of_nat k + 1)) || _)) eqn:Epick.
    + apply andb_true_iff in Epick as [Hok _]. intros [= <- <-].
      split; [lia |]. apply same_eq in Hok.
      replace (j + 1 - Z.of_nat k) with (j - Z.of_nat k + 1) by lia. exact Hok.
    + destruct (reads_back m e (lo + 1) (j - Z.of_nat k + 1)) eqn:Hok; [| discriminate].
      intros [= <- <-]. split; [lia |]. apply same_eq in Hok.
      replace (j + 1 - Z.of_nat k) with (j - Z.of_nat k + 1) by lia. exact Hok.
  - destruct (reads_back m e lo (j - Z.of_nat k + 1) &&
              (negb (reads_back m e (10 ^ (Z.of_nat k - 1)) (j + 1 - Z.of_nat k + 1)) || _)) eqn:Epick.
    + apply andb_true_iff in Epick as [Hok _]. intros [= <- <-].
      split; [lia |]. apply same_eq in Hok.
      replace (j + 1 - Z.of_nat k) with (j - Z.of_nat k + 1) by lia. exact Hok.
    + destruct (reads_back m e (10 ^ (Z.of_nat k - 1)) (j + 1 - Z.of_nat k + 1)) eqn:Hok;
        [| discriminate].
      intros [= <- <-]. split; [lia |]. apply same_eq in Hok.
      replace (j + 1 + 1 - Z.of_nat k) with (j + 1 - Z.of_nat k + 1) by lia. exact Hok.
Qed.

(** The digits [Number::toString] picks for a well-formed value read back as
    a finite value. *)
Lemma shortest_spec s m e ks :
  well_formed (S754_finite s m e) ->
  Forall (fun k => (1 <= k)%nat) ks ->
  let '(k, d, n) := shortest ks m e in
  (1 <= k)%nat /\ 0 <= d < 10 ^ Z.of_nat k /\
  isFinite (round_decimal s d (n - Z.of_nat k)) = true.
Proof.
  intros Hwf Hks. induction Hks as [|k ks Hk Hks IH]; cbn [shortest].
  - pose proof (precision_17_bound s m e Hwf) as H17.
    destruct (precision_digits 17 m e) as [d j]. destruct H17 as [Hd Hlt].
    split; [lia |]. split; [exact Hd |].
    apply round_decimal_finite.
    replace (j + 1 - Z.of_nat 17) with (j - 16) by lia. exact Hlt.
  - destruct (shortest_at k m e) as [[d n]|] eqn:Eat; [| exact IH].
    destruct (shortest_at_spec s m e k d n Hwf Hk Eat) as [Hd Hback].
    split; [exact Hk |]. split; [exact Hd |].
    rewrite (round_decimal_sign s false), Hback. reflexivity.
Qed.

Lemma seq_from_one len : Forall (fun k => (1 <= k)%nat) (seq 1 len).
Proof.
  apply Forall_forall. intros k Hk. apply in_seq in Hk. lia.
Qed.

(** Reading back the string of a finite value: the number value of the
    digits picked. *)
Lemma parseFloat_NumberToString s m e :
  well_formed (S754_finite s m e) ->
  let '(k, d, n) := shortest (seq 1 17) m e in
  parseFloat (NumberToString (S754_finite s m e)) =
    round_decimal s d (n - Z.of_nat k).
Proof.
  intros Hwf.
  pose proof (shortest_spec s m e (seq 1 17) Hwf (seq_from_one 17)) as Hspec.
  unfold NumberToString.
  destruct (shortest (seq 1 17) m e) as [[k d] n]. destruct Hspec as (Hk & Hd & _).
  set (ds := digits_fixed k d).
  assert (Hds : all_digits ds = true) by apply all_digits_fixed.
  assert (Hlen : String.length ds = k) by apply length_digits_fixed.
  assert (Hne : ds <> "") by (intros E; rewrite E in Hlen; cbn in Hlen; lia).
  assert (Hval : digits_value 0 ds = d) by (apply digits_value_fixed_0; exact Hd).
  destruct ((Z.of_nat k <=? n) && (n <=? 21)) eqn:Eint.
  - apply andb_true_iff in Eint as [Ekn _]. apply Z.leb_le in Ekn.
    rewrite (parse_integer_notation s ds Hds Hne), Hval. f_equal. lia.
  - destruct ((0 <? n) && (n <=? 21)) eqn:Esplit.
    + apply andb_true_iff in Esplit as [E0 E21].
      rewrite E21, andb_true_r in Eint.
      apply Z.ltb_lt in E0. apply Z.leb_gt in Eint.
      replace (k - Z.to_nat n)%nat with (String.length ds - Z.to_nat n)%nat
        by (rewrite Hlen; reflexivity).
      rewrite (parse_split_notation s ds Hds) by lia.
      rewrite Hval, Hlen. f_equal. lia.
    + destruct ((-6 <? n) && (n <=? 0)) eqn:Esmall.
      * apply andb_true_iff in Esmall as [E6 E0]. apply Z.leb_le in E0.
        rewrite (parse_small_notation s ds Hds), Hval, Hlen. f_equal. lia.
      * rewrite (parse_exponential_notation s ds Hds Hne), Hval, Hlen. f_equal. lia.
Qed.

(** ** The pending branch of [performOperation] *)

Lemma performOperation_unfold_pending nextOperation state pv op :
  previousValue state = Some pv ->
  operation state = Some op ->
  performOperation nextOperation state =
    let inputValue := parseFloat (display state) in
    let currentValue := or_else pv zero in
    if String.eqb op "+" then commit nextOperation state (add currentValue inputValue)
    else if String.eqb op "-" then commit nextOperation state (sub currentValue inputValue)
    else if String.eqb op "×" then commit nextOperation state (mul currentValue inputValue)
    else if String.eqb op "÷" then
      if strictEq inputValue zero then (state, [divideByZeroToast])
      else commit nextOperation state (div currentValue inputValue)
    else (state, []).
Proof.
  intros Hpv Hop. unfold performOperation. rewrite Hpv, Hop.
  destruct op as [|c op']; reflexivity.
Qed.

Lemma commit_finite nextOperation state result :
  isFinite result = true ->
  commit nextOperation state result =
    (committed nextOperation (formatResult result), []).
Proof.
  intros Hfin. unfold commit, committed. rewrite Hfin. reflexivity.
Qed.

Lemma commit_not_finite nextOperation state result :
  isFinite result = false ->
  commit nextOperation state result = (initialState, [invalidCalculationToast]).
Proof.
  intros Hfin. unfold commit. rewrite Hfin. reflexivity.
Qed.

(** With a value and an arithmetic operator pending and no division by a
    zero display value, [performOperation] hands the result of the stored
    operation to [commit]. *)
Lemma performOperation_computes nextOperation state pv op result :
  previousValue state = Some pv ->
  operation state = Some op ->
  arithmetic op (or_else pv zero) (parseFloat (display state)) = Some result ->
  (op = "÷" -> strictEq (parseFloat (display state)) zero = false) ->
  performOperation nextOperation state = commit nextOperation state result.
Proof.
  intros Hpv Hop Har Hdiv.
  rewrite (performOperation_unfold_pending _ _ _ _ Hpv Hop). cbv zeta.
  unfold arithmetic in Har.
  destruct (String.eqb op "+"); [congruence |].
  destruct (String.eqb op "-"); [congruence |].
  destruct (String.eqb op "×"); [congruence |].
  destruct (String.eqb op "÷") eqn:Ediv; [| discriminate].
  apply String.eqb_eq in Ediv. rewrite (Hdiv Ediv). congruence.
Qed.

Lemma commit_zero_sign nextOperation state x y :
  same_up_to_zero_sign x y ->
  commit nextOperation state x = commit nextOperation state y.
Proof.
  intros [-> | (a & b & -> & ->)]; reflexivity.
Qed.

(** The four operations give NaN on a NaN operand. *)
Lemma arithmetic_NaN op x r :
  arithmetic op NaN x = Some r -> r = NaN.
Proof.
  unfold arithmetic.
  destruct (String.eqb op "+"); [intros [= <-]; reflexivity |].
  destruct (String.eqb op "-"); [intros [= <-]; reflexivity |].
  destruct (String.eqb op "×"); [intros [= <-]; reflexivity |].
  destruct (String.eqb op "÷"); [intros [= <-]; reflexivity | discriminate].
Qed.

(** [previousValue || 0] differs from [previousValue] only for [-0] and
    [NaN].  With [NaN] no result is finite; with [-0] the four operations
    give the same result up to the sign of a zero. *)
Lemma or_else_zero_arithmetic op pv x r :
  arithmetic op pv x = Some r ->
  isFinite r = true ->
  exists r', arithmetic op (or_else pv zero) x = Some r' /\
             same_up_to_zero_sign r' r.
Proof.
  intros Har Hfin.
  destruct pv as [s| s| |s m e];
    try (exists r; split; [exact Har | left; reflexivity]).
  - unfold or_else, truthy, zero. unfold arithmetic in *.
    destruct (String.eqb op "+");
      [| destruct (String.eqb op "-");
         [| destruct (String.eqb op "×");
            [| destruct (String.eqb op "÷"); [| discriminate]]]];
      injection Har as <-; eexists; (split; [reflexivity |]);
      destruct s, x as [[]|[]| |[] ? ?]; cbn;
      solve [ left; reflexivity | right; eauto ].
  - apply arithmetic_NaN in Har. subst r. discriminate.
Qed.

Lemma performOperation_divide_by_zero nextOperation state pv :
  previousValue state = Some pv ->
  operation state = Some "÷" ->
  strictEq (parseFloat (display state)) zero = true ->
  performOperation nextOperation state = (state, [divideByZeroToast]).
Proof.
  intros Hpv Hop Hzero.
  rewrite (performOperation_unfold_pending _ _ _ _ Hpv Hop). cbv zeta.
  rewrite Hzero. reflexivity.
Qed.

Lemma performOperation_stored_equals nextOperation state pv :
  previousValue state = Some pv ->
  operation state = Some "=" ->
  performOperation nextOperation state = (state, []).
Proof.
  intros Hpv Hop.
  rewrite (performOperation_unfold_pending _ _ _ _ Hpv Hop). reflexivity.
Qed.

Lemma inputNumber_keeps_pending num state :
  previousValue (inputNumber num state) = previousValue state /\
  operation (inputNumber num state) = operation state.
Proof.
  unfold inputNumber. destruct (waitingForOperand state); split; reflexivity.
Qed.

Lemma inputDecimal_keeps_pending state :
  previousValue (inputDecimal state) = previousValue state /\
  operation (inputDecimal state) = operation state.
Proof.
  unfold inputDecimal. destruct (waitingForOperand state); [split; reflexivity |].
  destruct (indexOf (display state) "." =? -1); split; reflexivity.
Qed.

Lemma stored_equals_stays evs : forall state pv,
  previousValue state = Some pv ->
  operation state = Some "=" ->
  existsb isClear evs = false ->
  previousValue (fst (run evs state)) = Some pv /\
  operation (fst (run evs state)) = Some "=" /\
  snd (run evs state) = [].
Proof.
  induction evs as [|ev rest IH]; intros state pv Hpv Hop Hclear.
  - cbn. auto.
  - cbn in Hclear. apply orb_false_elim in Hclear as [Hev Hrest].
    assert (Hd : exists s1, dispatch ev state = (s1, []) /\
                   previousValue s1 = Some pv /\ operation s1 = Some "=").
    { destruct ev as [num| | |nextOperation]; cbn.
      - eexists; split; [reflexivity |].
        destruct (inputNumber_keeps_pending num state) as [-> ->]. auto.
      - eexists; split; [reflexivity |].
        destruct (inputDecimal_keeps_pending state) as [-> ->]. auto.
      - discriminate.
      - rewrite (performOperation_stored_equals _ _ _ Hpv Hop). eauto. }
    destruct Hd as (s1 & Hs1 & Hpv1 & Hop1).
    cbn [run]. rewrite Hs1.
    specialize (IH s1 pv Hpv1 Hop1 Hrest).
    destruct (run rest s1) as [s2 t2]. cbn in *. exact IH.
Qed.

(** ** The invariant of reachable states *)

Lemma count_points_app a b :
  count_points (a ++ b) = (count_points a + count_points b)%nat.
Proof. induction a as [|c a IH]; cbn; [reflexivity | rewrite IH; lia]. Qed.

Lemma count_points_digits ds : all_digits ds = true -> count_points ds = 0%nat.
Proof.
  induction ds as [|c ds IH]; cbn; [reflexivity |]. intros H.
  apply andb_true_iff in H as [Hc Hds]. rewrite (digit_not_point c Hc), (IH Hds). reflexivity.
Qed.

Lemma indexOf_ge s c : -1 <= indexOf s c.
Proof.
  induction s as [|d s IH]; cbn; [lia |].
  destruct (Ascii.eqb d c); [lia |]. destruct (indexOf s c =? -1); lia.
Qed.

Lemma indexOf_point a b : indexOf (a ++ "." ++ b) "." <> -1.
Proof.
  induction a as [|c a IH]; cbn; [lia |].
  destruct (Ascii.eqb c "."); [lia |].
  destruct (indexOf (a ++ String "." b) "." =? -1) eqn:E.
  - apply Z.eqb_eq in E. destruct (IH E).
  - pose proof (indexOf_ge (a ++ String "." b) "."). lia.
Qed.

Lemma typed_digit d c :
  TypedDisplay d -> is_digit c = true -> TypedDisplay (d ++ String c "").
Proof.
  intros (ip & Hip & Hne & [-> | (fp & Hfp & ->)]) Hc.
  - exists (ip ++ String c ""). split; [| split; [| left; reflexivity]].
    + rewrite all_digits_app, Hip. cbn. rewrite Hc. reflexivity.
    + destruct ip; [congruence | discriminate].
  - exists ip. split; [exact Hip |]. split; [exact Hne |]. right.
    exists (fp ++ String c ""). split.
    + rewrite all_digits_app, Hfp. cbn. rewrite Hc. reflexivity.
    + rewrite !append_assoc. reflexivity.
Qed.

Lemma typed_single c : is_digit c = true -> TypedDisplay (String c "").
Proof.
  intros Hc. exists (String c ""). split; [cbn; rewrite Hc; reflexivity |].
  split; [discriminate | left; reflexivity].
Qed.

Lemma typed_point d :
  TypedDisplay d -> indexOf d "." = -1 -> TypedDisplay (d ++ ".").
Proof.
  intros (ip & Hip & Hne & [-> | (fp & Hfp & ->)]) Hidx.
  - exists ip. split; [exact Hip |]. split; [exact Hne |]. right.
    exists "". split; reflexivity.
  - exfalso. exact (indexOf_point ip fp Hidx).
Qed.

Lemma typed_zero_point : TypedDisplay "0.".
Proof.
  exists "0". split; [reflexivity |]. split; [discriminate |]. right.
  exists "". split; reflexivity.
Qed.

Lemma round_decimal_positive M E :
  well_formed (round_decimal false M E) /\
  finite_or_overflow (round_decimal false M E).
Proof.
  split; [apply round_decimal_well_formed |].
  destruct (round_decimal_cases false M E) as [-> | [-> | (m & e & -> & _)]].
  - left; reflexivity.
  - right; reflexivity.
  - left; reflexivity.
Qed.

(** What a typed display shows and parses to. *)
Lemma typed_facts d :
  TypedDisplay d ->
  (count_points d <= 1)%nat /\ d <> "" /\
  well_formed (parseFloat d) /\ finite_or_overflow (parseFloat d).
Proof.
  intros (ip & Hip & Hne & [-> | (fp & Hfp & ->)]).
  - split; [rewrite (count_points_digits ip Hip); lia |]. split; [exact Hne |].
    rewrite <- (append_empty_r ip).
    change (ip ++ "") with (sign_string false ++ ip ++ "").
    rewrite parseFloat_plain by (try reflexivity; assumption).
    apply round_decimal_positive.
  - split.
    { rewrite !count_points_app, (count_points_digits ip Hip),
        (count_points_digits fp Hfp). cbn. lia. }
    split; [destruct ip; [congruence | discriminate] |].
    rewrite <- (append_empty_r fp).
    change (ip ++ "." ++ fp ++ "") with (sign_string false ++ ip ++ "." ++ fp ++ "").
    rewrite parseFloat_point by (try reflexivity; assumption).
    apply round_decimal_positive.
Qed.

Lemma count_points_sign s : count_points (sign_string s) = 0%nat.
Proof. destruct s; reflexivity. Qed.

Lemma count_points_suffix j : count_points (exponent_suffix j) = 0%nat.
Proof.
  unfold exponent_suffix.
  destruct (nat_string_spec (Z.abs j) (Z.abs_nonneg j)) as (Hd & _ & _).
  rewrite !count_points_app, (count_points_digits _ Hd).
  destruct (j <? 0); reflexivity.
Qed.

Lemma count_points_after_first ds :
  all_digits ds = true -> (count_points (point_after_first ds) <= 1)%nat.
Proof.
  intros Hds. destruct ds as [|c [|c2 r]]; cbn [point_after_first].
  - cbn. lia.
  - rewrite (count_points_digits _ Hds). lia.
  - change (String c ("." ++ String c2 r)) with (String c "" ++ "." ++ String c2 r).
    change (all_digits (String c (String c2 r)))
      with (is_digit c && all_digits (String c2 r)) in Hds.
    apply andb_true_iff in Hds as [Hc Hr].
    rewrite !count_points_app, (count_points_digits (String c2 r) Hr).
    cbn [count_points]. rewrite (digit_not_point c Hc). cbn. lia.
Qed.

Lemma NumberToString_points x : (count_points (NumberToString x) <= 1)%nat.
Proof.
  destruct x as [s|s| |s m e];
    [cbn; lia | destruct s; cbn; lia | cbn; lia |].
  unfold NumberToString.
  destruct (shortest (seq 1 17) m e) as [[k d] n].
  set (ds := digits_fixed k d).
  assert (Hds : all_digits ds = true) by apply all_digits_fixed.
  rewrite count_points_app, count_points_sign.
  destruct ((Z.of_nat k <=? n) && (n <=? 21)).
  - rewrite count_points_app, (count_points_digits ds Hds),
      (count_points_digits _ (all_digits_zeros _)). lia.
  - destruct ((0 <? n) && (n <=? 21)).
    + rewrite !count_points_app.
      rewrite (count_points_digits _ (all_digits_substring ds 0 (Z.to_nat n) Hds)).
      rewrite (count_points_digits _ (all_digits_substring ds (Z.to_nat n) (k - Z.to_nat n) Hds)).
      cbn. lia.
    + destruct ((-6 <? n) && (n <=? 0)).
      * rewrite !count_points_app, (count_points_digits ds Hds),
          (count_points_digits _ (all_digits_zeros _)). cbn. lia.
      * rewrite count_points_app, count_points_suffix.
        pose proof (count_points_after_first ds Hds). lia.
Qed.

Lemma parseFloat_well_formed str : well_formed (parseFloat str).
Proof.
  unfold parseFloat.
  destruct (take_sign (trim_start str)) as [neg s1].
  destruct (String.prefix "Infinity" s1); [exact I |].
  destruct (span_digits s1) as [ip r1].
  destruct (match r1 with String "." r => span_digits r | _ => (EmptyString, r1) end)
    as [fp r2].
  destruct (ip ++ fp); [exact I | apply round_decimal_well_formed].
Qed.

(** The string of a finite value reads back as a finite value. *)
Lemma result_facts d :
  ResultDisplay d ->
  (count_points d <= 1)%nat /\ d <> "" /\
  well_formed (parseFloat d) /\ isFinite (parseFloat d) = true.
Proof.
  intros (f & Hfin & Hwf & ->).
  assert (Hparse : isFinite (parseFloat (NumberToString f)) = true).
  { destruct f as [s|s| |s m e]; try discriminate; [reflexivity |].
    pose proof (parseFloat_NumberToString s m e Hwf) as Hback.
    pose proof (shortest_spec s m e (seq 1 17) Hwf (seq_from_one 17)) as Hspec.
    destruct (shortest (seq 1 17) m e) as [[k d] n].
    rewrite Hback. apply Hspec. }
  split; [apply NumberToString_points |]. split; [| split].
  - intros Hempty. rewrite Hempty in Hparse. discriminate.
  - apply parseFloat_well_formed.
  - exact Hparse.
Qed.

(** Rounding a finite result to twelve digits gives a finite value. *)
Lemma formatResult_finite_value result :
  isFinite result = true -> well_formed result ->
  isFinite (formatResult result) = true /\ well_formed (formatResult result).
Proof.
  intros Hfin Hwf. split; [| apply parseFloat_well_formed].
  destruct result as [s|s| |s m e]; try discriminate; [reflexivity |].
  pose proof (formatResult_finite s m e) as Hval.
  pose proof (precision_12_bound s m e Hwf) as Hbound.
  destruct (precision_digits 12 m e) as [n j].
  rewrite Hval. apply round_decimal_finite. apply Hbound.
Qed.

Lemma or_else_well_formed x y : well_formed x -> well_formed y -> well_formed (or_else x y).
Proof. intros Hx Hy. unfold or_else. destruct (truthy x); assumption. Qed.

Lemma committed_invariant nextOperation result :
  isFinite result = true -> well_formed result ->
  Invariant (committed nextOperation (formatResult result)).
Proof.
  intros Hfin Hwf.
  destruct (formatResult_finite_value result Hfin Hwf) as [Hf Hw].
  constructor; unfold committed; cbn [display previousValue operation waitingForOperand].
  - destruct (String.eqb nextOperation "="); split; congruence.
  - right. split; [reflexivity |]. exists (formatResult result). auto.
  - intros v Hv. destruct (String.eqb nextOperation "="); [discriminate |].
    injection Hv as <-. split; [exact Hw | left; exact Hf].
Qed.

Lemma initial_invariant : Invariant initialState.
Proof.
  constructor; cbn.
  - split; reflexivity.
  - left. apply (typed_single "0"). reflexivity.
  - discriminate.
Qed.

Lemma commit_invariant nextOperation state result :
  well_formed result ->
  Invariant (fst (commit nextOperation state result)).
Proof.
  intros Hwf. destruct (isFinite result) eqn:Hfin.
  - rewrite (commit_finite _ _ _ Hfin). apply committed_invariant; assumption.
  - rewrite (commit_not_finite _ _ _ Hfin). apply initial_invariant.
Qed.

Lemma display_facts state :
  Invariant state ->
  (count_points (display state) <= 1)%nat /\ display state <> "" /\
  well_formed (parseFloat (display state)) /\
  finite_or_overflow (parseFloat (display state)).
Proof.
  intros [_ [Htyped | [_ Hresult]] _].
  - apply typed_facts, Htyped.
  - destruct (result_facts _ Hresult) as (H1 & H2 & H3 & H4).
    repeat split; auto. left; exact H4.
Qed.

Lemma inputNumber_invariant c state :
  is_digit c = true -> Invariant state ->
  Invariant (inputNumber (String c "") state).
Proof.
  intros Hc [Hpend Hdisp Hprev]. unfold inputNumber.
  destruct (waitingForOperand state) eqn:Hwait;
    constructor; cbn [display previousValue operation waitingForOperand]; auto.
  - left. apply typed_single, Hc.
  - left. destruct Hdisp as [Htyped | [Hw _]]; [| congruence].
    destruct (String.eqb (display state) "0"); [apply typed_single, Hc |].
    apply typed_digit; assumption.
Qed.

Lemma inputDecimal_invariant state :
  Invariant state -> Invariant (inputDecimal state).
Proof.
  intros Hinv. pose proof Hinv as [Hpend Hdisp Hprev]. unfold inputDecimal.
  destruct (waitingForOperand state) eqn:Hwait.
  - constructor; cbn [display previousValue operation waitingForOperand]; auto.
    left. exact typed_zero_point.
  - destruct (indexOf (display state) "." =? -1) eqn:Hidx; [| exact Hinv].
    apply Z.eqb_eq in Hidx.
    constructor; cbn [display previousValue operation waitingForOperand]; auto.
    left. destruct Hdisp as [Htyped | [Hw _]]; [| congruence].
    apply typed_point; assumption.
Qed.

Lemma performOperation_invariant op state :
  Invariant state -> Invariant (fst (performOperation op state)).
Proof.
  intros Hinv. pose proof Hinv as [Hpend Hdisp Hprev].
  destruct (display_facts state Hinv) as (_ & _ & Hwf & Hfo).
  destruct (previousValue state) as [pv|] eqn:Hpv.
  - destruct (operation state) as [stored|] eqn:Hop.
    2:{ destruct Hpend as [_ H]. specialize (H eq_refl). discriminate. }
    rewrite (performOperation_unfold_pending op state pv stored Hpv Hop). cbv zeta.
    destruct (Hprev pv eq_refl) as [Hpvwf _].
    assert (Hcur : well_formed (or_else pv zero))
      by (apply or_else_well_formed; [exact Hpvwf | exact I]).
    destruct (String.eqb stored "+");
      [apply commit_invariant, add_well_formed; assumption |].
    destruct (String.eqb stored "-");
      [apply commit_invariant, sub_well_formed; assumption |].
    destruct (String.eqb stored "×");
      [apply commit_invariant, mul_well_formed |].
    destruct (String.eqb stored "÷"); [| exact Hinv].
    destruct (strictEq (parseFloat (display state)) zero); [exact Hinv |].
    apply commit_invariant, div_well_formed.
  - unfold performOperation. rewrite Hpv. cbn [fst].
    constructor; cbn [display previousValue operation waitingForOperand].
    + split; discriminate.
    + destruct Hdisp as [Htyped | [_ Hresult]]; [left; exact Htyped | right; auto].
    + intros v [= <-]. auto.
Qed.

Lemma reachable_invariant state : reachable state -> Invariant state.
Proof.
  induction 1 as [|state d _ IH Hd|state _ IH|state _ IH|state op _ IH Hop].
  - exact initial_invariant.
  - apply inputNumber_invariant; assumption.
  - apply inputDecimal_invariant; assumption.
  - exact initial_invariant.
  - apply performOperation_invariant; assumption.
Qed.

Lemma commit_previous nextOperation state result v :
  well_formed result ->
  previousValue (fst (commit nextOperation state result)) = Some v ->
  isFinite v = true.
Proof.
  intros Hwf. destruct (isFinite result) eqn:Hfin.
  - rewrite (commit_finite _ _ _ Hfin). unfold committed. cbn [fst previousValue].
    destruct (String.eqb nextOperation "="); [discriminate |].
    intros [= <-]. apply formatResult_finite_value; assumption.
  - rewrite (commit_not_finite _ _ _ Hfin). discriminate.
Qed.

(** With a value pending, [performOperation] leaves [previousValue] as it
    is or stores a finite value. *)
Lemma pending_branch_stores_finite nextOperation state pv v :
  Invariant state ->
  previousValue state = Some pv ->
  previousValue (fst (performOperation nextOperation state)) = Some v ->
  v = pv \/ isFinite v = true.
Proof.
  intros Hinv Hpv. pose proof Hinv as [Hpend _ Hprev].
  destruct (display_facts state Hinv) as (_ & _ & Hwf & _).
  destruct (operation state) as [stored|] eqn:Hop.
  2:{ destruct Hpend as [_ H]. specialize (H eq_refl). congruence. }
  rewrite (performOperation_unfold_pending nextOperation state pv stored Hpv Hop).
  cbv zeta.
  destruct (Hprev pv Hpv) as [Hpvwf _].
  assert (Hcur : well_formed (or_else pv zero))
    by (apply or_else_well_formed; [exact Hpvwf | exact I]).
  assert (Hsame : previousValue (fst (state, @nil Toast)) = Some v -> v = pv \/ isFinite v = true)
    by (cbn [fst]; intros H; left; congruence).
  destruct (String.eqb stored "+");
    [intros H; right; apply (commit_previous _ _ _ _ (add_well_formed _ _ Hcur Hwf) H) |].
  destruct (String.eqb stored "-");
    [intros H; right; apply (commit_previous _ _ _ _ (sub_well_formed _ _ Hcur Hwf) H) |].
  destruct (String.eqb stored "×");
    [intros H; right; apply (commit_previous _ _ _ _ (mul_well_formed _ _) H) |].
  destruct (String.eqb stored "÷"); [| exact Hsame].
  destruct (strictEq (parseFloat (display state)) zero).
  - cbn [fst]. intros H. left. congruence.
  - intros H. right. apply (commit_previous _ _ _ _ (div_well_formed _ _) H).
Qed.

Lemma iter_digit_reachable c n state :
  is_digit c = true -> reachable state ->
  reachable (Nat.iter n (inputNumber (String c "")) state).
Proof.
  intros Hc Hstate. induction n as [|n IH]; cbn [Nat.iter nat_rect].
  - exact Hstate.
  - apply reachable_digit; assumption.
Qed.

Lemma overlong_reachable : reachable overlong.
Proof.
  apply (iter_digit_reachable "0" 309); [reflexivity |].
  apply (reachable_digit initialState "1"); [exact reachable_initial | reflexivity].
Qed.

(** *** The twelve digits of a result *)

Lemma decimal_exponent_from_lower fuel m e : forall j0,
  let j := decimal_exponent_from fuel j0 m e in
  j0 - Z.of_nat fuel <= j /\
  (j0 - Z.of_nat fuel < j -> snd (scaled m e j) <= fst (scaled m e j)).
Proof.
  induction fuel as [|f IH]; intros j0; cbn [decimal_exponent_from]; [lia |].
  destruct (scaled m e j0) as [a b] eqn:Es.
  destruct (b <=? a) eqn:Et.
  - cbv zeta. rewrite Es. cbn [fst snd]. apply Z.leb_le in Et. lia.
  - cbv zeta in IH |- *. specialize (IH (j0 - 1)). lia.
Qed.

Lemma decimal_exponent_lower s m e :
  well_formed (S754_finite s m e) ->
  snd (scaled m e (decimal_exponent m e)) <= fst (scaled m e (decimal_exponent m e)).
Proof.
  intros [_ [He _]].
  destruct (decimal_exponent_from_lower 632 m e 308) as [Hge Htest].
  fold (decimal_exponent m e) in Hge, Htest.
  destruct (Z.eq_dec (decimal_exponent m e) (-324)) as [E324 | N324].
  - rewrite E324. unfold scaled. cbn [fst snd].
    change (Z.max 0 (- -324)) with 324. change (Z.max 0 (-324)) with 0.
    rewrite Z.pow_0_r, Z.mul_1_r.
    assert (H1 : 2 ^ Z.max 0 (- e) <= 2 ^ 1074) by (apply Z.pow_le_mono_r; lia).
    assert (H2 : 2 ^ 1074 <= 10 ^ 324) by (vm_compute; discriminate).
    assert (H3 : 0 < 2 ^ Z.max 0 e) by (apply pow2_pos; lia).
    assert (H4 : 0 < 10 ^ 324) by (vm_compute; reflexivity).
    assert (H5 : 1 <= Z.pos m * 2 ^ Z.max 0 e) by nia.
    apply Z.le_trans with (1 * 10 ^ 324); [lia |].
    apply Z.mul_le_mono_nonneg_r; lia.
  - apply Htest. change (Z.of_nat 632) with 632 in *. lia.
Qed.

(** The [k] leading digits of a well-formed value are at least
    [10^(k-1)]. *)
Lemma leading_digits_ge s m e k :
  well_formed (S754_finite s m e) -> 1 <= k ->
  let '(a, b) := scaled m e (decimal_exponent m e - k + 1) in
  10 ^ (k - 1) * b <= a.
Proof.
  intros Hwf Hk.
  pose proof (decimal_exponent_lower s m e Hwf) as Hlow.
  set (j := decimal_exponent m e) in *.
  unfold scaled in *. cbn [fst snd] in Hlow.
  set (N := Z.pos m * 2 ^ Z.max 0 e) in *.
  set (U := 2 ^ Z.max 0 (- e)) in *.
  set (E := j - k + 1).
  replace j with (E + (k - 1)) in Hlow by (unfold E; lia).
  assert (HU : 0 < U) by (apply pow2_pos; lia).
  pose proof (pow10_pos E) as HPE. pose proof (pow10_pos (- E)) as HQE.
  pose proof (pow10_pos (- (E + (k - 1)))) as HQj.
  pose proof (pow10_balance E (k - 1) ltac:(lia)) as Hbal.
  apply (Z.mul_le_mono_pos_r _ _ (10 ^ Z.max 0 (- (E + (k - 1))))); [exact HQj |].
  replace (10 ^ (k - 1) * (U * 10 ^ Z.max 0 E) * 10 ^ Z.max 0 (- (E + (k - 1))))
    with (U * (10 ^ Z.max 0 E * 10 ^ (k - 1) * 10 ^ Z.max 0 (- (E + (k - 1))))) by ring.
  rewrite Hbal.
  replace (U * (10 ^ Z.max 0 (E + (k - 1)) * 10 ^ Z.max 0 (- E)))
    with (U * 10 ^ Z.max 0 (E + (k - 1)) * 10 ^ Z.max 0 (- E)) by ring.
  replace (N * 10 ^ Z.max 0 (- E) * 10 ^ Z.max 0 (- (E + (k - 1))))
    with (N * 10 ^ Z.max 0 (- (E + (k - 1))) * 10 ^ Z.max 0 (- E)) by ring.
  apply Z.mul_le_mono_nonneg_r; lia.
Qed.

(** The twelve digits of a well-formed value start with a digit that is not
    zero. *)
Lemma precision_12_significant s m e :
  well_formed (S754_finite s m e) ->
  10 ^ 11 <= fst (precision_digits 12 m e).
Proof.
  intros Hwf.
  pose proof (leading_digits_ge s m e 12 Hwf ltac:(lia)) as Hlead.
  unfold precision_digits. change (Z.of_nat 12) with 12.
  destruct (scaled m e (decimal_exponent m e - 12 + 1)) as [a b] eqn:Es.
  assert (Hb : 0 < b).
  { unfold scaled in Es. injection Es as _ <-.
    apply Z.mul_pos_pos; [apply pow2_pos; lia | apply pow10_pos]. }
  change (10 ^ (12 - 1)) with (10 ^ 11) in *.
  destruct ((2 * a + b) / (2 * b) <? 10 ^ 12); cbn [fst]; [| lia].
  apply Z.div_le_lower_bound; lia.
Qed.

(** The twelve digits are the nearest ones: they miss the value by at most
    half a unit of the last digit. *)
Lemma precision_12_nearest s m e :
  well_formed (S754_finite s m e) ->
  let '(n, j) := precision_digits 12 m e in
  let '(a, b) := scaled m e (j - 11) in
  2 * Z.abs (a - n * b) <= b.
Proof.
  intros Hwf.
  pose proof (leading_digits_lt s m e 12 Hwf ltac:(lia)) as Hlead.
  unfold precision_digits.
  set (j := decimal_exponent m e) in *.
  change (Z.of_nat 12) with 12.
  replace (j - 12 + 1) with (j - 11) in * by lia.
  unfold scaled in *.
  set (N := Z.pos m * 2 ^ Z.max 0 e) in *.
  set (U := 2 ^ Z.max 0 (- e)) in *.
  set (E := j - 11) in *.
  assert (HU : 0 < U) by (apply pow2_pos; lia).
  assert (HN : 0 <= N) by (apply Z.mul_nonneg_nonneg; [lia | apply Z.pow_nonneg; lia]).
  pose proof (pow10_pos E) as HPE. pose proof (pow10_pos (- E)) as HQE.
  set (a := N * 10 ^ Z.max 0 (- E)) in *.
  set (b := U * 10 ^ Z.max 0 E) in *.
  assert (Hb : 0 < b) by (apply Z.mul_pos_pos; assumption).
  assert (Ha : 0 <= a) by (apply Z.mul_nonneg_nonneg; lia).
  cbv beta iota zeta.
  pose proof (Z.mul_div_le (2 * a + b) (2 * b) ltac:(lia)) as Hlow.
  pose proof (Z.mul_succ_div_gt (2 * a + b) (2 * b) ltac:(lia)) as Hhigh.
  set (n0 := (2 * a + b) / (2 * b)) in *.
  destruct (n0 <? 10 ^ 12) eqn:Hcarry.
  - fold E. fold a b. cbv beta iota. lia.
  - apply Z.ltb_ge in Hcarry.
    replace (j + 1 - 11) with (E + 1) by (unfold E; lia).
    pose proof (pow10_pos (E + 1)) as HPE1. pose proof (pow10_pos (- (E + 1))) as HQE1.
    set (a' := N * 10 ^ Z.max 0 (- (E + 1))).
    set (b' := U * 10 ^ Z.max 0 (E + 1)).
    assert (Hb' : 0 < b') by (apply Z.mul_pos_pos; assumption).
    assert (Hrel : a * b' = 10 * (a' * b)).
    { unfold a, b, a', b'.
      pose proof (pow10_balance E 1 ltac:(lia)) as Hbal. change (10 ^ 1) with 10 in Hbal.
      replace (N * 10 ^ Z.max 0 (- E) * (U * 10 ^ Z.max 0 (E + 1)))
        with (N * U * (10 ^ Z.max 0 (E + 1) * 10 ^ Z.max 0 (- E))) by ring.
      rewrite <- Hbal. ring. }
    change (10 ^ (12 - 1)) with 100000000000.
    change (10 ^ 12) with 1000000000000 in *.
    destruct Hlead as [_ Hlt].
    assert (Halt : a < 1000000000000 * b).
    { pose proof (Z.mul_succ_div_gt a b Hb) as Hgt.
      assert (b * Z.succ (a / b) <= b * 1000000000000)
        by (apply Z.mul_le_mono_nonneg_l; lia).
      lia. }
    assert (H1 : a' < 100000000000 * b').
    { apply (Z.mul_lt_mono_pos_r (10 * b)); [lia |].
      assert (a * b' < 1000000000000 * b * b') by (apply Z.mul_lt_mono_pos_r; lia).
      lia. }
    assert (H2 : 2 * 1000000000000 * b <= 2 * a + b).
    { assert (2 * b * 1000000000000 <= 2 * b * n0)
        by (apply Z.mul_le_mono_nonneg_l; lia).
      lia. }
    assert (H3 : 2 * 100000000000 * b' <= 2 * a' + b').
    { apply (Z.mul_le_mono_pos_r _ _ (10 * b)); [lia |].
      assert (2 * 1000000000000 * b * b' <= (2 * a + b) * b')
        by (apply Z.mul_le_mono_nonneg_r; lia).
      lia. }
    lia.
Qed.

(** ** The properties C1 to C10 *)

(** C1, counterexample.  Three reachable states with [previousValue] and
    [operation] present where [performOperation] sets neither the display nor
    [waitingForOperand]: a stored [=], a division with display 0, and a sum
    that is not finite. *)
Lemma C1_counterexample :
  let stuck := fst (pressKeys ["="; "5"] initialState) in
  let zero_divisor := fst (pressKeys ["5"; "/"; "0"] initialState) in
  let overflow := inputNumber "1" (fst (performOperation "+" overlong)) in
  (previousValue stuck = Some zero /\ operation stuck = Some "=" /\
   waitingForOperand (fst (performOperation "+" stuck)) = false) /\
  (previousValue zero_divisor = Some (parseFloat "5") /\
   operation zero_divisor = Some "÷" /\
   waitingForOperand (fst (performOperation "=" zero_divisor)) = false /\
   display (fst (performOperation "=" zero_divisor)) = "0") /\
  (previousValue overflow = Some (S754_infinity false) /\
   operation overflow = Some "+" /\
   waitingForOperand (fst (performOperation "=" overflow)) = false /\
   display (fst (performOperation "=" overflow)) = "0").
Proof.
  vm_compute. repeat split; reflexivity.
Qed.

(** C1 (corrected).  With a value pending, a stored operation among the
    four arithmetic operators, no division by a zero display value and a
    finite result, [performOperation(newOp)] applies the stored
    operation (not [newOp]) to [previousValue] and the parsed display value,
    shows the rounded result, sets [waitingForOperand], and clears
    [previousValue] and [operation] when [newOp] is [=] but stores the rounded
    result and [newOp] otherwise; it fires no toast.  The keys
    3 + 4 + 5 = end with display 12. *)
Theorem C1_pending_operation_commits nextOperation state pv op result :
  previousValue state = Some pv ->
  operation state = Some op ->
  arithmetic op pv (parseFloat (display state)) = Some result ->
  (op = "÷" -> strictEq (parseFloat (display state)) zero = false) ->
  isFinite result = true ->
  let '(state', toasts) := performOperation nextOperation state in
  toasts = [] /\
  display state' = NumberToString (formatResult result) /\
  waitingForOperand state' = true /\
  (nextOperation = "=" ->
     previousValue state' = None /\ operation state' = None) /\
  (nextOperation <> "=" ->
     previousValue state' = Some (formatResult result) /\
     operation state' = Some nextOperation) /\
  display (fst (pressKeys ["3"; "+"; "4"; "+"; "5"; "="] initialState)) = "12".
Proof.
  intros Hpv Hop Har Hdiv Hfin.
  destruct (or_else_zero_arithmetic _ _ _ _ Har Hfin) as (r' & Har' & Hsame).
  rewrite (performOperation_computes _ _ _ _ _ Hpv Hop Har' Hdiv).
  rewrite (commit_zero_sign nextOperation state r' result Hsame).
  rewrite (commit_finite nextOperation state result Hfin).
  unfold committed. cbn [display previousValue operation waitingForOperand].
  split; [reflexivity |]. split; [reflexivity |]. split; [reflexivity |].
  split; [| split].
  - intros ->. split; reflexivity.
  - intros Hne. apply String.eqb_neq in Hne. rewrite Hne. split; reflexivity.
  - vm_compute. reflexivity.
Qed.

Lemma C1_witness :
  let state := {| display := "4"; previousValue := Some (parseFloat "3");
                  operation := Some "+"; waitingForOperand := false |} in
  let '(state', toasts) := performOperation "×" state in
  toasts = [] /\
  display state' = NumberToString (formatResult (add (parseFloat "3") (parseFloat "4"))) /\
  waitingForOperand state' = true /\
  ("×" = "=" -> previousValue state' = None /\ operation state' = None) /\
  ("×" <> "=" ->
     previousValue state' =
       Some (formatResult (add (parseFloat "3") (parseFloat "4"))) /\
     operation state' = Some "×") /\
  display (fst (pressKeys ["3"; "+"; "4"; "+"; "5"; "="] initialState)) = "12".
Proof.
  cbv zeta.
  apply (C1_pending_operation_commits "×"
           {| display := "4"; previousValue := Some (parseFloat "3");
              operation := Some "+"; waitingForOperand := false |}
           (parseFloat "3") "+" (add (parseFloat "3") (parseFloat "4"))).
  - reflexivity.
  - reflexivity.
  - reflexivity.
  - intros H. discriminate H.
  - vm_compute. reflexivity.
Defined.

(** C2.  With a division pending and a display that parses to zero,
    [performOperation] fires the one toast "Cannot divide by zero" and leaves
    the state as it is, whatever operator was pressed and whatever the
    pending value. *)
Theorem C2_divide_by_zero_keeps_state nextOperation state pv :
  previousValue state = Some pv ->
  operation state = Some "÷" ->
  strictEq (parseFloat (display state)) zero = true ->
  performOperation nextOperation state = (state, [divideByZeroToast]) /\
  description divideByZeroToast = "Cannot divide by zero".
Proof.
  intros Hpv Hop Hzero. split; [| reflexivity].
  exact (performOperation_divide_by_zero nextOperation state pv Hpv Hop Hzero).
Qed.

Lemma C2_witness :
  let state := {| display := "0"; previousValue := Some zero;
                  operation := Some "÷"; waitingForOperand := false |} in
  performOperation "=" state = (state, [divideByZeroToast]) /\
  description divideByZeroToast = "Cannot divide by zero".
Proof.
  cbv zeta.
  apply (C2_divide_by_zero_keeps_state "="
           {| display := "0"; previousValue := Some zero;
              operation := Some "÷"; waitingForOperand := false |} zero).
  - reflexivity.
  - reflexivity.
  - vm_compute. reflexivity.
Defined.

(** C3.  With an operation pending, when the result the stored operation
    computes is not finite, [performOperation] fires the toast
    "Invalid calculation" and resets the state to the initial one: display 0,
    nothing pending, not waiting for an operand. *)
Theorem C3_non_finite_result_resets nextOperation state pv op result :
  previousValue state = Some pv ->
  operation state = Some op ->
  arithmetic op (or_else pv zero) (parseFloat (display state)) = Some result ->
  (op = "÷" -> strictEq (parseFloat (display state)) zero = false) ->
  isFinite result = false ->
  performOperation nextOperation state = (initialState, [invalidCalculationToast]) /\
  description invalidCalculationToast = "Invalid calculation" /\
  display initialState = "0" /\
  previousValue initialState = None /\
  operation initialState = None /\
  waitingForOperand initialState = false.
Proof.
  intros Hpv Hop Har Hdiv Hfin. split; [| repeat split].
  rewrite (performOperation_computes _ _ _ _ _ Hpv Hop Har Hdiv).
  exact (commit_not_finite nextOperation state result Hfin).
Qed.

Lemma C3_witness :
  let state := {| display := "10"; previousValue := Some (parseFloat "1e308");
                  operation := Some "×"; waitingForOperand := false |} in
  performOperation "=" state = (initialState, [invalidCalculationToast]) /\
  description invalidCalculationToast = "Invalid calculation" /\
  display initialState = "0" /\
  previousValue initialState = None /\
  operation initialState = None /\
  waitingForOperand initialState = false.
Proof.
  cbv zeta.
  apply (C3_non_finite_result_resets "="
           {| display := "10"; previousValue := Some (parseFloat "1e308");
              operation := Some "×"; waitingForOperand := false |}
           (parseFloat "1e308") "×" (S754_infinity false)).
  - reflexivity.
  - reflexivity.
  - vm_compute. reflexivity.
  - intros H. discriminate H.
  - reflexivity.
Defined.

(** C4.  With no value pending, [performOperation(op)] stores the parsed
    display value and [op], sets [waitingForOperand], leaves the display and
    fires no toast, for every [op]. *)
Theorem C4_first_operator_arms op state :
  previousValue state = None ->
  performOperation op state =
    ({| display := display state;
        previousValue := Some (parseFloat (display state));
        operation := Some op;
        waitingForOperand := true |}, []).
Proof.
  intros Hpv. unfold performOperation. rewrite Hpv. reflexivity.
Qed.

Lemma C4_witness :
  performOperation "=" initialState =
    ({| display := display initialState;
        previousValue := Some (parseFloat (display initialState));
        operation := Some "=";
        waitingForOperand := true |}, []).
Proof.
  apply (C4_first_operator_arms "=" initialState). reflexivity.
Defined.

(** C5.  [clear()] gives the initial state from every state, and the calls
    and keys bound to it fire no toast. *)
Theorem C5_clear_resets state :
  clear state = initialState /\
  clear state =
    {| display := "0"; previousValue := None; operation := None;
       waitingForOperand := false |} /\
  dispatch Clear state = (initialState, []) /\
  handleKeyPress "Escape" state = (initialState, []).
Proof.
  repeat split.
Qed.

(** C6, counterexample.  After the key 1 and 309 times the key 0 the display
    has 310 digits and parses to the positive infinity. *)
Lemma C6_counterexample :
  reachable overlong /\
  String.length (display overlong) = 310%nat /\
  parseFloat (display overlong) = S754_infinity false /\
  isFinite (parseFloat (display overlong)) = false.
Proof.
  split; [exact overlong_reachable |]. vm_compute. repeat split; reflexivity.
Qed.

(** C6 (corrected).  In every reachable state [operation] is present
    exactly when [previousValue] is, the display holds at most one decimal
    point, and the display is not empty and parses to a finite number or, for
    typed digits past the largest finite value, to the positive infinity;
    it never parses to NaN. *)
Theorem C6_reachable_invariants state :
  reachable state ->
  (operation state <> None <-> previousValue state <> None) /\
  (count_points (display state) <= 1)%nat /\
  display state <> "" /\
  (isFinite (parseFloat (display state)) = true \/
   parseFloat (display state) = S754_infinity false).
Proof.
  intros Hreach. pose proof (reachable_invariant state Hreach) as Hinv.
  destruct (display_facts state Hinv) as (Hpoints & Hne & _ & Hparse).
  destruct Hinv as [[Hpo Hop] _ _].
  split; [| auto].
  destruct (operation state) as [op|], (previousValue state) as [pv|].
  - split; intros _; discriminate.
  - specialize (Hpo eq_refl). discriminate.
  - specialize (Hop eq_refl). discriminate.
  - split; intros H; exfalso; apply H; reflexivity.
Qed.

Lemma C6_witness :
  let state :=
    fst (performOperation "+"
           (inputNumber "5" (inputDecimal (inputNumber "1" initialState)))) in
  (operation state <> None <-> previousValue state <> None) /\
  (count_points (display state) <= 1)%nat /\
  display state <> "" /\
  (isFinite (parseFloat (display state)) = true \/
   parseFloat (display state) = S754_infinity false).
Proof.
  cbv zeta.
  apply (C6_reachable_invariants
           (fst (performOperation "+"
                   (inputNumber "5" (inputDecimal (inputNumber "1" initialState)))))).
  apply (reachable_operation _ "+"); [| reflexivity].
  apply (reachable_digit _ "5"); [| reflexivity].
  apply reachable_decimal.
  apply (reachable_digit _ "1"); [| reflexivity].
  exact reachable_initial.
Defined.

(** C7.  A committed result is shown and stored as
    [parseFloat(result.toPrecision(12))].  For a result [m * 2^e] that is the
    number value of [n * 10^(j-11)], where [n] has twelve digits, the first
    not zero, and [n * 10^(j-11)] misses [m * 2^e] by at most half a unit of
    its last digit.  The keys 0.1 + 0.2 = end with display 0.3, where the
    sum itself prints as 0.30000000000000004. *)
Theorem C7_result_rounded_to_twelve_digits :
  (forall nextOperation state pv op result,
     previousValue state = Some pv ->
     operation state = Some op ->
     arithmetic op (or_else pv zero) (parseFloat (display state)) = Some result ->
     (op = "÷" -> strictEq (parseFloat (display state)) zero = false) ->
     isFinite result = true ->
     performOperation nextOperation state =
       (committed nextOperation (parseFloat (toPrecision result 12)), [])) /\
  (forall s m e,
     well_formed (S754_finite s m e) ->
     let '(n, j) := precision_digits 12 m e in
     let '(a, b) := scaled m e (j - 11) in
     parseFloat (toPrecision (S754_finite s m e) 12) = round_decimal s n (j - 11) /\
     10 ^ 11 <= n < 10 ^ 12 /\
     2 * Z.abs (a - n * b) <= b) /\
  pressKeys ["0"; "."; "1"; "+"; "0"; "."; "2"; "="] initialState =
    ({| display := "0.3"; previousValue := None; operation := None;
        waitingForOperand := true |}, []) /\
  NumberToString (add (parseFloat "0.1") (parseFloat "0.2")) = "0.30000000000000004" /\
  toPrecision (add (parseFloat "0.1") (parseFloat "0.2")) 12 = "0.300000000000".
Proof.
  split; [| split; [| split; [| split]]].
  - intros nextOperation state pv op result Hpv Hop Har Hdiv Hfin.
    rewrite (performOperation_computes _ _ _ _ _ Hpv Hop Har Hdiv).
    exact (commit_finite nextOperation state result Hfin).
  - intros s m e Hwf.
    pose proof (formatResult_finite s m e) as Hval.
    pose proof (precision_digits_range 12 m e ltac:(lia)) as Hrange.
    pose proof (precision_12_nearest s m e Hwf) as Hnear.
    pose proof (precision_12_significant s m e Hwf) as Hlead.
    destruct (precision_digits 12 m e) as [n j]. cbn [fst] in Hlead.
    destruct (scaled m e (j - 11)) as [a b].
    split; [exact Hval |]. split; [| exact Hnear].
    change (Z.of_nat 12) with 12 in Hrange. lia.
  - vm_compute. reflexivity.
  - vm_compute. reflexivity.
  - vm_compute. reflexivity.
Qed.

Lemma C7_witness :
  let state := {| display := "0.2"; previousValue := Some (parseFloat "0.1");
                  operation := Some "+"; waitingForOperand := false |} in
  performOperation "=" state =
    (committed "=" (parseFloat
       (toPrecision (add (parseFloat "0.1") (parseFloat "0.2")) 12)), []) /\
  well_formed (add (parseFloat "0.1") (parseFloat "0.2")) /\
  parseFloat (toPrecision (add (parseFloat "0.1") (parseFloat "0.2")) 12) =
    round_decimal false 300000000000 (-12).
Proof.
  cbv zeta.
  assert (Hwf : well_formed (S754_finite false 5404319552844596 (-54)))
    by (split; [vm_compute; reflexivity | lia]).
  split; [| split].
  - apply (proj1 C7_result_rounded_to_twelve_digits "="
             {| display := "0.2"; previousValue := Some (parseFloat "0.1");
                operation := Some "+"; waitingForOperand := false |}
             (parseFloat "0.1") "+" (add (parseFloat "0.1") (parseFloat "0.2"))).
    + reflexivity.
    + reflexivity.
    + vm_compute. reflexivity.
    + intros H. discriminate H.
    + vm_compute. reflexivity.
  - exact Hwf.
  - pose proof (proj1 (proj2 C7_result_rounded_to_twelve_digits)
                  false 5404319552844596%positive (-54) Hwf) as Hround.
    vm_compute in Hround. vm_compute. exact (proj1 Hround).
Defined.

(** C8, counterexample.  After the keys 5 ÷ 0 = the display is 0, not 5. *)
Lemma C8_counterexample :
  display (fst (pressKeys ["5"; "/"; "0"; "="] initialState)) = "0" /\
  display (fst (pressKeys ["5"; "/"; "0"; "="] initialState)) <> "5".
Proof.
  split; [vm_compute; reflexivity | vm_compute; discriminate].
Qed.

(** C8 (corrected).  After the keys 5 ÷ 0 the display is 0, the divisor just
    typed, with 5 and ÷ pending.  Pressing = there (or any other operator)
    fires the one toast "Cannot divide by zero" and changes no field, so the
    display stays 0.  The keys ÷ 2 = that follow end with display 2.5; their
    ÷ fires the toast once more, the display being 0 still. *)
Theorem C8_divide_by_zero_then_retry :
  let before := fst (pressKeys ["5"; "/"; "0"] initialState) in
  before = {| display := "0";
              previousValue := Some (parseFloat "5");
              operation := Some "÷";
              waitingForOperand := false |} /\
  (forall nextOperation,
     performOperation nextOperation before = (before, [divideByZeroToast])) /\
  pressKeys ["5"; "/"; "0"; "="] initialState = (before, [divideByZeroToast]) /\
  pressKeys ["/"; "2"; "="] before =
    ({| display := "2.5"; previousValue := None; operation := None;
        waitingForOperand := true |}, [divideByZeroToast]).
Proof.
  cbv zeta. split; [vm_compute; reflexivity |]. split; [| split].
  - intros nextOperation.
    apply (performOperation_divide_by_zero nextOperation _ (parseFloat "5"));
      vm_compute; reflexivity.
  - vm_compute. reflexivity.
  - vm_compute. reflexivity.
Qed.

(** C9.  Pressing = with nothing pending arms the state with that [=] and
    the parsed display value.  From a state armed so, every later
    [performOperation] leaves the state as it is and fires no toast, and
    every run of events without a clear keeps [previousValue] and the stored
    [=] and fires no toast; clear resets the state. *)
Theorem C9_equals_first_is_stuck :
  (forall state,
     previousValue state = None ->
     performOperation "=" state =
       ({| display := display state;
           previousValue := Some (parseFloat (display state));
           operation := Some "=";
           waitingForOperand := true |}, [])) /\
  (forall nextOperation state pv,
     previousValue state = Some pv ->
     operation state = Some "=" ->
     performOperation nextOperation state = (state, [])) /\
  (forall evs state pv,
     previousValue state = Some pv ->
     operation state = Some "=" ->
     existsb isClear evs = false ->
     previousValue (fst (run evs state)) = Some pv /\
     operation (fst (run evs state)) = Some "=" /\
     snd (run evs state) = []) /\
  (forall state, clear state = initialState).
Proof.
  split; [| split; [| split]].
  - intros state Hpv. unfold performOperation. rewrite Hpv. reflexivity.
  - exact performOperation_stored_equals.
  - exact stored_equals_stays.
  - reflexivity.
Qed.

Lemma C9_witness :
  let armed := fst (performOperation "=" initialState) in
  performOperation "=" initialState =
    ({| display := "0"; previousValue := Some (parseFloat "0");
        operation := Some "="; waitingForOperand := true |}, []) /\
  performOperation "+" armed = (armed, []) /\
  (let evs := [InputNumber "5"; PerformOperation "+"; InputNumber "3";
               PerformOperation "="] in
   previousValue (fst (run evs armed)) = Some (parseFloat "0") /\
   operation (fst (run evs armed)) = Some "=" /\
   snd (run evs armed) = []).
Proof.
  cbv zeta. split; [| split].
  - apply (proj1 C9_equals_first_is_stuck initialState). reflexivity.
  - apply (proj1 (proj2 C9_equals_first_is_stuck) "+"
             (fst (performOperation "=" initialState)) (parseFloat "0"));
      reflexivity.
  - apply (proj1 (proj2 (proj2 C9_equals_first_is_stuck))
             [InputNumber "5"; PerformOperation "+"; InputNumber "3";
              PerformOperation "="]
             (fst (performOperation "=" initialState)) (parseFloat "0"));
      reflexivity.
Defined.

(** C10, counterexample.  Pressing + on the display of 310 digits stores the
    positive infinity as [previousValue]. *)
Lemma C10_counterexample :
  reachable (fst (performOperation "+" overlong)) /\
  previousValue (fst (performOperation "+" overlong)) = Some (S754_infinity false) /\
  isFinite (S754_infinity false) = false.
Proof.
  split; [| vm_compute; split; reflexivity].
  apply (reachable_operation overlong "+"); [exact overlong_reachable | reflexivity].
Qed.

(** C10 (corrected).  In every reachable state [previousValue], when
    present, is a finite number or the positive infinity, never NaN and never
    the negative infinity.  With no value pending, [performOperation] stores
    the parse of the display; with a value pending, it leaves [previousValue]
    as it is or stores the rounded result, which is finite. *)
Theorem C10_previousValue_finite_or_overflow state :
  reachable state ->
  (forall v, previousValue state = Some v ->
     isFinite v = true \/ v = S754_infinity false) /\
  (forall nextOperation,
     previousValue state = None ->
     previousValue (fst (performOperation nextOperation state)) =
       Some (parseFloat (display state))) /\
  (forall nextOperation pv v,
     previousValue state = Some pv ->
     previousValue (fst (performOperation nextOperation state)) = Some v ->
     v = pv \/ isFinite v = true).
Proof.
  intros Hreach. pose proof (reachable_invariant state Hreach) as Hinv.
  split; [| split].
  - intros v Hv. destruct Hinv as [_ _ Hprev]. apply (Hprev v Hv).
  - intros nextOperation Hpv. unfold performOperation. rewrite Hpv. reflexivity.
  - intros nextOperation pv v. apply pending_branch_stores_finite, Hinv.
Qed.

Lemma C10_witness :
  let state := fst (performOperation "+" (inputNumber "7" initialState)) in
  (forall v, previousValue state = Some v ->
     isFinite v = true \/ v = S754_infinity false) /\
  (forall nextOperation,
     previousValue state = None ->
     previousValue (fst (performOperation nextOperation state)) =
       Some (parseFloat (display state))) /\
  (forall nextOperation pv v,
     previousValue state = Some pv ->
     previousValue (fst (performOperation nextOperation state)) = Some v ->
     v = pv \/ isFinite v = true).
Proof.
  cbv zeta.
  apply (C10_previousValue_finite_or_overflow
           (fst (performOperation "+" (inputNumber "7" initialState)))).
  apply (reachable_operation _ "+"); [| reflexivity].
  apply (reachable_digit _ "7"); [| reflexivity].
  exact reachable_initial.
Defined.

(** * Further properties of the calculator *)

(** ** Typing an operand *)

Lemma inputNumber_fresh c state :
  waitingForOperand state = true \/ display state = "0" ->
  display (inputNumber (String c "") state) = String c "" /\
  waitingForOperand (inputNumber (String c "") state) = false.
Proof.
  unfold inputNumber. intros [Hw | Hd].
  - rewrite Hw. split; reflexivity.
  - destruct (waitingForOperand state) eqn:Hw; [split; reflexivity |].
    rewrite Hd. split; reflexivity.
Qed.

Lemma typeDigits_keeps_pending ds : forall state,
  previousValue (typeDigits ds state) = previousValue state /\
  operation (typeDigits ds state) = operation state.
Proof.
  induction ds as [|c r IH]; intros state; [split; reflexivity |].
  cbn [typeDigits]. destruct (IH (inputNumber (String c "") state)) as [-> ->].
  apply inputNumber_keeps_pending.
Qed.

Lemma typeDigits_appends ds : forall state,
  waitingForOperand state = false ->
  display state <> "0" -> display state <> "" ->
  display (typeDigits ds state) = display state ++ ds /\
  waitingForOperand (typeDigits ds state) = false.
Proof.
  induction ds as [|c r IH]; intros state Hw H0 He.
  - cbn [typeDigits]. rewrite append_empty_r. auto.
  - cbn [typeDigits].
    assert (Hstep : display (inputNumber (String c "") state) =
                      display state ++ String c "" /\
                    waitingForOperand (inputNumber (String c "") state) = false).
    { unfold inputNumber. rewrite Hw.
      destruct (String.eqb_spec (display state) "0") as [E | _]; [contradiction |].
      cbn [display waitingForOperand]. auto. }
    destruct Hstep as [Hd Hw1].
    destruct (IH (inputNumber (String c "") state)) as [IHd IHw].
    + exact Hw1.
    + rewrite Hd. destruct (display state) as [|x [|y d']]; [contradiction | |];
        cbn; discriminate.
    + rewrite Hd. destruct (display state); [contradiction | cbn; discriminate].
    + rewrite IHd, Hd, append_assoc. auto.
Qed.

Lemma strip_zeros_facts ds :
  all_digits ds = true ->
  all_digits (strip_zeros ds) = true /\
  digits_value 0 (strip_zeros ds) = digits_value 0 ds.
Proof.
  induction ds as [|c r IH]; intros Hall; [auto |].
  cbn [strip_zeros]. destruct (Ascii.eqb_spec c "0") as [-> | _]; [| auto].
  cbn [all_digits] in Hall. apply andb_true_iff in Hall as [_ Hr].
  destruct (IH Hr) as [Ha Hv]. split; [exact Ha |].
  rewrite Hv. reflexivity.
Qed.

Lemma typeDigits_fresh ds : forall state,
  ds <> "" ->
  waitingForOperand state = true \/ display state = "0" ->
  display (typeDigits ds state) = typed_numeral ds /\
  waitingForOperand (typeDigits ds state) = false.
Proof.
  induction ds as [|c r IH]; intros state Hne Hfresh; [contradiction |].
  cbn [typeDigits]. destruct (inputNumber_fresh c state Hfresh) as [Hd Hw].
  unfold typed_numeral. cbn [strip_zeros].
  destruct (Ascii.eqb_spec c "0") as [-> | Hc].
  - destruct r as [|c' r'].
    + cbn [typeDigits strip_zeros]. rewrite Hd. auto.
    + apply IH; [discriminate | right; exact Hd].
  - destruct (typeDigits_appends r (inputNumber (String c "") state)) as [Ha Hwa].
    + exact Hw.
    + rewrite Hd. congruence.
    + rewrite Hd. discriminate.
    + rewrite Ha, Hd. cbn. auto.
Qed.

Lemma typed_numeral_facts ds :
  all_digits ds = true ->
  all_digits (typed_numeral ds) = true /\
  digits_value 0 (typed_numeral ds) = digits_value 0 ds /\
  typed_numeral ds <> "".
Proof.
  intros Hall. destruct (strip_zeros_facts ds Hall) as [Ha Hv].
  unfold typed_numeral.
  destruct (String.eqb_spec (strip_zeros ds) "") as [E | E].
  - rewrite E in Hv. cbn in Hv. rewrite <- Hv. repeat split. discriminate.
  - auto.
Qed.

Lemma parseFloat_digits ds :
  all_digits ds = true -> ds <> "" ->
  parseFloat ds = round_decimal false (digits_value 0 ds) 0.
Proof.
  intros Hall Hne.
  pose proof (parseFloat_plain false ds "" Hall Hne eq_refl eq_refl) as H.
  cbn [sign_string] in H. rewrite append_empty_r in H.
  change ("" ++ ds) with ds in H. exact H.
Qed.



(** X2.  Digit keys typed after a display that is being typed and is not
    "0" are appended to it in order, whatever their number: the display
    grows by one character per key and is never cut. *)
Theorem X2_digits_append_without_limit ds state :
  waitingForOperand state = false ->
  display state <> "0" -> display state <> "" ->
  display (typeDigits ds state) = display state ++ ds /\
  String.length (display (typeDigits ds state)) =
    (String.length (display state) + String.length ds)%nat.
Proof.
  intros Hw H0 He.
  destruct (typeDigits_appends ds state Hw H0 He) as [Hd _].
  split; [exact Hd |]. rewrite Hd. apply length_append.
Qed.

Lemma X2_witness :
  display (typeDigits "050" (inputNumber "4" initialState)) = "4050".
Proof.
  exact (proj1 (X2_digits_append_without_limit "050" (inputNumber "4" initialState)
           eq_refl ltac:(discriminate) ltac:(discriminate))).
Defined.

(** ** The decimal point *)

Lemma indexOf_none_points s : indexOf s "." = -1 -> count_points s = 0%nat.
Proof.
  induction s as [|c s IH]; cbn; [reflexivity |].
  destruct (Ascii.eqb c "."); [discriminate |].
  destruct (indexOf s "." =? -1) eqn:E.
  - intros _. apply Z.eqb_eq in E. rewrite (IH E). reflexivity.
  - pose proof (indexOf_ge s "."). apply Z.eqb_neq in E. lia.
Qed.

Lemma indexOf_snoc_point s : indexOf (s ++ ".") "." <> -1.
Proof. exact (indexOf_point s ""). Qed.

(** X3.  [inputDecimal] is idempotent: from every state a second decimal
    point changes nothing.  After it the display holds a point, and it holds
    no more points than before unless it had none. *)
Theorem X3_decimal_point_at_most_once state :
  inputDecimal (inputDecimal state) = inputDecimal state /\
  indexOf (display (inputDecimal state)) "." <> -1 /\
  (count_points (display (inputDecimal state)) <=
     Nat.max 1 (count_points (display state)))%nat.
Proof.
  assert (H : waitingForOperand (inputDecimal state) = false /\
              indexOf (display (inputDecimal state)) "." <> -1 /\
              (count_points (display (inputDecimal state)) <=
                 Nat.max 1 (count_points (display state)))%nat).
  { unfold inputDecimal. destruct (waitingForOperand state) eqn:Hw.
    - cbn [display waitingForOperand]. split; [reflexivity |].
      split; [vm_compute; discriminate |].
      change (count_points "0.") with 1%nat. lia.
    - destruct (indexOf (display state) "." =? -1) eqn:Hidx.
      + apply Z.eqb_eq in Hidx. cbn [display waitingForOperand].
        split; [reflexivity |]. split; [apply indexOf_snoc_point |].
        rewrite count_points_app, (indexOf_none_points _ Hidx).
        change (count_points ".") with 1%nat. lia.
      + apply Z.eqb_neq in Hidx. split; [exact Hw |]. split; [exact Hidx | lia]. }
  destruct H as (Hw & Hidx & Hcount). split; [| auto].
  unfold inputDecimal at 1. rewrite Hw.
  destruct (Z.eqb_spec (indexOf (display (inputDecimal state)) ".") (-1));
    [contradiction | reflexivity].
Qed.

(** ** The toasts *)

Lemma arithmetic_cases op a b :
  (op = "+" /\ arithmetic op a b = Some (add a b)) \/
  (op = "-" /\ arithmetic op a b = Some (sub a b)) \/
  (op = "×" /\ arithmetic op a b = Some (mul a b)) \/
  (op = "÷" /\ arithmetic op a b = Some (div a b)) \/
  (arithmetic op a b = None /\ op <> "+" /\ op <> "-" /\ op <> "×" /\ op <> "÷").
Proof.
  unfold arithmetic.
  destruct (String.eqb_spec op "+"); [auto |].
  destruct (String.eqb_spec op "-"); [auto |].
  destruct (String.eqb_spec op "×"); [auto 6 |].
  destruct (String.eqb_spec op "÷"); [auto 6 |].
  do 4 right. auto.
Qed.

(** What [performOperation] does, case by case. *)
Lemma performOperation_cases nextOperation state :
  (previousValue state = None /\
   performOperation nextOperation state =
     ({| display := display state;
         previousValue := Some (parseFloat (display state));
         operation := Some nextOperation;
         waitingForOperand := true |}, [])) \/
  (exists pv, previousValue state = Some pv /\
     ((performOperation nextOperation state = (state, []) /\
       forall op, operation state = Some op ->
         arithmetic op (or_else pv zero) (parseFloat (display state)) = None) \/
      (operation state = Some "÷" /\
       strictEq (parseFloat (display state)) zero = true /\
       performOperation nextOperation state = (state, [divideByZeroToast])) \/
      (exists op result, operation state = Some op /\
         arithmetic op (or_else pv zero) (parseFloat (display state)) = Some result /\
         (op = "÷" -> strictEq (parseFloat (display state)) zero = false) /\
         performOperation nextOperation state = commit nextOperation state result))).
Proof.
  destruct (previousValue state) as [pv|] eqn:Hpv.
  2:{ left. split; [reflexivity |]. unfold performOperation. rewrite Hpv. reflexivity. }
  right. exists pv. split; [reflexivity |].
  destruct (operation state) as [op|] eqn:Hop.
  2:{ left. split; [| discriminate]. unfold performOperation. rewrite Hpv, Hop. reflexivity. }
  destruct (arithmetic_cases op (or_else pv zero) (parseFloat (display state)))
    as [[-> Ha] | [[-> Ha] | [[-> Ha] | [[-> Ha] | (Ha & N1 & N2 & N3 & N4)]]]].
  - right; right. exists "+", (add (or_else pv zero) (parseFloat (display state))).
    repeat split; auto; [discriminate |].
    apply performOperation_computes with (pv := pv) (op := "+"); auto. discriminate.
  - right; right. exists "-", (sub (or_else pv zero) (parseFloat (display state))).
    repeat split; auto; [discriminate |].
    apply performOperation_computes with (pv := pv) (op := "-"); auto. discriminate.
  - right; right. exists "×", (mul (or_else pv zero) (parseFloat (display state))).
    repeat split; auto; [discriminate |].
    apply performOperation_computes with (pv := pv) (op := "×"); auto. discriminate.
  - destruct (strictEq (parseFloat (display state)) zero) eqn:Hz.
    + right; left. repeat split; auto.
      apply performOperation_divide_by_zero with (pv := pv); auto.
    + right; right. exists "÷", (div (or_else pv zero) (parseFloat (display state))).
      repeat split; auto.
      apply performOperation_computes with (pv := pv) (op := "÷"); auto.
  - left. split; [| intros op' [= <-]; exact Ha].
    rewrite (performOperation_unfold_pending _ _ _ _ Hpv Hop). cbv zeta.
    destruct (String.eqb_spec op "+"); [contradiction |].
    destruct (String.eqb_spec op "-"); [contradiction |].
    destruct (String.eqb_spec op "×"); [contradiction |].
    destruct (String.eqb_spec op "÷"); [contradiction |]. reflexivity.
Qed.

(** X4.  Every toast is accounted for.  An event fires no toast, or it is
    a [performOperation] that fires exactly one: the divide-by-zero toast,
    with a division pending, a display that reads as zero and the state left
    as it was; or the invalid-calculation toast, with a pending operation
    whose result is not finite and the state reset to the initial one.
    Digits, the decimal point and clear never fire a toast. *)
Theorem X4_every_toast_is_accounted_for ev state :
  let '(state', toasts) := dispatch ev state in
  toasts = [] \/
  (toasts = [divideByZeroToast] /\ state' = state /\
   operation state = Some "÷" /\
   strictEq (parseFloat (display state)) zero = true /\
   exists nextOperation, ev = PerformOperation nextOperation) \/
  (toasts = [invalidCalculationToast] /\ state' = initialState /\
   exists nextOperation pv op result,
     ev = PerformOperation nextOperation /\
     previousValue state = Some pv /\ operation state = Some op /\
     arithmetic op (or_else pv zero) (parseFloat (display state)) = Some result /\
     isFinite result = false).
Proof.
  destruct ev as [num| | |nextOperation]; cbn [dispatch]; try (left; reflexivity).
  destruct (performOperation_cases nextOperation state)
    as [[_ ->] | (pv & Hpv & [[-> _] | [(Hop & Hz & ->) | (op & r & Hop & Ha & _ & ->)]])].
  - left; reflexivity.
  - left; reflexivity.
  - right; left. repeat split; eauto.
  - destruct (isFinite r) eqn:Hfin.
    + rewrite (commit_finite _ _ _ Hfin). left; reflexivity.
    + rewrite (commit_not_finite _ _ _ Hfin). right; right.
      repeat split. exists nextOperation, pv, op, r. auto.
Qed.

(** ** The keyboard *)


Lemma letter_not_digit c : is_letter c = true -> is_digit c = false.
Proof. ascii_cases c; intros H; try reflexivity; vm_compute in H; discriminate. Qed.



Lemma single_digit_key key :
  has_digit key = true -> (String.length key =? 1)%nat = true ->
  exists d, key = String d "" /\ is_digit d = true.
Proof.
  destruct key as [|d [|c r]]; cbn; try discriminate.
  rewrite orb_false_r. eauto.
Qed.

Lemma handleKeyPress_reachable key state :
  calculatorKey key = true -> reachable state ->
  reachable (fst (handleKeyPress key state)).
Proof.
  intros Hk Hr. unfold handleKeyPress, calculatorKey in *.
  destruct (has_digit key) eqn:Hd.
  - cbn [negb orb] in Hk. destruct (single_digit_key key Hd Hk) as (d & -> & Hdig).
    cbn [fst]. apply reachable_digit; assumption.
  - destruct (String.eqb key "."); [apply reachable_decimal, Hr |].
    destruct (String.eqb_spec key "+") as [-> |];
      [apply reachable_operation; [exact Hr | reflexivity] |].
    destruct (String.eqb_spec key "-") as [-> |];
      [apply reachable_operation; [exact Hr | reflexivity] |].
    cbn [orb].
    destruct (String.eqb key "*");
      [apply reachable_operation; [exact Hr | reflexivity] |].
    destruct (String.eqb key "/");
      [apply reachable_operation; [exact Hr | reflexivity] |].
    destruct (String.eqb key "=" || String.eqb key "Enter");
      [apply reachable_operation; [exact Hr | reflexivity] |].
    destruct (String.eqb key "Escape" || String.eqb key "c" || String.eqb key "C");
      [apply reachable_clear, Hr | exact Hr].
Qed.

Lemma pressKeys_reachable keys : forall state,
  forallb calculatorKey keys = true -> reachable state ->
  reachable (fst (pressKeys keys state)).
Proof.
  induction keys as [|key rest IH]; intros state Hk Hr; [exact Hr |].
  cbn [forallb] in Hk. apply andb_true_iff in Hk as [Hkey Hrest].
  cbn [pressKeys].
  pose proof (handleKeyPress_reachable key state Hkey Hr) as H1.
  destruct (handleKeyPress key state) as [s1 t1]. cbn [fst] in H1.
  specialize (IH s1 Hrest H1).
  destruct (pressKeys rest s1) as [s2 t2]. exact IH.
Qed.

(** X6.  Keys whose name holds no digit, and the ten digit keys, keep the
    calculator within the states its buttons can reach: after any sequence
    of such keys the display does not read as NaN and no NaN is pending. *)
Theorem X6_calculator_keys_keep_the_invariants keys state :
  forallb calculatorKey keys = true -> reachable state ->
  let state' := fst (pressKeys keys state) in
  reachable state' /\
  isNaN (parseFloat (display state')) = false /\
  (forall v, previousValue state' = Some v -> isNaN v = false).
Proof.
  intros Hk Hr state'.
  pose proof (pressKeys_reachable keys state Hk Hr) as Hr'. fold state' in Hr'.
  pose proof (reachable_invariant _ Hr') as Hinv.
  split; [exact Hr' |].
  destruct (display_facts _ Hinv) as (_ & _ & _ & Hfo).
  split.
  - destruct Hfo as [Hfin | ->]; [| reflexivity].
    destruct (parseFloat (display state')); try reflexivity; discriminate.
  - intros v Hv. destruct (inv_previous _ Hinv v Hv) as [_ [Hfin | ->]]; [| reflexivity].
    destruct v; try reflexivity; discriminate.
Qed.

Lemma X6_witness :
  reachable (fst (pressKeys ["7"; "*"; "Shift"; "8"; "Enter"] initialState)).
Proof.
  exact (proj1 (X6_calculator_keys_keep_the_invariants
                  ["7"; "*"; "Shift"; "8"; "Enter"] initialState
                  eq_refl reachable_initial)).
Defined.

(** ** The line above the display *)

Lemma commit_operation nextOperation state result :
  operation (fst (commit nextOperation state result)) = None \/
  operation (fst (commit nextOperation state result)) = Some nextOperation.
Proof.
  unfold commit. destruct (isFinite result); cbn [negb fst operation clear].
  - destruct (String.eqb nextOperation "="); auto.
  - auto.
Qed.

Lemma performOperation_operation nextOperation state :
  operation (fst (performOperation nextOperation state)) = None \/
  operation (fst (performOperation nextOperation state)) = Some nextOperation \/
  operation (fst (performOperation nextOperation state)) = operation state.
Proof.
  destruct (performOperation_cases nextOperation state)
    as [[_ ->] | (pv & Hpv & [[-> _] | [(Hop & Hz & ->) | (op & r & Hop & Ha & _ & ->)]])];
    cbn [fst operation]; auto.
  destruct (commit_operation nextOperation state r); auto.
Qed.

Lemma reachable_operator state :
  reachable state ->
  forall op, operation state = Some op -> isOperator op = true.
Proof.
  induction 1 as [|state d _ IH Hd|state _ IH|state _ IH|state next _ IH Hnext];
    intros op Hop.
  - discriminate.
  - rewrite (proj2 (inputNumber_keeps_pending _ _)) in Hop. auto.
  - rewrite (proj2 (inputDecimal_keeps_pending _)) in Hop. auto.
  - discriminate.
  - destruct (performOperation_operation next state) as [H | [H | H]];
      rewrite H in Hop.
    + discriminate.
    + injection Hop as <-. exact Hnext.
    + auto.
Qed.

(** X7.  The line above the display is rendered exactly when a value is
    pending.  It then shows the pending value, which is never NaN, a space
    and the pending operator, which is one of the five operator strings
    (the equals sign included). *)
Theorem X7_pending_line_shows_the_pending_operation state :
  reachable state ->
  (pendingLine state = None <-> previousValue state = None) /\
  (forall line, pendingLine state = Some line ->
     exists pv op,
       previousValue state = Some pv /\ operation state = Some op /\
       isOperator op = true /\ isNaN pv = false /\
       line = NumberToString pv ++ " " ++ op).
Proof.
  intros Hr. pose proof (reachable_invariant _ Hr) as Hinv.
  pose proof (reachable_operator _ Hr) as Hops.
  unfold pendingLine.
  destruct (previousValue state) as [pv|] eqn:Hpv.
  - destruct (operation state) as [op|] eqn:Hop.
    2:{ destruct (inv_pending _ Hinv) as [_ H]. rewrite Hpv in H.
        specialize (H Hop). discriminate. }
    pose proof (Hops op eq_refl) as Hisop.
    destruct op as [|c r]; [discriminate |].
    split; [split; discriminate |].
    intros line [= <-]. exists pv, (String c r).
    repeat split; auto.
    destruct (inv_previous _ Hinv pv Hpv) as [_ [Hfin | ->]]; [| reflexivity].
    destruct pv; try reflexivity; discriminate.
  - split; [split; reflexivity | discriminate].
Qed.

Lemma X7_witness :
  let state := fst (pressKeys ["1"; "2"; "+"] initialState) in
  (pendingLine state = None <-> previousValue state = None) /\
  (forall line, pendingLine state = Some line ->
     exists pv op,
       previousValue state = Some pv /\ operation state = Some op /\
       isOperator op = true /\ isNaN pv = false /\
       line = NumberToString pv ++ " " ++ op).
Proof.
  apply X7_pending_line_shows_the_pending_operation.
  apply pressKeys_reachable; [reflexivity | constructor].
Defined.

(** ** Two operators in a row *)



(** ** Integers are computed exactly *)

Lemma shr_1_even k :
  0 <= k ->
  shr_1 {| shr_m := 2 * k; shr_r := false; shr_s := false |} =
    {| shr_m := k; shr_r := false; shr_s := false |}.
Proof. destruct k; [reflexivity | reflexivity | lia]. Qed.

Lemma iter_pos_shr_1_exact p : forall k,
  0 <= k ->
  iter_pos shr_1 p {| shr_m := k * 2 ^ Zpos p; shr_r := false; shr_s := false |} =
    {| shr_m := k; shr_r := false; shr_s := false |}.
Proof.
  induction p as [p IH|p IH|]; intros k Hk; cbn [iter_pos].
  - replace (k * 2 ^ Z.pos p~1) with (2 * ((k * 2 ^ Zpos p) * 2 ^ Zpos p)).
    + assert (0 <= 2 ^ Zpos p) by (apply Z.pow_nonneg; lia).
      rewrite shr_1_even by nia. rewrite IH by nia. apply IH, Hk.
    + replace (Z.pos p~1) with (1 + Z.pos p + Z.pos p) by lia.
      rewrite !Z.pow_add_r by lia. ring.
  - replace (k * 2 ^ Z.pos p~0) with ((k * 2 ^ Zpos p) * 2 ^ Zpos p).
    + assert (0 <= 2 ^ Zpos p) by (apply Z.pow_nonneg; lia).
      rewrite IH by nia. apply IH, Hk.
    + replace (Z.pos p~0) with (Z.pos p + Z.pos p) by lia.
      rewrite !Z.pow_add_r by lia. ring.
  - replace (k * 2 ^ 1) with (2 * k) by lia. apply shr_1_even, Hk.
Qed.

Lemma Zdigits2_pos n : 0 < n -> 1 <= Zdigits2 n.
Proof. destruct n; cbn; lia. Qed.

Lemma Zdigits2_mul_pow2 n k :
  0 < n -> 0 <= k -> Zdigits2 (n * 2 ^ k) = Zdigits2 n + k.
Proof.
  intros Hn Hk. assert (Hp : 0 < 2 ^ k) by (apply pow2_pos, Hk).
  assert (Hnk : 0 < n * 2 ^ k) by nia.
  destruct n as [|p|p]; try lia.
  destruct (Z.pos p * 2 ^ k) as [|q|q] eqn:E; try lia.
  cbn [Zdigits2]. rewrite !digits2_pos_log2, <- E, Z.log2_mul_pow2 by lia. lia.
Qed.

Lemma Zdigits2_lower n : 0 < n -> 2 ^ (Zdigits2 n - 1) <= n.
Proof.
  intros Hn. destruct n as [|p|p]; try lia.
  cbn [Zdigits2]. rewrite digits2_pos_log2.
  replace (Z.log2 (Z.pos p) + 1 - 1) with (Z.log2 (Z.pos p)) by lia.
  apply Z.log2_spec. lia.
Qed.

Lemma Zdigits2_upper n : 0 <= n -> n < 2 ^ Zdigits2 n.
Proof. intros Hn. apply Zdigits2_le_lt_pow2; lia. Qed.

Lemma Zdigits2_mono a b : 0 < a -> a <= b -> Zdigits2 a <= Zdigits2 b.
Proof.
  intros Ha Hab. apply Zdigits2_lt_pow2; [lia | apply Zdigits2_nonneg |].
  apply Z.le_lt_trans with (1 := Hab). apply Zdigits2_upper. lia.
Qed.

Lemma Zdigits2_53 n : 0 < n < 2 ^ 53 -> 1 <= Zdigits2 n <= 53.
Proof.
  intros [Hn Hlt]. split; [apply Zdigits2_pos, Hn |].
  apply Zdigits2_lt_pow2; lia.
Qed.

(** Shifting an exact multiple of a power of two down to its 53 bits. *)
Lemma shr_fexp_exact n k :
  0 < n < 2 ^ 53 -> 0 <= k -> 53 - Zdigits2 n <= k ->
  shr_fexp prec emax (n * 2 ^ k) (- k) loc_Exact =
    ({| shr_m := n * 2 ^ (53 - Zdigits2 n); shr_r := false; shr_s := false |},
     Zdigits2 n - 53).
Proof.
  intros Hn Hk Hshift. pose proof (Zdigits2_53 n Hn) as Hd.
  unfold shr_fexp, shr_record_of_loc, shr.
  rewrite Zdigits2_mul_pow2, fexp_eq by lia.
  replace (Z.max (Zdigits2 n + k + - k - 53) (-1074) - - k)
    with (Zdigits2 n - 53 + k) by lia.
  destruct (Zdigits2 n - 53 + k) as [|p|p] eqn:E; try lia.
  - replace k with (53 - Zdigits2 n) by lia. f_equal. lia.
  - replace (n * 2 ^ k) with ((n * 2 ^ (53 - Zdigits2 n)) * 2 ^ Zpos p).
    + rewrite iter_pos_shr_1_exact;
        [f_equal; lia | apply Z.mul_nonneg_nonneg; [lia | apply Z.pow_nonneg; lia]].
    + rewrite <- Z.mul_assoc, <- Z.pow_add_r by lia. do 2 f_equal. lia.
Qed.

Lemma binary_round_aux_exact s n k :
  0 < n < 2 ^ 53 -> 0 <= k -> 53 - Zdigits2 n <= k ->
  binary_round_aux prec emax s (n * 2 ^ k) (- k) loc_Exact = of_pos s n.
Proof.
  intros Hn Hk Hshift. pose proof (Zdigits2_53 n Hn) as Hd.
  unfold binary_round_aux. rewrite (shr_fexp_exact n k Hn Hk Hshift).
  cbn [shr_m loc_of_shr_record round_nearest_even].
  replace (Zdigits2 n - 53) with (- (53 - Zdigits2 n)) at 1 by lia.
  rewrite (shr_fexp_exact n (53 - Zdigits2 n) Hn) by lia.
  cbn [shr_m]. unfold of_pos.
  assert (Hpos : 0 < n * 2 ^ (53 - Zdigits2 n))
    by (apply Z.mul_pos_pos; [lia | apply pow2_pos; lia]).
  destruct (n * 2 ^ (53 - Zdigits2 n)) as [|m|m]; try lia.
  replace (Zdigits2 n - 53 <=? emax - prec) with true; [reflexivity |].
  symmetry. apply Z.leb_le. unfold emax, prec. lia.
Qed.

Lemma iter_xO m d : Zpos (Pos.iter xO m d) = Zpos m * 2 ^ Zpos d.
Proof.
  induction d as [|d IH] using Pos.peano_ind.
  - cbn. lia.
  - rewrite Pos.iter_succ, Pos2Z.inj_xO, IH, Pos2Z.inj_succ, Z.pow_succ_r by lia. ring.
Qed.

Lemma binary_round_exact s n k mx :
  0 < n < 2 ^ 53 -> 0 <= k -> Zpos mx = n * 2 ^ k ->
  binary_round prec emax s mx (- k) = of_pos s n.
Proof.
  intros Hn Hk Hmx. pose proof (Zdigits2_53 n Hn) as Hd.
  unfold binary_round, shl_align.
  change (Z.pos (digits2_pos mx)) with (Zdigits2 (Zpos mx)).
  rewrite Hmx, Zdigits2_mul_pow2, fexp_eq by lia.
  replace (Z.max (Zdigits2 n + k + - k - 53) (-1074) - - k)
    with (Zdigits2 n - 53 + k) by lia.
  replace (Z.max (Zdigits2 n + k + - k - 53) (-1074)) with (Zdigits2 n - 53) by lia.
  destruct (Zdigits2 n - 53 + k) as [|p|p] eqn:E.
  - rewrite Hmx. apply binary_round_aux_exact; lia.
  - rewrite Hmx. apply binary_round_aux_exact; lia.
  - rewrite iter_xO, Hmx.
    replace (n * 2 ^ k * 2 ^ Zpos p) with (n * 2 ^ (53 - Zdigits2 n)).
    + replace (Zdigits2 n - 53) with (- (53 - Zdigits2 n)) by lia.
      apply binary_round_aux_exact; lia.
    + rewrite <- Z.mul_assoc, <- Z.pow_add_r by lia. do 2 f_equal. lia.
Qed.

Lemma Zdigits2_mul_le a b :
  0 < a -> 0 < b -> Zdigits2 (a * b) <= Zdigits2 a + Zdigits2 b.
Proof.
  intros Ha Hb. pose proof (Zdigits2_nonneg a). pose proof (Zdigits2_nonneg b).
  apply Zdigits2_lt_pow2; [nia | lia |].
  rewrite Z.pow_add_r by lia.
  pose proof (Zdigits2_upper a ltac:(lia)). pose proof (Zdigits2_upper b ltac:(lia)).
  apply Z.mul_lt_mono_nonneg; lia.
Qed.

Lemma Zdigits2_mul_ge a b :
  0 < a -> 0 < b -> Zdigits2 a + Zdigits2 b - 1 <= Zdigits2 (a * b).
Proof.
  intros Ha Hb.
  pose proof (Zdigits2_pos a Ha). pose proof (Zdigits2_pos b Hb).
  pose proof (Zdigits2_lower a Ha) as La. pose proof (Zdigits2_lower b Hb) as Lb.
  assert (Hp : 2 ^ (Zdigits2 a + Zdigits2 b - 2) <= a * b).
  { replace (Zdigits2 a + Zdigits2 b - 2) with ((Zdigits2 a - 1) + (Zdigits2 b - 1)) by lia.
    rewrite Z.pow_add_r by lia.
    assert (0 < 2 ^ (Zdigits2 a - 1)) by (apply pow2_pos; lia).
    assert (0 < 2 ^ (Zdigits2 b - 1)) by (apply pow2_pos; lia).
    apply Z.mul_le_mono_nonneg; lia. }
  assert (Hd : Zdigits2 (2 ^ (Zdigits2 a + Zdigits2 b - 2)) = Zdigits2 a + Zdigits2 b - 1).
  { rewrite <- (Z.mul_1_l (2 ^ _)), Zdigits2_mul_pow2 by lia. cbn [Zdigits2 digits2_pos]. lia. }
  rewrite <- Hd. apply Zdigits2_mono; [apply pow2_pos; lia | exact Hp].
Qed.

Lemma of_pos_mantissa n :
  0 < n < 2 ^ 53 ->
  Zpos (Z.to_pos (n * 2 ^ (53 - Zdigits2 n))) = n * 2 ^ (53 - Zdigits2 n) /\
  Zdigits2 (n * 2 ^ (53 - Zdigits2 n)) = 53.
Proof.
  intros Hn. pose proof (Zdigits2_53 n Hn) as Hd. split.
  - apply Z2Pos.id. apply Z.mul_pos_pos; [lia | apply pow2_pos; lia].
  - rewrite Zdigits2_mul_pow2 by lia. lia.
Qed.

Lemma new_location_zero n : new_location n 0 = loc_Exact.
Proof. unfold new_location. destruct (Z.even n); reflexivity. Qed.

(** The core of the division when the quotient is an integer. *)
Lemma div_core_exact m1 e1 m2 e2 n :
  let e' := Z.min (fexp prec emax (Zdigits2 (Zpos m1) + e1 - (Zdigits2 (Zpos m2) + e2)))
                  (e1 - e2) in
  e' <= 0 ->
  Zpos m1 * 2 ^ (e1 - e2 - e') = n * 2 ^ (- e') * Zpos m2 ->
  SFdiv_core_binary prec emax (Zpos m1) e1 (Zpos m2) e2 =
    (n * 2 ^ (- e'), e', loc_Exact).
Proof.
  intros e' He' Hq. unfold SFdiv_core_binary. cbv zeta. fold e'.
  set (m' := match e1 - e2 - e' with
             | 0 => Z.pos m1
             | Z.pos _ => Z.shiftl (Z.pos m1) (e1 - e2 - e')
             | Z.neg _ => 0
             end).
  assert (Hs : 0 <= e1 - e2 - e') by (unfold e'; lia).
  assert (Hm' : m' = n * 2 ^ (- e') * Zpos m2).
  { rewrite <- Hq. unfold m'. destruct (e1 - e2 - e') as [|p|p] eqn:E; [lia | | lia].
    apply Z.shiftl_mul_pow2. lia. }
  assert (Hdiv : m' / Zpos m2 = n * 2 ^ (- e')) by (rewrite Hm'; apply Z.div_mul; lia).
  assert (Hmod : m' mod Zpos m2 = 0) by (rewrite Hm'; apply Z.mod_mul; lia).
  unfold Z.div, Z.modulo in Hdiv, Hmod.
  destruct (Z.div_eucl m' (Z.pos m2)) as [q r]. subst q r.
  rewrite new_location_zero. reflexivity.
Qed.

(** A decimal that is an integer below [2^53] is read exactly. *)
Lemma round_decimal_exact s M E n :
  0 < n < 2 ^ 53 ->
  M * 10 ^ Z.max 0 E = n * 10 ^ Z.max 0 (- E) ->
  round_decimal s M E = of_pos s n.
Proof.
  intros Hn Heq. pose proof (Zdigits2_53 n Hn) as Hd.
  pose proof (pow10_pos (- E)) as Hden.
  unfold round_decimal.
  destruct (M * 10 ^ Z.max 0 E) as [|num|num] eqn:Hnum; try nia.
  set (den := Z.to_pos (10 ^ Z.max 0 (- E))).
  assert (Eden : Zpos den = 10 ^ Z.max 0 (- E)) by (apply Z2Pos.id, Hden).
  unfold SFdiv.
  pose proof (div_core_exact num 0 den 0 n) as Hcore. cbv zeta in Hcore.
  set (e' := Z.min (fexp prec emax (Zdigits2 (Z.pos num) + 0 - (Zdigits2 (Z.pos den) + 0)))
                   (0 - 0)) in *.
  assert (He' : e' <= 0) by (unfold e'; lia).
  rewrite Hcore; [| exact He' |].
  2:{ rewrite Heq, Eden. replace (0 - 0 - e') with (- e') by lia. ring. }
  rewrite xorb_false_r.
  replace e' with (- - e') at 2 by lia.
  apply binary_round_aux_exact; [exact Hn | lia |].
  assert (Hdig : Zdigits2 (Zpos num) <= Zdigits2 n + Zdigits2 (Zpos den)).
  { rewrite Heq, <- Eden. apply Zdigits2_mul_le; lia. }
  unfold e'. rewrite fexp_eq. lia.
Qed.

Lemma of_int_nonzero z : z <> 0 -> of_int z = of_pos (z <? 0) (Z.abs z).
Proof. destruct z; [contradiction | reflexivity | reflexivity]. Qed.

Lemma of_int_opp z : SFopp (of_int z) = of_int (- z) \/ z = 0.
Proof. destruct z; [right; reflexivity | left; reflexivity | left; reflexivity]. Qed.

Lemma round_decimal_int n :
  0 <= n < 2 ^ 53 -> round_decimal false n 0 = of_int n.
Proof.
  intros Hn. destruct (Z.eq_dec n 0) as [-> | Hne]; [reflexivity |].
  rewrite (of_int_nonzero n Hne).
  replace (n <? 0) with false by (symmetry; apply Z.ltb_ge; lia).
  rewrite Z.abs_eq by lia.
  apply round_decimal_exact; [lia | reflexivity].
Qed.

(** *** The four operations *)

Lemma mul_exact sa sb a b :
  0 < a -> 0 < b -> a * b < 2 ^ 53 ->
  mul (of_pos sa a) (of_pos sb b) = of_pos (xorb sa sb) (a * b).
Proof.
  intros Ha Hb Hab.
  assert (Ha53 : 0 < a < 2 ^ 53) by nia. assert (Hb53 : 0 < b < 2 ^ 53) by nia.
  pose proof (Zdigits2_53 a Ha53) as Hda. pose proof (Zdigits2_53 b Hb53) as Hdb.
  destruct (of_pos_mantissa a Ha53) as [Hma _].
  destruct (of_pos_mantissa b Hb53) as [Hmb _].
  unfold mul, of_pos at 1 2. cbn [SFmul].
  rewrite Pos2Z.inj_mul, Hma, Hmb.
  replace (a * 2 ^ (53 - Zdigits2 a) * (b * 2 ^ (53 - Zdigits2 b)))
    with (a * b * 2 ^ (106 - Zdigits2 a - Zdigits2 b)).
  2:{ replace (106 - Zdigits2 a - Zdigits2 b)
        with ((53 - Zdigits2 a) + (53 - Zdigits2 b)) by lia.
      rewrite Z.pow_add_r by lia. ring. }
  replace (Zdigits2 a - 53 + (Zdigits2 b - 53))
    with (- (106 - Zdigits2 a - Zdigits2 b)) by lia.
  pose proof (Zdigits2_mul_ge a b Ha Hb).
  apply binary_round_aux_exact; [nia | lia | lia].
Qed.

Lemma div_exact sa sb a b n :
  0 < a < 2 ^ 53 -> 0 < b < 2 ^ 53 -> 0 < n -> a = n * b ->
  div (of_pos sa a) (of_pos sb b) = of_pos (xorb sa sb) n.
Proof.
  intros Ha Hb Hn Heq.
  assert (Hn53 : 0 < n < 2 ^ 53) by nia.
  pose proof (Zdigits2_53 a Ha) as Hda. pose proof (Zdigits2_53 b Hb) as Hdb.
  pose proof (Zdigits2_53 n Hn53) as Hdn.
  destruct (of_pos_mantissa a Ha) as [Hma Hda53].
  destruct (of_pos_mantissa b Hb) as [Hmb Hdb53].
  unfold div, of_pos at 1 2. cbn [SFdiv].
  rewrite <- Hma in Hda53. rewrite <- Hmb in Hdb53.
  set (ma := Z.to_pos (a * 2 ^ (53 - Zdigits2 a))) in *.
  set (mb := Z.to_pos (b * 2 ^ (53 - Zdigits2 b))) in *.
  pose proof (div_core_exact ma (Zdigits2 a - 53) mb (Zdigits2 b - 53) n) as Hcore.
  cbv zeta in Hcore. rewrite Hda53, Hdb53 in Hcore.
  set (e' := Z.min (fexp prec emax (53 + (Zdigits2 a - 53) - (53 + (Zdigits2 b - 53))))
                   (Zdigits2 a - 53 - (Zdigits2 b - 53))) in *.
  assert (Hdig : Zdigits2 a <= Zdigits2 n + Zdigits2 b)
    by (rewrite Heq; apply Zdigits2_mul_le; lia).
  assert (He' : e' <= Zdigits2 n - 53) by (unfold e'; rewrite fexp_eq; lia).
  assert (He'2 : e' <= Zdigits2 a - Zdigits2 b) by (unfold e'; lia).
  rewrite Hcore; [| lia |].
  2:{ assert (H1 : 2 ^ (53 - Zdigits2 a) *
                   2 ^ (Zdigits2 a - 53 - (Zdigits2 b - 53) - e') =
                   2 ^ (53 - Zdigits2 b - e'))
        by (rewrite <- Z.pow_add_r by lia; f_equal; lia).
      assert (H2 : 2 ^ (- e') * 2 ^ (53 - Zdigits2 b) = 2 ^ (53 - Zdigits2 b - e'))
        by (rewrite <- Z.pow_add_r by lia; f_equal; lia).
      rewrite Hma, Hmb, <- Z.mul_assoc, H1.
      replace (n * 2 ^ (- e') * (b * 2 ^ (53 - Zdigits2 b)))
        with (n * b * (2 ^ (- e') * 2 ^ (53 - Zdigits2 b))) by ring.
      rewrite H2, <- Heq. reflexivity. }
  replace e' with (- - e') at 2 by lia.
  apply binary_round_aux_exact; lia.
Qed.

Lemma shl_align_fst m e ez :
  ez <= e -> Zpos (fst (shl_align m e ez)) = Zpos m * 2 ^ (e - ez).
Proof.
  intros H. unfold shl_align. destruct (ez - e) as [|p|p] eqn:E; cbn [fst].
  - replace (e - ez) with 0 by lia. lia.
  - lia.
  - rewrite iter_xO. do 2 f_equal. lia.
Qed.

Lemma binary_normalize_exact z k :
  Z.abs z < 2 ^ 53 -> 0 <= k ->
  binary_normalize prec emax (z * 2 ^ k) (- k) false = of_int z.
Proof.
  intros Hz Hk. pose proof (pow2_pos k Hk) as Hp.
  destruct z as [|p|p].
  - reflexivity.
  - destruct (Z.pos p * 2 ^ k) as [|mx|mx] eqn:E; try nia.
    cbn [binary_normalize of_int]. apply binary_round_exact; [lia | exact Hk | symmetry; exact E].
  - destruct (Z.neg p * 2 ^ k) as [|mx|mx] eqn:E; try nia.
    cbn [binary_normalize of_int]. apply binary_round_exact; [lia | exact Hk |].
    rewrite <- !Pos2Z.opp_pos, Z.mul_opp_l in E.
    change (- Z.neg p) with (Z.pos p). lia.
Qed.

Lemma of_pos_aligned n ez :
  0 < n < 2 ^ 53 -> ez <= Zdigits2 n - 53 ->
  Zpos (fst (shl_align (Z.to_pos (n * 2 ^ (53 - Zdigits2 n))) (Zdigits2 n - 53) ez)) =
    n * 2 ^ (- ez).
Proof.
  intros Hn Hez. pose proof (Zdigits2_53 n Hn) as Hd.
  rewrite shl_align_fst by exact Hez.
  rewrite (proj1 (of_pos_mantissa n Hn)), <- Z.mul_assoc, <- Z.pow_add_r by lia.
  do 2 f_equal. lia.
Qed.

Lemma add_finite_exact sa sb a b :
  0 < a < 2 ^ 53 -> 0 < b < 2 ^ 53 ->
  Z.abs (cond_Zopp sa a + cond_Zopp sb b) < 2 ^ 53 ->
  add (of_pos sa a) (of_pos sb b) = of_int (cond_Zopp sa a + cond_Zopp sb b).
Proof.
  intros Ha Hb Hab.
  pose proof (Zdigits2_53 a Ha) as Hda. pose proof (Zdigits2_53 b Hb) as Hdb.
  unfold add, of_pos. cbn [SFadd]. cbv zeta.
  set (ez := Z.min (Zdigits2 a - 53) (Zdigits2 b - 53)).
  rewrite (of_pos_aligned a ez Ha), (of_pos_aligned b ez Hb) by (unfold ez; lia).
  replace (cond_Zopp sa (a * 2 ^ (- ez)) + cond_Zopp sb (b * 2 ^ (- ez)))
    with ((cond_Zopp sa a + cond_Zopp sb b) * 2 ^ (- ez))
    by (destruct sa, sb; cbn [cond_Zopp]; ring).
  replace ez with (- - ez) at 2 by lia.
  apply binary_normalize_exact; [exact Hab | unfold ez; lia].
Qed.

Lemma sub_finite_exact sa sb a b :
  0 < a < 2 ^ 53 -> 0 < b < 2 ^ 53 ->
  Z.abs (cond_Zopp sa a - cond_Zopp sb b) < 2 ^ 53 ->
  sub (of_pos sa a) (of_pos sb b) = of_int (cond_Zopp sa a - cond_Zopp sb b).
Proof.
  intros Ha Hb Hab.
  pose proof (Zdigits2_53 a Ha) as Hda. pose proof (Zdigits2_53 b Hb) as Hdb.
  unfold sub, of_pos. cbn [SFsub]. cbv zeta.
  set (ez := Z.min (Zdigits2 a - 53) (Zdigits2 b - 53)).
  rewrite (of_pos_aligned a ez Ha), (of_pos_aligned b ez Hb) by (unfold ez; lia).
  replace (cond_Zopp sa (a * 2 ^ (- ez)) - cond_Zopp sb (b * 2 ^ (- ez)))
    with ((cond_Zopp sa a - cond_Zopp sb b) * 2 ^ (- ez))
    by (destruct sa, sb; cbn [cond_Zopp]; ring).
  replace ez with (- - ez) at 2 by lia.
  apply binary_normalize_exact; [exact Hab | unfold ez; lia].
Qed.

Lemma cond_Zopp_abs z : cond_Zopp (z <? 0) (Z.abs z) = z.
Proof. destruct z; reflexivity. Qed.

Lemma sign_of_product a b :
  a <> 0 -> b <> 0 -> xorb (a <? 0) (b <? 0) = (a * b <? 0).
Proof. destruct a, b; try contradiction; reflexivity. Qed.

Lemma add_of_int a b :
  Z.abs a < 2 ^ 53 -> Z.abs b < 2 ^ 53 -> Z.abs (a + b) < 2 ^ 53 ->
  add (of_int a) (of_int b) = of_int (a + b).
Proof.
  intros Ha Hb Hab.
  destruct (Z.eq_dec a 0) as [-> | Na]; [destruct b; reflexivity |].
  destruct (Z.eq_dec b 0) as [-> | Nb];
    [rewrite Z.add_0_r; destruct a; try contradiction; reflexivity |].
  rewrite (of_int_nonzero a Na), (of_int_nonzero b Nb).
  rewrite add_finite_exact; rewrite ?cond_Zopp_abs; try lia. reflexivity.
Qed.

Lemma sub_of_int a b :
  Z.abs a < 2 ^ 53 -> Z.abs b < 2 ^ 53 -> Z.abs (a - b) < 2 ^ 53 ->
  sub (of_int a) (of_int b) = of_int (a - b).
Proof.
  intros Ha Hb Hab.
  destruct (Z.eq_dec b 0) as [-> | Nb];
    [rewrite Z.sub_0_r; destruct a; reflexivity |].
  destruct (Z.eq_dec a 0) as [-> | Na]; [destruct b; try contradiction; reflexivity |].
  rewrite (of_int_nonzero a Na), (of_int_nonzero b Nb).
  rewrite sub_finite_exact; rewrite ?cond_Zopp_abs; try lia. reflexivity.
Qed.

Lemma mul_of_int a b :
  Z.abs (a * b) < 2 ^ 53 ->
  same_up_to_zero_sign (mul (of_int a) (of_int b)) (of_int (a * b)).
Proof.
  intros Hab.
  destruct (Z.eq_dec a 0) as [-> | Na].
  { right. destruct b; [exists false, false | exists false, false | exists true, false];
      split; reflexivity. }
  destruct (Z.eq_dec b 0) as [-> | Nb].
  { right. rewrite Z.mul_0_r.
    destruct a; [exists false, false | exists false, false | exists true, false];
      split; reflexivity. }
  left.
  assert (Nab : a * b <> 0) by nia.
  rewrite (of_int_nonzero a Na), (of_int_nonzero b Nb), (of_int_nonzero _ Nab).
  rewrite Z.abs_mul in *. rewrite mul_exact by lia.
  rewrite sign_of_product by assumption. reflexivity.
Qed.

Lemma div_of_int a b n :
  Z.abs a < 2 ^ 53 -> Z.abs b < 2 ^ 53 -> b <> 0 -> a = n * b ->
  same_up_to_zero_sign (div (of_int a) (of_int b)) (of_int n).
Proof.
  intros Ha Hb Nb Heq.
  destruct (Z.eq_dec n 0) as [-> | Nn].
  { right. subst a. rewrite Z.mul_0_l.
    destruct b; [contradiction | exists false, false | exists true, false];
      split; reflexivity. }
  left.
  assert (Na : a <> 0) by nia.
  rewrite (of_int_nonzero a Na), (of_int_nonzero b Nb), (of_int_nonzero n Nn).
  rewrite (div_exact _ _ (Z.abs a) (Z.abs b) (Z.abs n));
    [| lia | lia | lia | subst a; apply Z.abs_mul].
  f_equal. subst a. destruct n, b; try contradiction; reflexivity.
Qed.

(** *** Rounding an integer result to twelve digits *)

Lemma of_pos_well_formed s n : 0 < n < 2 ^ 53 -> well_formed (of_pos s n).
Proof.
  intros Hn. pose proof (Zdigits2_53 n Hn) as Hd.
  unfold of_pos, well_formed. rewrite (proj1 (of_pos_mantissa n Hn)).
  split; [| lia].
  pose proof (Zdigits2_upper n ltac:(lia)) as Hup.
  assert (Hp : 0 < 2 ^ (53 - Zdigits2 n)) by (apply pow2_pos; lia).
  replace (2 ^ 53) with (2 ^ Zdigits2 n * 2 ^ (53 - Zdigits2 n))
    by (rewrite <- Z.pow_add_r by lia; f_equal; lia).
  apply Z.mul_lt_mono_pos_r; assumption.
Qed.

Lemma of_pos_inj s a b :
  0 < a < 2 ^ 53 -> 0 < b < 2 ^ 53 -> of_pos s a = of_pos s b -> a = b.
Proof.
  intros Ha Hb H. unfold of_pos in H.
  pose proof (Zdigits2_53 a Ha). pose proof (Zdigits2_53 b Hb).
  assert (Hm : Z.to_pos (a * 2 ^ (53 - Zdigits2 a)) = Z.to_pos (b * 2 ^ (53 - Zdigits2 b)))
    by congruence.
  assert (He : Zdigits2 a - 53 = Zdigits2 b - 53) by congruence.
  assert (Hd : Zdigits2 a = Zdigits2 b) by lia.
  pose proof (proj1 (of_pos_mantissa a Ha)) as Hma.
  pose proof (proj1 (of_pos_mantissa b Hb)) as Hmb.
  rewrite Hm, Hmb, Hd in Hma.
  assert (Hp : 0 < 2 ^ (53 - Zdigits2 b)) by (apply pow2_pos; lia).
  apply (Z.mul_reg_r _ _ (2 ^ (53 - Zdigits2 b))); lia.
Qed.

(** The decimal exponent of a positive integer. *)
Lemma decimal_exponent_of_pos n :
  0 < n < 2 ^ 53 ->
  let j := decimal_exponent (Z.to_pos (n * 2 ^ (53 - Zdigits2 n))) (Zdigits2 n - 53) in
  0 <= j /\ 10 ^ j <= n < 10 ^ (j + 1).
Proof.
  intros Hn j. pose proof (Zdigits2_53 n Hn) as Hd.
  pose proof (of_pos_well_formed false n Hn) as Hwf. unfold of_pos in Hwf.
  pose proof (decimal_exponent_lower _ _ _ Hwf) as Hlow.
  pose proof (decimal_exponent_upper _ _ _ Hwf) as Hupp.
  fold j in Hlow, Hupp. unfold scaled in Hlow, Hupp. cbn [fst snd] in Hlow, Hupp.
  rewrite (proj1 (of_pos_mantissa n Hn)) in Hlow, Hupp.
  replace (Z.max 0 (Zdigits2 n - 53)) with 0 in * by lia.
  replace (Z.max 0 (- (Zdigits2 n - 53))) with (53 - Zdigits2 n) in * by lia.
  rewrite Z.pow_0_r, Z.mul_1_r in Hlow, Hupp.
  set (P := 2 ^ (53 - Zdigits2 n)) in *.
  assert (HP : 0 < P) by (apply pow2_pos; lia).
  pose proof (pow10_pos (- (j + 1))) as H1.
  assert (Hj : 0 <= j).
  { destruct (Z_lt_le_dec j 0) as [Hneg | Hok]; [exfalso | exact Hok].
    replace (Z.max 0 (j + 1)) with 0 in Hupp by lia.
    rewrite Z.pow_0_r in Hupp.
    assert (P <= n * P) by nia.
    assert (n * P * 1 <= n * P * 10 ^ Z.max 0 (- (j + 1)))
      by (apply Z.mul_le_mono_nonneg_l; lia).
    lia. }
  split; [exact Hj |].
  replace (Z.max 0 j) with j in Hlow by lia.
  replace (Z.max 0 (- j)) with 0 in Hlow by lia.
  replace (Z.max 0 (j + 1)) with (j + 1) in Hupp by lia.
  replace (Z.max 0 (- (j + 1))) with 0 in Hupp by lia.
  rewrite Z.pow_0_r, Z.mul_1_r in Hlow, Hupp.
  split.
  - apply (Z.mul_le_mono_pos_l _ _ P); lia.
  - apply (Z.mul_lt_mono_pos_l P); lia.
Qed.

Lemma pow10_lt_inv a b : 0 <= a -> 0 <= b -> 10 ^ a < 10 ^ b -> a < b.
Proof. intros Ha Hb H. apply (Z.pow_lt_mono_r_iff 10); lia. Qed.

Lemma precision_digits_of_pos n :
  0 < n < 10 ^ 12 ->
  let m := Z.to_pos (n * 2 ^ (53 - Zdigits2 n)) in
  let e := Zdigits2 n - 53 in
  let j := decimal_exponent m e in
  j <= 11 /\ precision_digits 12 m e = (n * 10 ^ (11 - j), j).
Proof.
  intros Hn m e j.
  assert (Hn53 : 0 < n < 2 ^ 53) by (split; [lia |]; apply Z.lt_trans with (10 ^ 12); [lia | reflexivity]).
  pose proof (Zdigits2_53 n Hn53) as Hd.
  destruct (decimal_exponent_of_pos n Hn53) as (Hj & Hlo & Hhi).
  fold m e j in Hj, Hlo, Hhi.
  assert (Hj11 : j <= 11).
  { enough (j < 12) by lia. apply pow10_lt_inv; lia. }
  split; [exact Hj11 |].
  unfold precision_digits. fold j. change (Z.of_nat 12) with 12.
  assert (Hm : Zpos m = n * 2 ^ (53 - Zdigits2 n)) by apply (of_pos_mantissa n Hn53).
  unfold scaled. cbv zeta. rewrite !Hm.
  unfold e.
  replace (Z.max 0 (Zdigits2 n - 53)) with 0 by lia.
  replace (Z.max 0 (- (Zdigits2 n - 53))) with (53 - Zdigits2 n) by lia.
  replace (Z.max 0 (- (j - 12 + 1))) with (11 - j) by lia.
  replace (Z.max 0 (j - 12 + 1)) with 0 by lia.
  rewrite !Z.pow_0_r, !Z.mul_1_r.
  set (P := 2 ^ (53 - Zdigits2 n)).
  assert (HP : 0 < P) by (apply pow2_pos; lia).
  set (T := 10 ^ (11 - j)).
  assert (HT : 0 < T) by (apply Z.pow_pos_nonneg; lia).
  assert (Hq : (2 * (n * P * T) + P) / (2 * P) = n * T).
  { symmetry. apply Z.div_unique with (r := P); [lia | ring]. }
  rewrite Hq.
  assert (Hlt : n * T < 10 ^ 12).
  { replace (10 ^ 12) with (10 ^ (j + 1) * T)
      by (unfold T; rewrite <- Z.pow_add_r by lia; f_equal; lia).
    apply Z.mul_lt_mono_pos_r; assumption. }
  apply Z.ltb_lt in Hlt. rewrite Hlt. reflexivity.
Qed.

(** An integer of fewer than thirteen digits is its own rounding to twelve
    digits. *)
Lemma formatResult_of_pos s n :
  0 < n < 10 ^ 12 -> formatResult (of_pos s n) = of_pos s n.
Proof.
  intros Hn.
  assert (Hn53 : 0 < n < 2 ^ 53) by (split; [lia |]; apply Z.lt_trans with (10 ^ 12); [lia | reflexivity]).
  destruct (precision_digits_of_pos n Hn) as [Hj Hp]. cbv zeta in Hp, Hj.
  pose proof (formatResult_finite s (Z.to_pos (n * 2 ^ (53 - Zdigits2 n))) (Zdigits2 n - 53)) as Hf.
  rewrite Hp in Hf. unfold of_pos at 1. rewrite Hf.
  apply round_decimal_exact; [exact Hn53 |].
  set (j := decimal_exponent _ _) in *.
  replace (Z.max 0 (j - 11)) with 0 by lia.
  replace (Z.max 0 (- (j - 11))) with (11 - j) by lia.
  rewrite Z.pow_0_r. ring.
Qed.

Lemma formatResult_of_int z :
  Z.abs z < 10 ^ 12 -> formatResult (of_int z) = of_int z.
Proof.
  intros Hz. destruct (Z.eq_dec z 0) as [-> | Nz]; [vm_compute; reflexivity |].
  rewrite (of_int_nonzero z Nz). apply formatResult_of_pos. lia.
Qed.

Lemma formatResult_zero s : formatResult (S754_zero s) = zero.
Proof. destruct s; vm_compute; reflexivity. Qed.

Lemma isFinite_of_int z : isFinite (of_int z) = true.
Proof. destruct z; reflexivity. Qed.

(** What [commit] makes of a result that is an integer up to the sign of
    zero. *)
Lemma format_integer_result r z :
  same_up_to_zero_sign r (of_int z) -> Z.abs z < 10 ^ 12 ->
  isFinite r = true /\ formatResult r = of_int z.
Proof.
  intros [-> | (a & b & -> & Hz)] Hbound.
  - split; [apply isFinite_of_int | apply formatResult_of_int, Hbound].
  - split; [reflexivity |]. rewrite formatResult_zero.
    destruct z; [reflexivity | discriminate | discriminate].
Qed.

(** *** The string of an integer result *)

Lemma same_refl x : same x x = true.
Proof.
  destruct x as [s|s| |s m e]; cbn [same];
    rewrite ?Bool.eqb_reflx, ?Pos.eqb_refl, ?Z.eqb_refl; reflexivity.
Qed.

(** With as many digits as the integer has, the digits below the value are
    the integer itself, and they read back. *)
Lemma shortest_at_of_pos n :
  0 < n < 10 ^ 12 ->
  let m := Z.to_pos (n * 2 ^ (53 - Zdigits2 n)) in
  let e := Zdigits2 n - 53 in
  let j := decimal_exponent m e in
  shortest_at (Z.to_nat (j + 1)) m e = Some (n, j + 1).
Proof.
  intros Hn m e j.
  assert (Hn53 : 0 < n < 2 ^ 53)
    by (split; [lia |]; apply Z.lt_trans with (10 ^ 12); [lia | reflexivity]).
  pose proof (Zdigits2_53 n Hn53) as Hd.
  destruct (decimal_exponent_of_pos n Hn53) as (Hj & _). fold m e j in Hj.
  assert (Hm : Zpos m = n * 2 ^ (53 - Zdigits2 n)) by apply (of_pos_mantissa n Hn53).
  assert (Hback : reads_back m e n 0 = true).
  { unfold reads_back. rewrite (round_decimal_exact false n 0 n Hn53 eq_refl).
    apply same_refl. }
  assert (He0 : Z.max 0 e = 0) by (unfold e; lia).
  assert (He1 : Z.max 0 (- e) = 53 - Zdigits2 n) by (unfold e; lia).
  unfold shortest_at, scaled. fold j. rewrite Z2Nat.id by lia.
  replace (j - (j + 1) + 1) with 0 by lia.
  cbv beta iota zeta. rewrite !Hm, !He0, !He1.
  change (Z.max 0 (- 0)) with 0. change (Z.max 0 0) with 0.
  rewrite !Z.pow_0_r, !Z.mul_1_r.
  set (P := 2 ^ (53 - Zdigits2 n)).
  assert (HP : 0 < P) by (apply pow2_pos; lia).
  rewrite !Z.div_mul by lia.
  assert (Hnear : (2 * (n * P) <? (2 * n + 1) * P) = true) by (apply Z.ltb_lt; nia).
  destruct (n + 1 <? 10 ^ (j + 1)); rewrite Hback, Hnear, orb_true_l, orb_true_r;
    reflexivity.
Qed.

(** The search stops at the first count of digits that reads back. *)
Lemma shortest_seq_first m e len : forall a k0 d0 n0,
  (a <= k0 < a + len)%nat ->
  shortest_at k0 m e = Some (d0, n0) ->
  exists k d n,
    shortest (seq a len) m e = (k, d, n) /\ (a <= k <= k0)%nat /\
    shortest_at k m e = Some (d, n).
Proof.
  induction len as [|len IH]; intros a k0 d0 n0 Hk Hat; [lia |].
  cbn [seq shortest].
  destruct (shortest_at a m e) as [[d n]|] eqn:Ea.
  - exists a, d, n. repeat split; [lia | lia | exact Ea].
  - assert (a <> k0) by (intros ->; congruence).
    destruct (IH (S a) k0 d0 n0 ltac:(lia) Hat) as (k & d & n & Hs & Hr & Hk').
    exists k, d, n. repeat split; [exact Hs | lia | lia | exact Hk'].
Qed.

(** The digits the search returns start with a digit that is not zero, and
    the decimal point is where the decimal exponent puts it, or one place
    further after a carry. *)
Lemma shortest_at_shape s m e k d n :
  well_formed (S754_finite s m e) -> (1 <= k)%nat ->
  shortest_at k m e = Some (d, n) ->
  10 ^ (Z.of_nat k - 1) <= d /\
  decimal_exponent m e + 1 <= n <= decimal_exponent m e + 2.
Proof.
  intros Hwf Hk. unfold shortest_at.
  pose proof (leading_digits_ge s m e (Z.of_nat k) Hwf ltac:(lia)) as Hlead.
  destruct (scaled m e (decimal_exponent m e - Z.of_nat k + 1)) as [a b] eqn:Es.
  assert (Hb : 0 < b).
  { unfold scaled in Es. injection Es as _ <-.
    apply Z.mul_pos_pos; [apply pow2_pos; lia | apply pow10_pos]. }
  set (j := decimal_exponent m e) in *.
  assert (Hlo : 10 ^ (Z.of_nat k - 1) <= a / b)
    by (apply Z.div_le_lower_bound; lia).
  set (lo := a / b) in *.
  destruct (lo + 1 <? 10 ^ Z.of_nat k).
  - destruct (reads_back m e lo (j - Z.of_nat k + 1) && _).
    + intros [= <- <-]. lia.
    + destruct (reads_back m e (lo + 1) (j - Z.of_nat k + 1)); [| discriminate].
      intros [= <- <-]. lia.
  - destruct (reads_back m e lo (j - Z.of_nat k + 1) && _).
    + intros [= <- <-]. lia.
    + destruct (reads_back m e (10 ^ (Z.of_nat k - 1)) (j + 1 - Z.of_nat k + 1));
        [| discriminate].
      intros [= <- <-]. lia.
Qed.

Lemma digits_fixed_zeros z : forall d,
  digits_fixed z (d * 10 ^ Z.of_nat z) = zeros z.
Proof.
  induction z as [|z IH]; intros d; [reflexivity |].
  cbn [digits_fixed zeros].
  assert (Hp : 0 < 10 ^ Z.of_nat z) by (apply Z.pow_pos_nonneg; lia).
  replace (d * 10 ^ Z.of_nat (S z)) with (d * 10 * 10 ^ Z.of_nat z)
    by (rewrite Nat2Z.inj_succ, Z.pow_succ_r by lia; ring).
  rewrite Z.div_mul by lia. rewrite Z.mod_mul by lia. rewrite IH. reflexivity.
Qed.

Lemma digits_fixed_shift k z d :
  digits_fixed (k + z) (d * 10 ^ Z.of_nat z) = digits_fixed k d ++ zeros z.
Proof.
  induction k as [|k IH]; [apply digits_fixed_zeros |].
  cbn [Nat.add digits_fixed append]. rewrite IH. f_equal. f_equal. f_equal.
  rewrite Nat2Z.inj_add, Z.pow_add_r by lia.
  apply Z.div_mul_cancel_r; apply Z.pow_nonzero; lia.
Qed.

Lemma count_digits_exact fuel : forall n c,
  (1 <= c)%nat -> 0 < n < 2 ^ (Z.of_nat fuel + 1) ->
  10 ^ (Z.of_nat c - 1) <= n < 10 ^ Z.of_nat c ->
  count_digits fuel n = c.
Proof.
  induction fuel as [|fuel IH]; intros n c Hc Hn Hb; cbn [count_digits].
  - change (2 ^ (Z.of_nat 0 + 1)) with 2 in Hn. assert (n = 1) by lia. subst n.
    destruct (Nat.eq_dec c 1) as [-> | Nc]; [reflexivity | exfalso].
    assert (10 ^ 1 <= 10 ^ (Z.of_nat c - 1)) by (apply Z.pow_le_mono_r; lia).
    change (10 ^ 1) with 10 in *. lia.
  - destruct (n <? 10) eqn:E.
    + apply Z.ltb_lt in E.
      destruct (Nat.eq_dec c 1) as [-> | Nc]; [reflexivity | exfalso].
      assert (10 ^ 1 <= 10 ^ (Z.of_nat c - 1)) by (apply Z.pow_le_mono_r; lia).
      change (10 ^ 1) with 10 in *. lia.
    + apply Z.ltb_ge in E.
      destruct c as [|[|c]]; [lia | change (10 ^ Z.of_nat 1) with 10 in Hb; lia |].
      f_equal. apply IH; [lia | |].
      * split; [apply Z.div_str_pos; lia |].
        apply Z.div_lt_upper_bound; [lia |].
        rewrite Nat2Z.inj_succ in Hn.
        replace (Z.succ (Z.of_nat fuel) + 1) with (Z.of_nat fuel + 1 + 1) in Hn by lia.
        rewrite (Z.pow_add_r _ _ 1) in Hn by lia. change (2 ^ 1) with 2 in Hn.
        assert (0 < 2 ^ (Z.of_nat fuel + 1)) by (apply pow2_pos; lia). lia.
      * assert (Hc2 : Z.of_nat (S (S c)) = Z.of_nat c + 2) by lia.
        assert (Hc1 : Z.of_nat (S c) = Z.of_nat c + 1) by lia.
        rewrite Hc2 in Hb. rewrite Hc1.
        replace (Z.of_nat c + 2 - 1) with (Z.of_nat c + 1) in Hb by lia.
        replace (Z.of_nat c + 1 - 1) with (Z.of_nat c) by lia.
        rewrite !Z.pow_add_r in Hb by lia. rewrite Z.pow_add_r by lia.
        change (10 ^ 1) with 10 in *. change (10 ^ 2) with 100 in *.
        split.
        -- apply Z.div_le_lower_bound; lia.
        -- apply Z.div_lt_upper_bound; lia.
Qed.

Lemma nat_string_digits n c :
  (1 <= c)%nat -> 10 ^ (Z.of_nat c - 1) <= n < 10 ^ Z.of_nat c ->
  nat_string n = digits_fixed c n.
Proof.
  intros Hc Hb. unfold nat_string.
  assert (Hn : 0 < n).
  { apply Z.lt_le_trans with (2 := proj1 Hb). apply Z.pow_pos_nonneg; lia. }
  rewrite (count_digits_exact _ n c Hc); [reflexivity | | exact Hb].
  split; [exact Hn |]. rewrite Z2Nat.id by (apply Z.log2_nonneg).
  apply Z.log2_spec, Hn.
Qed.

(** The string of a positive integer below [10^12] is its decimal numeral,
    after a minus sign when it is negative. *)
Lemma NumberToString_of_pos s n :
  0 < n < 10 ^ 12 ->
  NumberToString (of_pos s n) = sign_string s ++ nat_string n.
Proof.
  intros Hn.
  assert (Hn53 : 0 < n < 2 ^ 53)
    by (split; [lia |]; apply Z.lt_trans with (10 ^ 12); [lia | reflexivity]).
  pose proof (of_pos_well_formed s n Hn53) as Hwf.
  pose proof (shortest_at_of_pos n Hn) as Hfull.
  destruct (precision_digits_of_pos n Hn) as [Hj11 _].
  destruct (decimal_exponent_of_pos n Hn53) as (Hj & Hlo & Hhi).
  cbv zeta in Hfull, Hj11, Hj, Hlo, Hhi.
  unfold of_pos in Hwf |- *.
  set (m := Z.to_pos (n * 2 ^ (53 - Zdigits2 n))) in *.
  set (e := Zdigits2 n - 53) in *.
  set (j := decimal_exponent m e) in *.
  destruct (shortest_seq_first m e 17 1 (Z.to_nat (j + 1)) n (j + 1) ltac:(lia) Hfull)
    as (k & d & n' & Hs & Hk & Hat).
  destruct (shortest_at_spec s m e k d n' Hwf ltac:(lia) Hat) as [Hd Hback].
  destruct (shortest_at_shape s m e k d n' Hwf ltac:(lia) Hat) as [Hlead Hn'].
  fold j in Hn'.
  assert (Hkn : Z.of_nat k <= n') by lia.
  (* the digits denote the integer itself *)
  assert (Hp0 : 0 < 10 ^ (Z.of_nat k - 1)) by (apply Z.pow_pos_nonneg; lia).
  assert (HpE : 0 < 10 ^ (n' - Z.of_nat k)) by (apply Z.pow_pos_nonneg; lia).
  assert (Hv : d * 10 ^ (n' - Z.of_nat k) < 10 ^ 13).
  { apply Z.lt_le_trans with (10 ^ Z.of_nat k * 10 ^ (n' - Z.of_nat k)).
    - apply Z.mul_lt_mono_pos_r; lia.
    - rewrite <- Z.pow_add_r by lia. apply Z.pow_le_mono_r; lia. }
  assert (Hexact : round_decimal false d (n' - Z.of_nat k) =
                   of_pos false (d * 10 ^ (n' - Z.of_nat k))).
  { apply round_decimal_exact.
    - split; [nia |]. apply Z.lt_trans with (1 := Hv). reflexivity.
    - replace (Z.max 0 (n' - Z.of_nat k)) with (n' - Z.of_nat k) by lia.
      replace (Z.max 0 (- (n' - Z.of_nat k))) with 0 by lia.
      rewrite Z.pow_0_r. ring. }
  assert (Hval : d * 10 ^ (n' - Z.of_nat k) = n).
  { apply (of_pos_inj false); [| exact Hn53 |].
    - split; [nia |]. apply Z.lt_trans with (1 := Hv). reflexivity.
    - rewrite <- Hexact, Hback. reflexivity. }
  unfold NumberToString. rewrite Hs.
  replace ((Z.of_nat k <=? n') && (n' <=? 21)) with true
    by (symmetry; apply andb_true_iff; split; apply Z.leb_le; lia).
  f_equal.
  assert (Hz : n' - Z.of_nat k = Z.of_nat (Z.to_nat n' - k)) by lia.
  rewrite Hz in Hval.
  replace (nat_string n) with (nat_string (d * 10 ^ Z.of_nat (Z.to_nat n' - k)))
    by (rewrite Hval; reflexivity).
  rewrite (nat_string_digits _ (k + (Z.to_nat n' - k))).
  - apply eq_sym, digits_fixed_shift.
  - lia.
  - rewrite Nat2Z.inj_add.
    replace (Z.of_nat k + Z.of_nat (Z.to_nat n' - k) - 1)
      with ((Z.of_nat k - 1) + Z.of_nat (Z.to_nat n' - k)) by lia.
    rewrite !Z.pow_add_r by lia.
    assert (0 < 10 ^ Z.of_nat (Z.to_nat n' - k)) by (apply Z.pow_pos_nonneg; lia).
    split.
    + apply Z.mul_le_mono_nonneg_r; lia.
    + apply Z.mul_lt_mono_pos_r; lia.
Qed.

Lemma NumberToString_of_int z :
  Z.abs z < 10 ^ 12 -> NumberToString (of_int z) = int_string z.
Proof.
  intros Hz. destruct (Z.eq_dec z 0) as [-> | Nz]; [vm_compute; reflexivity |].
  rewrite (of_int_nonzero z Nz). unfold int_string.
  apply NumberToString_of_pos. lia.
Qed.

(** *** Integer calculations *)

Lemma run_app evs1 : forall evs2 state,
  run (evs1 ++ evs2) state =
    let '(s1, t1) := run evs1 state in
    let '(s2, t2) := run evs2 s1 in
    (s2, (t1 ++ t2)%list).
Proof.
  induction evs1 as [|ev evs1 IH]; intros evs2 state.
  - cbn [app run]. destruct (run evs2 state). reflexivity.
  - cbn [app run]. destruct (dispatch ev state) as [s0 t0]. rewrite IH.
    destruct (run evs1 s0) as [s1 t1]. destruct (run evs2 s1) as [s2 t2].
    rewrite app_assoc. reflexivity.
Qed.

Lemma run_digit_events ds : forall state,
  run (digit_events ds) state = (typeDigits ds state, []).
Proof.
  induction ds as [|c r IH]; intros state; [reflexivity |].
  unfold digit_events in *. cbn [list_ascii_of_string map run dispatch typeDigits].
  rewrite IH. reflexivity.
Qed.

Lemma is_operand_spec ds :
  is_operand ds = true ->
  all_digits ds = true /\ ds <> "" /\ 0 <= digits_value 0 ds < 2 ^ 53.
Proof.
  unfold is_operand. intros H.
  apply andb_true_iff in H as [H Hv]. apply andb_true_iff in H as [Ha He].
  apply Z.ltb_lt in Hv. apply negb_true_iff in He.
  split; [exact Ha |]. split; [intros ->; discriminate |].
  split; [| exact Hv].
  assert (Hnn : forall s acc, 0 <= acc -> all_digits s = true -> 0 <= digits_value acc s).
  { clear. induction s as [|c s IH]; intros acc Hacc Hs; [exact Hacc |].
    cbn [all_digits] in Hs. apply andb_true_iff in Hs as [Hc Hs].
    cbn [digits_value]. apply IH; [| exact Hs].
    unfold is_digit in Hc. apply andb_true_iff in Hc as [Hc _].
    apply Z.leb_le in Hc. unfold digit_val. lia. }
  apply Hnn; [lia | exact Ha].
Qed.

(** A typed operand is read as the integer its digits denote. *)
Lemma typed_operand ds state :
  is_operand ds = true ->
  waitingForOperand state = true \/ display state = "0" ->
  parseFloat (display (typeDigits ds state)) = of_int (digits_value 0 ds) /\
  previousValue (typeDigits ds state) = previousValue state /\
  operation (typeDigits ds state) = operation state.
Proof.
  intros Hop Hfresh. destruct (is_operand_spec ds Hop) as (Ha & Hne & Hv).
  destruct (typeDigits_fresh ds state Hne Hfresh) as [Hd _].
  destruct (typed_numeral_facts ds Ha) as (Hna & Hnv & Hnn).
  destruct (typeDigits_keeps_pending ds state) as [Hp Ho].
  split; [| auto].
  rewrite Hd, (parseFloat_digits _ Hna Hnn), Hnv. apply round_decimal_int, Hv.
Qed.

Lemma or_else_of_int z : or_else (of_int z) zero = of_int z.
Proof. destruct z; reflexivity. Qed.

Lemma of_int_not_zero z : z <> 0 -> strictEq (of_int z) zero = false.
Proof. destruct z; [contradiction | reflexivity | reflexivity]. Qed.

Lemma pow10_12_lt : 10 ^ 12 < 2 ^ 53.
Proof. reflexivity. Qed.

(** The operations of the engine agree with those on integers. *)
Lemma arithmetic_of_int op a b z :
  int_arithmetic op a b = Some z ->
  Z.abs a < 2 ^ 53 -> Z.abs b < 2 ^ 53 -> Z.abs z < 10 ^ 12 ->
  exists r,
    arithmetic op (of_int a) (of_int b) = Some r /\
    same_up_to_zero_sign r (of_int z) /\
    (op = "÷" -> strictEq (of_int b) zero = false).
Proof.
  intros Hint Ha Hb Hz. pose proof pow10_12_lt as H12.
  unfold int_arithmetic in Hint.
  destruct (arithmetic_cases op (of_int a) (of_int b))
    as [[-> Har] | [[-> Har] | [[-> Har] | [[-> Har] | (Har & N1 & N2 & N3 & N4)]]]].
  - cbn in Hint. injection Hint as <-. eexists. split; [exact Har |].
    split; [left; apply add_of_int; lia | discriminate].
  - cbn in Hint. injection Hint as <-. eexists. split; [exact Har |].
    split; [left; apply sub_of_int; lia | discriminate].
  - cbn in Hint. injection Hint as <-. eexists. split; [exact Har |].
    split; [apply mul_of_int; lia | discriminate].
  - cbn [String.eqb Ascii.eqb Bool.eqb] in Hint.
    destruct ((b =? 0) || negb (a mod b =? 0)) eqn:E; [discriminate |].
    injection Hint as <-. apply orb_false_elim in E as [E0 Em].
    apply Z.eqb_neq in E0. apply negb_false_iff, Z.eqb_eq in Em.
    eexists. split; [exact Har |]. split.
    + apply div_of_int; [exact Ha | exact Hb | exact E0 |].
      rewrite Z.mul_comm. apply Z.div_exact; assumption.
    + intros _. apply of_int_not_zero, E0.
  - exfalso.
    destruct (String.eqb_spec op "+"); [contradiction |].
    destruct (String.eqb_spec op "-"); [contradiction |].
    destruct (String.eqb_spec op "×"); [contradiction |].
    destruct (String.eqb_spec op "÷"); [contradiction | discriminate].
Qed.

Lemma int_arithmetic_not_equals op a b z :
  int_arithmetic op a b = Some z -> String.eqb op "=" = false.
Proof.
  intros H. destruct (String.eqb_spec op "=") as [-> |]; [discriminate | reflexivity].
Qed.

(** One step: with an integer pending, typing an integer operand and
    pressing an operator commits the integer result. *)
Lemma integer_step next state op acc ds z :
  previousValue state = Some (of_int acc) -> Z.abs acc < 2 ^ 53 ->
  operation state = Some op ->
  waitingForOperand state = true ->
  is_operand ds = true ->
  int_arithmetic op acc (digits_value 0 ds) = Some z -> Z.abs z < 10 ^ 12 ->
  performOperation next (typeDigits ds state) = (committed next (of_int z), []) /\
  display (committed next (of_int z)) = int_string z.
Proof.
  intros Hpv Hacc Hop Hw Hds Hint Hz.
  destruct (is_operand_spec ds Hds) as (_ & _ & Hv).
  destruct (typed_operand ds state Hds (or_introl Hw)) as (Hparse & Hp & Ho).
  destruct (arithmetic_of_int op acc (digits_value 0 ds) z Hint Hacc ltac:(lia) Hz)
    as (r & Har & Hsame & Hdiv).
  destruct (format_integer_result r z Hsame Hz) as [Hfin Hfmt].
  split; [| apply NumberToString_of_int, Hz].
  rewrite (performOperation_computes next (typeDigits ds state) (of_int acc) op r).
  - rewrite (commit_finite _ _ _ Hfin), Hfmt. reflexivity.
  - rewrite Hp. exact Hpv.
  - rewrite Ho. exact Hop.
  - rewrite or_else_of_int, Hparse. exact Har.
  - rewrite Hparse. exact Hdiv.
Qed.

Lemma chain_armed steps : forall op ds state acc z,
  previousValue state = Some (of_int acc) -> Z.abs acc < 2 ^ 53 ->
  operation state = Some op ->
  waitingForOperand state = true ->
  is_operand ds = true ->
  forallb (fun step => is_operand (snd step)) steps = true ->
  evaluate acc ((op, ds) :: steps) = Some z ->
  run (digit_events ds ++ step_events steps) state =
    (committed "=" (of_int z), []) /\
  display (committed "=" (of_int z)) = int_string z.
Proof.
  induction steps as [|[op' ds'] rest IH]; intros op ds state acc z
    Hpv Hacc Hop Hw Hds Hall Hev; cbn [evaluate] in Hev;
    destruct (int_arithmetic op acc (digits_value 0 ds)) as [z1|] eqn:Hint;
    try discriminate;
    destruct (Z.abs z1 <? 10 ^ 12) eqn:Hz1; try discriminate;
    apply Z.ltb_lt in Hz1.
  - injection Hev as <-.
    destruct (integer_step "=" state op acc ds z1 Hpv Hacc Hop Hw Hds Hint Hz1)
      as [Hstep Hdisp].
    split; [| exact Hdisp].
    rewrite run_app, run_digit_events. cbn [step_events run dispatch].
    rewrite Hstep. reflexivity.
  - destruct (integer_step op' state op acc ds z1 Hpv Hacc Hop Hw Hds Hint Hz1)
      as [Hstep _].
    cbn [forallb snd] in Hall. apply andb_true_iff in Hall as [Hds' Hrest].
    assert (Hne : String.eqb op' "=" = false).
    { cbn [evaluate] in Hev.
      destruct (int_arithmetic op' z1 (digits_value 0 ds')) eqn:E; [| discriminate].
      apply (int_arithmetic_not_equals _ _ _ _ E). }
    pose proof pow10_12_lt as H12.
    destruct (IH op' ds' (committed op' (of_int z1)) z1 z) as [Hrun Hdisp];
      try assumption; try lia;
      try (unfold committed; cbn [previousValue operation waitingForOperand];
           rewrite ?Hne; reflexivity).
    split; [| exact Hdisp].
    rewrite run_app, run_digit_events. cbn [step_events run dispatch].
    rewrite Hstep, Hrun. reflexivity.
Qed.

(** X9.  Integer calculations are exact and run from left to right.
    Start from a state with nothing pending and a fresh display, type a
    first operand, then any number of steps (an operator among +, -, ×, ÷
    and an operand), then the equals key.  When the operands are integers
    below [2^53], every division leaves no remainder and every intermediate
    result has at most twelve digits, no toast is fired and the final state
    shows the decimal numeral of the result, with nothing pending.  There is
    no operator precedence: 2 + 3 × 4 = shows "20". *)
Theorem X9_integer_calculations_are_exact ds steps state z :
  previousValue state = None ->
  waitingForOperand state = true \/ display state = "0" ->
  is_operand ds = true ->
  forallb (fun step => is_operand (snd step)) steps = true ->
  steps <> [] ->
  evaluate (digits_value 0 ds) steps = Some z ->
  run (calculation ds steps) state =
    ({| display := int_string z;
        previousValue := None;
        operation := None;
        waitingForOperand := true |}, []).
Proof.
  intros Hpv Hfresh Hds Hall Hne Hev.
  destruct steps as [|[op1 ds1] rest]; [contradiction |].
  cbn [forallb snd] in Hall. apply andb_true_iff in Hall as [Hds1 Hrest].
  destruct (is_operand_spec ds Hds) as (_ & _ & Hv).
  destruct (typed_operand ds state Hds Hfresh) as (Hparse & Hp & _).
  unfold calculation. rewrite run_app, run_digit_events.
  cbn [step_events run dispatch].
  unfold performOperation at 1. rewrite Hp, Hpv, Hparse.
  destruct (chain_armed rest op1 ds1
              {| display := display (typeDigits ds state);
                 previousValue := Some (of_int (digits_value 0 ds));
                 operation := Some op1;
                 waitingForOperand := true |}
              (digits_value 0 ds) z) as [Hrun Hdisp];
    try reflexivity; try assumption; [lia |].
  rewrite Hrun, <- Hdisp. reflexivity.
Qed.

Lemma X9_witness :
  display (fst (run (calculation "2" [("+", "3"); ("×", "4")]) initialState)) = "20" /\
  display (fst (run (calculation "3" [("-", "5")]) initialState)) = "-2" /\
  display (fst (run (calculation "84" [("÷", "4"); ("-", "21")]) initialState)) = "0".
Proof.
  rewrite (X9_integer_calculations_are_exact "2" [("+", "3"); ("×", "4")] initialState 20
             eq_refl (or_intror eq_refl) eq_refl eq_refl ltac:(discriminate) eq_refl).
  rewrite (X9_integer_calculations_are_exact "3" [("-", "5")] initialState (-2)
             eq_refl (or_intror eq_refl) eq_refl eq_refl ltac:(discriminate) eq_refl).
  rewrite (X9_integer_calculations_are_exact "84" [("÷", "4"); ("-", "21")] initialState 0
             eq_refl (or_intror eq_refl) eq_refl eq_refl ltac:(discriminate) eq_refl).
  vm_compute. repeat split.
Defined.

(** ** A result is read back as it was committed *)

Lemma parseFloat_int_string z :
  Z.abs z < 2 ^ 53 -> parseFloat (int_string z) = of_int z.
Proof.
  intros Hz. destruct (Z.eq_dec z 0) as [-> | Nz]; [vm_compute; reflexivity |].
  destruct (nat_string_spec (Z.abs z) ltac:(lia)) as (Ha & Hv & Hn).
  unfold int_string. rewrite <- (append_empty_r (nat_string (Z.abs z))).
  rewrite parseFloat_plain by (try reflexivity; assumption).
  rewrite Hv, (of_int_nonzero z Nz). change (exponent_part "") with 0.
  apply round_decimal_exact; [lia | reflexivity].
Qed.

(** X10.  An integer result of at most twelve digits is displayed as its
    decimal numeral, and the display reads back as the very value that was
    committed; an operator pressed after the equals key therefore arms with
    exactly the result shown. *)
Theorem X10_integer_result_reads_back next op z :
  Z.abs z < 10 ^ 12 ->
  let state := committed next (of_int z) in
  display state = int_string z /\
  parseFloat (display state) = of_int z /\
  (previousValue state = None ->
   performOperation op state =
     ({| display := int_string z;
         previousValue := Some (of_int z);
         operation := Some op;
         waitingForOperand := true |}, [])).
Proof.
  intros Hz state. pose proof pow10_12_lt as H12.
  assert (Hd : display state = int_string z) by (apply NumberToString_of_int, Hz).
  assert (Hp : parseFloat (display state) = of_int z)
    by (rewrite Hd; apply parseFloat_int_string; lia).
  split; [exact Hd |]. split; [exact Hp |].
  intros Hpv. unfold performOperation. rewrite Hpv, Hp, Hd. reflexivity.
Qed.

Lemma X10_witness :
  performOperation "×" (committed "=" (of_int (-42))) =
    ({| display := "-42";
        previousValue := Some (of_int (-42));
        operation := Some "×";
        waitingForOperand := true |}, []).
Proof.
  exact (proj2 (proj2 (X10_integer_result_reads_back "=" "×" (-42) eq_refl)) eq_refl).
Defined.

(** ** Typing a decimal *)

Lemma indexOf_digits s : all_digits s = true -> indexOf s "." = -1.
Proof.
  induction s as [|c s IH]; intros H; [reflexivity |].
  cbn [all_digits] in H. apply andb_true_iff in H as [Hc Hs].
  cbn [indexOf]. rewrite (digit_not_point c Hc), (IH Hs). reflexivity.
Qed.

(** X11.  Typing digits, the decimal point and more digits into a fresh
    display shows the integer part without its leading zeros, the point and
    the fraction digits as typed; the display reads as the nearest number to
    that decimal; a further decimal point changes nothing; the pending value
    and operator are not touched. *)
Theorem X11_typed_decimal ip fp state :
  all_digits ip = true -> ip <> "" -> all_digits fp = true ->
  waitingForOperand state = true \/ display state = "0" ->
  let state' := typeDigits fp (inputDecimal (typeDigits ip state)) in
  display state' = typed_numeral ip ++ "." ++ fp /\
  parseFloat (display state') =
    round_decimal false (digits_value 0 (ip ++ fp)) (- Z.of_nat (String.length fp)) /\
  inputDecimal state' = state' /\
  previousValue state' = previousValue state /\
  operation state' = operation state.
Proof.
  intros Hip Hne Hfp Hfresh state'.
  destruct (typeDigits_fresh ip state Hne Hfresh) as [Hd1 Hw1].
  destruct (typed_numeral_facts ip Hip) as (Hna & Hnv & Hnn).
  set (s1 := typeDigits ip state) in *.
  assert (H2 : display (inputDecimal s1) = typed_numeral ip ++ "." /\
               waitingForOperand (inputDecimal s1) = false).
  { unfold inputDecimal. rewrite Hw1, Hd1, (indexOf_digits _ Hna). cbn. auto. }
  destruct H2 as [Hd2 Hw2].
  destruct (typeDigits_appends fp (inputDecimal s1) Hw2) as [Hd3 Hw3].
  { rewrite Hd2. destruct (typed_numeral ip) as [|c [|c' r]]; cbn; discriminate. }
  { rewrite Hd2. destruct (typed_numeral ip); cbn; discriminate. }
  fold state' in Hd3, Hw3. rewrite Hd2, append_assoc in Hd3.
  split; [exact Hd3 |]. split; [| split].
  - rewrite Hd3. rewrite <- (append_empty_r fp) at 1.
    pose proof (parseFloat_point false (typed_numeral ip) fp "" Hna Hnn Hfp eq_refl) as H.
    cbn [sign_string] in H. change ("" ++ ?x) with x in H. rewrite H.
    rewrite !digits_value_app, Hnv. change (exponent_part "") with 0. reflexivity.
  - unfold inputDecimal. rewrite Hw3, Hd3.
    destruct (Z.eqb_spec (indexOf (typed_numeral ip ++ "." ++ fp) ".") (-1)) as [E |];
      [destruct (indexOf_point _ _ E) | reflexivity].
  - unfold state'.
    destruct (typeDigits_keeps_pending fp (inputDecimal s1)) as [-> ->].
    destruct (inputDecimal_keeps_pending s1) as [-> ->].
    apply typeDigits_keeps_pending.
Qed.

Lemma X11_witness :
  display (typeDigits "25" (inputDecimal (typeDigits "03" initialState))) = "3.25" /\
  parseFloat (display (typeDigits "25" (inputDecimal (typeDigits "03" initialState)))) =
    round_decimal false 325 (-2).
Proof.
  pose proof (X11_typed_decimal "03" "25" initialState
                eq_refl ltac:(discriminate) eq_refl (or_intror eq_refl)) as H.
  cbv zeta in H. split; [exact (proj1 H) | exact (proj1 (proj2 H))].
Defined.

(** ** The display while an operand is typed *)

Lemma canonical_single c : is_digit c = true -> CanonicalDisplay (String c "").
Proof.
  intros Hc. exists (String c "").
  split; [cbn; rewrite Hc; reflexivity |]. split; [discriminate |].
  split; [reflexivity | left; reflexivity].
Qed.

Lemma canonical_digit d c :
  CanonicalDisplay d -> d <> "0" -> is_digit c = true ->
  CanonicalDisplay (d ++ String c "").
Proof.
  intros (ip & Hip & Hne & Hlz & [-> | (fp & Hfp & ->)]) H0 Hc.
  - exists (ip ++ String c "").
    split; [rewrite all_digits_app, Hip; cbn; rewrite Hc; reflexivity |].
    split; [destruct ip; [congruence | discriminate] |].
    split; [| left; reflexivity].
    destruct ip as [|a [|b r]]; [congruence | | exact Hlz].
    cbn. destruct (Ascii.eqb_spec a "0") as [-> |]; [congruence | reflexivity].
  - exists ip. split; [exact Hip |]. split; [exact Hne |]. split; [exact Hlz |].
    right. exists (fp ++ String c ""). split.
    + rewrite all_digits_app, Hfp. cbn. rewrite Hc. reflexivity.
    + rewrite !append_assoc. reflexivity.
Qed.

Lemma canonical_point d :
  CanonicalDisplay d -> indexOf d "." = -1 -> CanonicalDisplay (d ++ ".").
Proof.
  intros (ip & Hip & Hne & Hlz & [-> | (fp & Hfp & ->)]) Hidx.
  - exists ip. split; [exact Hip |]. split; [exact Hne |]. split; [exact Hlz |].
    right. exists "". split; reflexivity.
  - exfalso. exact (indexOf_point ip fp Hidx).
Qed.

Lemma canonical_zero : CanonicalDisplay "0".
Proof. apply canonical_single. reflexivity. Qed.

Lemma canonical_zero_point : CanonicalDisplay "0.".
Proof.
  exists "0". split; [reflexivity |]. split; [discriminate |].
  split; [reflexivity |]. right. exists "". split; reflexivity.
Qed.

(** [performOperation] leaves [waitingForOperand] unset only where it leaves
    the state as it is or resets it. *)
Lemma performOperation_not_waiting op state :
  waitingForOperand (fst (performOperation op state)) = false ->
  fst (performOperation op state) = state \/
  fst (performOperation op state) = initialState.
Proof.
  destruct (performOperation_cases op state)
    as [[_ ->] | (pv & Hpv & [[-> _] | [(Hop & Hz & ->) | (st & r & Hop & Ha & _ & ->)]])];
    cbn [fst waitingForOperand]; try discriminate; auto.
  destruct (isFinite r) eqn:Hfin.
  - rewrite (commit_finite _ _ _ Hfin). cbn [fst committed waitingForOperand]. discriminate.
  - rewrite (commit_not_finite _ _ _ Hfin). auto.
Qed.

(** X12.  In every reachable state where an operand is being typed
    ([waitingForOperand] unset) the display is canonical: digits without a
    superfluous leading zero, then at most one point followed by digits.  It
    never starts with a sign or a point and never shows a numeral such as
    "007". *)
Theorem X12_operand_being_typed_is_canonical state :
  reachable state -> waitingForOperand state = false ->
  CanonicalDisplay (display state).
Proof.
  induction 1 as [|state d _ IH Hd|state _ IH|state _ IH|state op _ IH Hop].
  - intros _. exact canonical_zero.
  - unfold inputNumber. destruct (waitingForOperand state) eqn:Hw;
      cbn [display waitingForOperand]; intros _.
    + apply canonical_single, Hd.
    + destruct (String.eqb_spec (display state) "0") as [E | N].
      * apply canonical_single, Hd.
      * apply canonical_digit; auto.
  - unfold inputDecimal. destruct (waitingForOperand state) eqn:Hw.
    + intros _. exact canonical_zero_point.
    + destruct (Z.eqb_spec (indexOf (display state) ".") (-1)) as [E | N].
      * intros _. cbn [display]. apply canonical_point; auto.
      * intros _. auto.
  - intros _. exact canonical_zero.
  - intros Hw. destruct (performOperation_not_waiting op state Hw) as [E | E];
      rewrite E in *; [auto | exact canonical_zero].
Qed.

Lemma X12_witness :
  CanonicalDisplay
    (display (fst (pressKeys ["0"; "0"; "7"; "."; "5"; "."] initialState))).
Proof.
  apply X12_operand_being_typed_is_canonical; [| reflexivity].
  apply pressKeys_reachable; [reflexivity | constructor].
Defined.

(** ** Rounding to nearest *)

Lemma shr_1_fields m r s :
  0 <= m ->
  shr_1 {| shr_m := m; shr_r := r; shr_s := s |} =
    {| shr_m := m / 2; shr_r := Z.odd m; shr_s := r || s |}.
Proof.
  intros Hm.
  pose proof (shr_1_m {| shr_m := m; shr_r := r; shr_s := s |} Hm) as Hdiv.
  cbn [shr_m] in Hdiv.
  destruct m as [|[p|p|]|p]; try lia; cbn [shr_1 Z.odd] in *; rewrite <- Hdiv; reflexivity.
Qed.

Lemma shr_1_locates X Y r :
  0 <= X -> 0 < Y -> locates X Y r -> locates X (Y * 2) (shr_1 r).
Proof.
  intros HX HY. destruct r as [m rb sb]. unfold locates. cbn [shr_m shr_r shr_s].
  intros (Hm & Hr & Hs).
  assert (Hm0 : 0 <= m) by (rewrite Hm; apply Z.div_pos; lia).
  rewrite (shr_1_fields m rb sb Hm0). cbn [shr_m shr_r shr_s].
  pose proof (Z.mod_pos_bound X Y HY) as Hrho.
  assert (Hdiv : X / (Y * 2) = m / 2) by (rewrite Hm, Z.div_div by lia; reflexivity).
  assert (Hmod : X mod (Y * 2) = X mod Y + Y * (m mod 2))
    by (rewrite Hm; apply Z.rem_mul_r; lia).
  rewrite Hdiv, Hmod, Zmod_odd. subst rb sb.
  split; [reflexivity |].
  destruct (Z.odd m); split;
    repeat match goal with
    | |- context [?a <=? ?b] => destruct (Z.leb_spec a b)
    | |- context [?a =? ?b] => destruct (Z.eqb_spec a b)
    end; cbn; try reflexivity; lia.
Qed.

Lemma iter_pos_shr_1_locates p : forall X Y r,
  0 <= X -> 0 < Y -> locates X Y r ->
  locates X (Y * 2 ^ Zpos p) (iter_pos shr_1 p r).
Proof.
  induction p as [p IH|p IH|]; intros X Y r HX HY Hloc; cbn [iter_pos].
  - assert (Hp : 0 < 2 ^ Zpos p) by (apply pow2_pos; lia).
    replace (Y * 2 ^ Z.pos p~1) with (Y * 2 * 2 ^ Zpos p * 2 ^ Zpos p).
    + apply IH; [exact HX | nia |]. apply IH; [exact HX | lia |].
      apply shr_1_locates; assumption.
    + replace (Z.pos p~1) with (1 + Z.pos p + Z.pos p) by lia.
      rewrite !Z.pow_add_r by lia. ring.
  - assert (Hp : 0 < 2 ^ Zpos p) by (apply pow2_pos; lia).
    replace (Y * 2 ^ Z.pos p~0) with (Y * 2 ^ Zpos p * 2 ^ Zpos p).
    + apply IH; [exact HX | nia |]. apply IH; assumption.
    + replace (Z.pos p~0) with (Z.pos p + Z.pos p) by lia.
      rewrite !Z.pow_add_r by lia. ring.
  - change (2 ^ 1) with 2. apply shr_1_locates; assumption.
Qed.

(** The location the division computes for its remainder. *)
Lemma new_location_locates X Y :
  0 <= X -> 0 < Y ->
  locates X Y (shr_record_of_loc (X / Y) (new_location Y (X mod Y))).
Proof.
  intros HX HY. pose proof (Z.mod_pos_bound X Y HY) as Hrho.
  set (rho := X mod Y) in *.
  unfold locates, new_location, new_location_even, new_location_odd.
  destruct (Z.even Y) eqn:Hev.
  - destruct (Z.eqb_spec rho 0) as [E0 | N0].
    + cbn [shr_record_of_loc shr_m shr_r shr_s]. fold rho. rewrite E0.
      split; [reflexivity |]. split; [| reflexivity].
      symmetry. apply Z.leb_gt. lia.
    + destruct (Z.compare_spec (2 * rho) Y) as [E | L | G];
        cbn [shr_record_of_loc shr_m shr_r shr_s]; fold rho;
        (split; [reflexivity |]);
        repeat match goal with
        | |- context [?a <=? ?b] => destruct (Z.leb_spec a b)
        | |- context [?a =? ?b] => destruct (Z.eqb_spec a b)
        end; cbn; try (split; reflexivity); lia.
  - assert (Hodd : Z.odd Y = true) by (rewrite <- Z.negb_even, Hev; reflexivity).
    apply Z.odd_spec in Hodd. destruct Hodd as [k Hk].
    destruct (Z.eqb_spec rho 0) as [E0 | N0].
    + cbn [shr_record_of_loc shr_m shr_r shr_s]. fold rho. rewrite E0.
      split; [reflexivity |]. split; [| reflexivity].
      symmetry. apply Z.leb_gt. lia.
    + destruct (Z.compare_spec (2 * rho + 1) Y) as [E | L | G];
        cbn [shr_record_of_loc shr_m shr_r shr_s]; fold rho;
        (split; [reflexivity |]);
        repeat match goal with
        | |- context [?a <=? ?b] => destruct (Z.leb_spec a b)
        | |- context [?a =? ?b] => destruct (Z.eqb_spec a b)
        end; cbn; try (split; reflexivity); lia.
Qed.

Lemma exact_locates m : 0 <= m -> locates m 1 (shr_record_of_loc m loc_Exact).
Proof.
  intros Hm. unfold locates. cbn [shr_record_of_loc shr_m shr_r shr_s].
  rewrite Z.div_1_r, Z.mod_1_r. repeat split.
Qed.

(** Rounding a located record gives the nearest integer. *)
Lemma round_located X Y r :
  0 <= X -> 0 < Y -> locates X Y r ->
  round_nearest_even (shr_m r) (loc_of_shr_record r) = nearest_even X Y.
Proof.
  intros HX HY. destruct r as [m rb sb]. unfold locates, nearest_even.
  cbn [shr_m shr_r shr_s]. intros (Hm & Hr & Hs).
  pose proof (Z.mod_pos_bound X Y HY) as Hrho.
  rewrite <- Hm. subst rb sb.
  repeat match goal with
  | |- context [?a <=? ?b] => destruct (Z.leb_spec a b)
  | |- context [?a <? ?b] => destruct (Z.ltb_spec a b)
  | |- context [?a =? ?b] => destruct (Z.eqb_spec a b)
  end; cbn; try reflexivity; lia.
Qed.

(** [binary_round_aux] on a located mantissa: the nearest integer at the
    exponent the format asks for, then [finish]. *)
Lemma binary_round_aux_located s X Y mx ex lx :
  0 <= X -> 0 < Y ->
  locates X Y (shr_record_of_loc mx lx) ->
  binary_round_aux prec emax s mx ex lx =
    finish s (nearest_even X (Y * 2 ^ shift_of mx ex)) (ex + shift_of mx ex).
Proof.
  intros HX HY Hloc.
  assert (Hmx : mx = X / Y).
  { destruct Hloc as [Hm _]. rewrite shr_record_of_loc_m in Hm. exact Hm. }
  unfold binary_round_aux, finish.
  assert (Hfirst : exists r1,
            shr_fexp prec emax mx ex lx = (r1, ex + shift_of mx ex) /\
            locates X (Y * 2 ^ shift_of mx ex) r1).
  { unfold shr_fexp, shr, shift_of.
    destruct (fexp prec emax (Zdigits2 mx + ex) - ex) as [|p|p] eqn:En.
    - eexists. split; [rewrite Z.add_0_r; reflexivity |].
      cbn [Z.max Z.compare]. rewrite Z.pow_0_r, Z.mul_1_r. exact Hloc.
    - eexists. split; [reflexivity |].
      replace (Z.max 0 (Z.pos p)) with (Z.pos p) by lia.
      apply iter_pos_shr_1_locates; assumption.
    - eexists. split; [rewrite Z.add_0_r; reflexivity |].
      cbn [Z.max Z.compare]. rewrite Z.pow_0_r, Z.mul_1_r. exact Hloc. }
  destruct Hfirst as (r1 & -> & Hloc1).
  assert (HY' : 0 < Y * 2 ^ shift_of mx ex)
    by (apply Z.mul_pos_pos; [exact HY | apply pow2_pos; unfold shift_of; lia]).
  rewrite (round_located X (Y * 2 ^ shift_of mx ex) r1 HX HY' Hloc1).
  reflexivity.
Qed.

(** An integer within less than a half of the quotient is the nearest. *)
Lemma nearest_even_capture X Y T :
  0 < Y -> 2 * Z.abs (X - T * Y) < Y -> nearest_even X Y = T.
Proof.
  intros HY Hnear. unfold nearest_even.
  pose proof (Z.mod_pos_bound X Y HY) as Hrho.
  pose proof (Z.div_mod X Y ltac:(lia)) as Hdm.
  set (q := X / Y) in *. set (rho := X mod Y) in *.
  assert (Hcase : T = q \/ T = q + 1) by nia.
  destruct (Z.ltb_spec (2 * rho) Y) as [L | G].
  - destruct Hcase as [-> | ->]; [reflexivity | nia].
  - destruct (Z.eqb_spec (2 * rho) Y) as [E | N]; cbn [andb].
    + nia.
    + destruct Hcase as [-> | ->]; [nia | reflexivity].
Qed.

Lemma fexp_mono a b : a <= b -> fexp prec emax a <= fexp prec emax b.
Proof. intros H. rewrite !fexp_eq. lia. Qed.

Lemma fexp_ge z : -1074 <= fexp prec emax z.
Proof. rewrite fexp_eq. lia. Qed.

Lemma pow2_lt_inv a b : 0 <= b -> 2 ^ a < 2 ^ b -> a < b.
Proof.
  intros Hb H. destruct (Z_lt_le_dec a b) as [L | G]; [exact L | exfalso].
  assert (2 ^ b <= 2 ^ a) by (apply Z.pow_le_mono_r; lia). lia.
Qed.

(** The division of two integer mantissas, with the location of the
    remainder. *)
Lemma div_core_located num den :
  let e' := Z.min (fexp prec emax (Zdigits2 (Zpos num) - Zdigits2 (Zpos den))) 0 in
  let X := Zpos num * 2 ^ (- e') in
  SFdiv_core_binary prec emax (Zpos num) 0 (Zpos den) 0 =
    (X / Zpos den, e', new_location (Zpos den) (X mod Zpos den)).
Proof.
  intros e' X. unfold SFdiv_core_binary.
  replace (Zdigits2 (Z.pos num) + 0 - (Zdigits2 (Z.pos den) + 0))
    with (Zdigits2 (Zpos num) - Zdigits2 (Zpos den)) by lia.
  change (0 - 0) with 0. fold e'. cbv zeta.
  set (m' := match 0 - e' with
             | 0 => Z.pos num
             | Z.pos _ => Z.shiftl (Z.pos num) (0 - e')
             | Z.neg _ => 0
             end).
  assert (Hm' : m' = X).
  { unfold m', X. assert (He : e' <= 0) by (unfold e'; lia).
    replace (0 - e') with (- e') by lia.
    destruct (- e') as [|p|p] eqn:Ee; [lia | | lia].
    apply Z.shiftl_mul_pow2. lia. }
  rewrite Hm'. unfold Z.div, Z.modulo.
  destruct (Z.div_eucl X (Z.pos den)) as [q r]. reflexivity.
Qed.

(** What [round_decimal] computes for a positive decimal [A / B]: the
    exponent [e] of its binade (no less than -1074) and the integer nearest
    to [A / B / 2^e], handed to [finish]. *)
Lemma round_decimal_spec s M E :
  0 < M * 10 ^ Z.max 0 E ->
  exists e X Y,
    -1074 <= e /\ 0 <= X /\ 0 < Y /\
    X * (2 ^ (e + 1074) * 10 ^ Z.max 0 (- E)) = M * 10 ^ Z.max 0 E * 2 ^ 1074 * Y /\
    M * 10 ^ Z.max 0 E * 2 ^ 1074 < 2 ^ (53 + e + 1074) * 10 ^ Z.max 0 (- E) /\
    (-1074 < e ->
     2 ^ (52 + e + 1074) * 10 ^ Z.max 0 (- E) <= M * 10 ^ Z.max 0 E * 2 ^ 1074) /\
    round_decimal s M E = finish s (nearest_even X Y) e.
Proof.
  intros HA. unfold round_decimal.
  set (B := 10 ^ Z.max 0 (- E)) in *.
  assert (HB : 0 < B) by apply pow10_pos.
  destruct (M * 10 ^ Z.max 0 E) as [|num|num] eqn:Hnum; try lia.
  set (den := Z.to_pos B).
  assert (Eden : Zpos den = B) by (apply Z2Pos.id, HB).
  unfold SFdiv. rewrite div_core_located. cbv zeta. rewrite xorb_false_r.
  rewrite Eden.
  set (dA := Zdigits2 (Zpos num)). set (dB := Zdigits2 B).
  set (e' := Z.min (fexp prec emax (dA - dB)) 0).
  set (X := Z.pos num * 2 ^ (- e')).
  pose proof (fexp_ge (dA - dB)) as Hf0.
  assert (He' : -1074 <= e' <= 0) by (unfold e'; lia).
  assert (He'f : e' <= fexp prec emax (dA - dB)) by (unfold e'; lia).
  assert (Hpe : 0 < 2 ^ (- e')) by (apply pow2_pos; lia).
  assert (HX : 0 < X) by (unfold X; apply Z.mul_pos_pos; lia).
  set (q := X / B).
  assert (Hq0 : 0 <= q) by (apply Z.div_pos; lia).
  pose proof (Z.div_mod X B ltac:(lia)) as Hdm. fold q in Hdm.
  pose proof (Z.mod_pos_bound X B HB) as Hrho.
  rewrite (binary_round_aux_located s X B q e' _ ltac:(lia) HB)
    by (apply new_location_locates; lia).
  set (dq := Zdigits2 q).
  pose proof (Zdigits2_nonneg q) as Hdq0. fold dq in Hdq0.
  pose proof (Zdigits2_upper q Hq0) as Hqup. fold dq in Hqup.
  (* the digits of the quotient *)
  pose proof (Zdigits2_upper (Zpos num) ltac:(lia)) as HAup. fold dA in HAup.
  pose proof (Zdigits2_lower (Zpos num) ltac:(lia)) as HAlo. fold dA in HAlo.
  pose proof (Zdigits2_upper B ltac:(lia)) as HBup. fold dB in HBup.
  pose proof (Zdigits2_lower B HB) as HBlo. fold dB in HBlo.
  pose proof (Zdigits2_pos (Zpos num) ltac:(lia)) as HdA. fold dA in HdA.
  pose proof (Zdigits2_pos B HB) as HdB. fold dB in HdB.
  assert (HXup : X < 2 ^ dq * B).
  { apply Z.lt_le_trans with ((q + 1) * B); [lia |].
    apply Z.mul_le_mono_nonneg_r; lia. }
  assert (Hstar : dA - dB <= dq + e').
  { enough (dA - 1 - e' < dq + dB) by lia.
    apply pow2_lt_inv; [lia |].
    assert (H2q : 0 < 2 ^ dq) by (apply pow2_pos; lia).
    apply Z.le_lt_trans with X.
    - unfold X. replace (dA - 1 - e') with (dA - 1 + - e') by lia.
      rewrite Z.pow_add_r by lia. apply Z.mul_le_mono_nonneg_r; lia.
    - apply Z.lt_trans with (1 := HXup). rewrite Z.pow_add_r by lia.
      apply Z.mul_lt_mono_pos_l; assumption. }
  pose proof (fexp_mono _ _ Hstar) as Hmono.
  assert (Hshift : shift_of q e' = fexp prec emax (dq + e') - e')
    by (unfold shift_of; fold dq; lia).
  rewrite Hshift.
  replace (e' + (fexp prec emax (dq + e') - e')) with (fexp prec emax (dq + e')) by lia.
  set (e := fexp prec emax (dq + e')) in *.
  assert (He : -1074 <= e) by apply fexp_ge.
  assert (Hedq : dq + e' - 53 <= e) by (unfold e; rewrite fexp_eq; lia).
  assert (Hpn : 0 < 2 ^ (e - e')) by (apply pow2_pos; lia).
  assert (Hpc : 0 < 2 ^ (1074 + e')) by (apply pow2_pos; lia).
  assert (Hscale : Z.pos num * 2 ^ 1074 = X * 2 ^ (1074 + e')).
  { unfold X. rewrite <- Z.mul_assoc, <- Z.pow_add_r by lia. do 2 f_equal. lia. }
  exists e, X, (B * 2 ^ (e - e')).
  split; [exact He |]. split; [lia |]. split; [apply Z.mul_pos_pos; assumption |].
  split; [| split; [| split; [| reflexivity]]].
  - rewrite Hscale.
    replace (2 ^ (e + 1074)) with (2 ^ (1074 + e') * 2 ^ (e - e'))
      by (rewrite <- Z.pow_add_r by lia; f_equal; lia).
    ring.
  - rewrite Hscale.
    replace (2 ^ (53 + e + 1074)) with (2 ^ (53 + e - e') * 2 ^ (1074 + e'))
      by (rewrite <- Z.pow_add_r by lia; f_equal; lia).
    assert (2 ^ dq <= 2 ^ (53 + e - e')) by (apply Z.pow_le_mono_r; lia).
    assert (X < 2 ^ (53 + e - e') * B).
    { apply Z.lt_le_trans with (1 := HXup). apply Z.mul_le_mono_nonneg_r; lia. }
    replace (2 ^ (53 + e - e') * 2 ^ (1074 + e') * B)
      with (2 ^ (53 + e - e') * B * 2 ^ (1074 + e')) by ring.
    apply Z.mul_lt_mono_pos_r; assumption.
  - intros Hnorm.
    assert (Hedq' : e = dq + e' - 53) by (unfold e in *; rewrite fexp_eq in *; lia).
    assert (Hqpos : 0 < q).
    { destruct (Z.eq_dec q 0) as [E0 | N0]; [exfalso | lia].
      unfold dq in *. rewrite E0 in *. cbn [Zdigits2] in *.
      rewrite fexp_eq in He'f. lia. }
    pose proof (Zdigits2_lower q Hqpos) as Hqlo. fold dq in Hqlo.
    rewrite Hscale.
    replace (2 ^ (52 + e + 1074)) with (2 ^ (dq - 1) * 2 ^ (1074 + e'))
      by (rewrite <- Z.pow_add_r by lia; f_equal; lia).
    assert (2 ^ (dq - 1) * B <= X).
    { apply Z.le_trans with (q * B); [apply Z.mul_le_mono_nonneg_r; lia | lia]. }
    replace (2 ^ (dq - 1) * 2 ^ (1074 + e') * B)
      with (2 ^ (dq - 1) * B * 2 ^ (1074 + e')) by ring.
    apply Z.mul_le_mono_nonneg_r; lia.
Qed.

Lemma bounded_spec m e :
  bounded prec emax m e = true ->
  fexp prec emax (Zdigits2 (Zpos m) + e) = e /\ -1074 <= e <= 971 /\
  Zdigits2 (Zpos m) <= 53 /\ (Zdigits2 (Zpos m) = 53 \/ e = -1074).
Proof.
  unfold bounded, canonical_mantissa. intros H.
  apply andb_true_iff in H as [Hc He]. apply Z.eqb_eq in Hc. apply Z.leb_le in He.
  change (Z.pos (digits2_pos m)) with (Zdigits2 (Zpos m)) in Hc.
  unfold emax, prec in He. split; [exact Hc |].
  rewrite fexp_eq in Hc. lia.
Qed.

Lemma finish_canonical s m e :
  bounded prec emax m e = true -> finish s (Zpos m) e = S754_finite s m e.
Proof.
  intros Hb. destruct (bounded_spec m e Hb) as (Hc & He & _).
  unfold finish, shr_fexp, shr. rewrite Hc, Z.sub_diag.
  cbn [shr_record_of_loc shr_m].
  replace (e <=? emax - prec) with true; [reflexivity |].
  symmetry. apply Z.leb_le. unfold emax, prec. lia.
Qed.

Lemma finish_carry s e :
  -1074 <= e -> e + 1 <= 971 ->
  finish s 9007199254740992 e = S754_finite s 4503599627370496 (e + 1).
Proof.
  intros Hlo Hhi. unfold finish, shr_fexp, shr.
  change (Zdigits2 9007199254740992) with 54. rewrite fexp_eq.
  replace (Z.max (54 + e - 53) (-1074) - e) with 1 by lia.
  cbn [iter_pos shr_record_of_loc shr_1 shr_m].
  replace (e + 1 <=? emax - prec) with true; [reflexivity |].
  symmetry. apply Z.leb_le. unfold emax, prec. lia.
Qed.

Lemma pow2_le_mono a b : 0 <= a <= b -> 2 ^ a <= 2 ^ b.
Proof. intros H. apply Z.pow_le_mono_r; lia. Qed.

Lemma pow2_split a b : 0 <= a -> 0 <= b -> 2 ^ (a + b) = 2 ^ a * 2 ^ b.
Proof. intros. apply Z.pow_add_r; assumption. Qed.

(** The binade of a positive quotient is unique. *)
Lemma binade_unique W B e1 e2 :
  0 < B -> -1074 <= e1 -> -1074 <= e2 ->
  W < 2 ^ (53 + e1 + 1074) * B ->
  (-1074 < e1 -> 2 ^ (52 + e1 + 1074) * B <= W) ->
  W < 2 ^ (53 + e2 + 1074) * B ->
  (-1074 < e2 -> 2 ^ (52 + e2 + 1074) * B <= W) ->
  e1 = e2.
Proof.
  intros HB H1 H2 U1 L1 U2 L2.
  destruct (Z.lt_trichotomy e1 e2) as [Hlt | [Heq | Hgt]]; [exfalso | exact Heq | exfalso].
  - specialize (L2 ltac:(lia)).
    assert (2 ^ (53 + e1 + 1074) <= 2 ^ (52 + e2 + 1074)) by (apply pow2_le_mono; lia).
    nia.
  - specialize (L1 ltac:(lia)).
    assert (2 ^ (53 + e2 + 1074) <= 2 ^ (52 + e1 + 1074)) by (apply pow2_le_mono; lia).
    nia.
Qed.

Lemma capture_scaled X Y W H T :
  0 < Y -> 0 < H -> X * H = W * Y ->
  2 * Z.abs (W - T * H) < H -> 2 * Z.abs (X - T * Y) < Y.
Proof.
  intros HY HH Heq Hnear.
  apply (Z.mul_lt_mono_pos_r H); [exact HH |].
  replace (2 * Z.abs (X - T * Y) * H) with (2 * Z.abs ((X - T * Y) * H))
    by (rewrite Z.abs_mul, (Z.abs_eq H) by lia; ring).
  replace ((X - T * Y) * H) with ((W - T * H) * Y) by lia.
  rewrite Z.abs_mul, (Z.abs_eq Y) by lia.
  replace (Y * H) with (H * Y) by ring.
  rewrite Z.mul_assoc. apply Z.mul_lt_mono_pos_r; assumption.
Qed.

(** A decimal that is nearer to a binary64 value than to any other is read
    as that value: within half a unit of its last place, and within a
    quarter below a power of two, where the values below lie twice as
    close. *)
Lemma round_decimal_capture s M E m e :
  bounded prec emax m e = true ->
  0 < M * 10 ^ Z.max 0 E ->
  2 * Z.abs (M * 10 ^ Z.max 0 E * 2 ^ 1074 -
             Zpos m * (2 ^ (e + 1074) * 10 ^ Z.max 0 (- E))) <
    2 ^ (e + 1074) * 10 ^ Z.max 0 (- E) ->
  (Zpos m = 2 ^ 52 -> -1074 < e ->
   M * 10 ^ Z.max 0 E * 2 ^ 1074 < Zpos m * (2 ^ (e + 1074) * 10 ^ Z.max 0 (- E)) ->
   4 * (Zpos m * (2 ^ (e + 1074) * 10 ^ Z.max 0 (- E)) - M * 10 ^ Z.max 0 E * 2 ^ 1074) <
     2 ^ (e + 1074) * 10 ^ Z.max 0 (- E)) ->
  round_decimal s M E = S754_finite s m e.
Proof.
  intros Hb HA Hnear Hquarter.
  destruct (bounded_spec m e Hb) as (Hc & He & Hd53 & Hnorm).
  destruct (round_decimal_spec s M E HA)
    as (e0 & X & Y & He0 & HX & HY & Hscale & Hup & Hlow & ->).
  set (B := 10 ^ Z.max 0 (- E)) in *.
  set (W := M * 10 ^ Z.max 0 E * 2 ^ 1074) in *.
  assert (HB : 0 < B) by apply pow10_pos.
  assert (HG : 0 < 2 ^ (e + 1074)) by (apply pow2_pos; lia).
  set (K := 2 ^ (e + 1074) * B) in *.
  assert (HK : 0 < K) by (apply Z.mul_pos_pos; assumption).
  assert (Hm53 : Zpos m + 1 <= 9007199254740992).
  { enough (Zpos m < 2 ^ 53) by (change (2 ^ 53) with 9007199254740992 in *; lia).
    apply Z.lt_le_trans with (2 ^ Zdigits2 (Zpos m)).
    - apply Zdigits2_upper. lia.
    - apply pow2_le_mono. pose proof (Zdigits2_nonneg (Zpos m)). lia. }
  assert (H53K : 2 ^ (53 + e + 1074) * B = 9007199254740992 * K).
  { unfold K. replace (53 + e + 1074) with (53 + (e + 1074)) by lia.
    rewrite pow2_split by lia. change (2 ^ 53) with 9007199254740992. ring. }
  assert (H52K : 2 ^ (52 + e + 1074) * B = 4503599627370496 * K).
  { unfold K. replace (52 + e + 1074) with (52 + (e + 1074)) by lia.
    rewrite pow2_split by lia. change (2 ^ 52) with 4503599627370496. ring. }
  assert (HmK : (Zpos m + 1) * K <= 9007199254740992 * K)
    by (apply Z.mul_le_mono_nonneg_r; lia).
  rewrite Z.mul_add_distr_r, Z.mul_1_l in HmK.
  (* the general case: the binade of the decimal is that of the value *)
  assert (Hsame :
            (-1074 < e -> 4503599627370496 * K <= W) ->
            finish s (nearest_even X Y) e0 = S754_finite s m e).
  { intros Hl.
    assert (E0 : e0 = e).
    { apply (binade_unique W B e0 e HB He0 ltac:(lia) Hup Hlow).
      - rewrite H53K. clearbody K W. lia.
      - rewrite H52K. exact Hl. }
    subst e0.
    rewrite (nearest_even_capture X Y (Zpos m) HY), finish_canonical;
      [reflexivity | exact Hb |].
    apply (capture_scaled X Y W K); [exact HY | exact HK | exact Hscale | exact Hnear]. }
  destruct (Z.eq_dec (Zpos m) (2 ^ 52)) as [Em | Nm].
  - change (2 ^ 52) with 4503599627370496 in Em.
    destruct (Z_lt_le_dec W (Zpos m * K)) as [Hbelow | Habove].
    + destruct (Z_lt_le_dec (-1074) e) as [Hgt | Hle]; [| apply Hsame; lia].
      (* just below a power of two *)
      assert (Hq : 4 * (Zpos m * K - W) < K).
      { apply Hquarter; [rewrite Em; reflexivity | exact Hgt | exact Hbelow]. }
      set (K' := 2 ^ (e - 1 + 1074) * B).
      assert (HK' : 0 < K') by (apply Z.mul_pos_pos; [apply pow2_pos; lia | exact HB]).
      assert (HKK : K = 2 * K').
      { unfold K, K'. replace (e + 1074) with (1 + (e - 1 + 1074)) by lia.
        rewrite pow2_split by lia. change (2 ^ 1) with 2. ring. }
      assert (H53K' : 2 ^ (53 + (e - 1) + 1074) * B = 9007199254740992 * K').
      { unfold K'. replace (53 + (e - 1) + 1074) with (53 + (e - 1 + 1074)) by lia.
        rewrite pow2_split by lia. change (2 ^ 53) with 9007199254740992. ring. }
      assert (H52K' : 2 ^ (52 + (e - 1) + 1074) * B = 4503599627370496 * K').
      { unfold K'. replace (52 + (e - 1) + 1074) with (52 + (e - 1 + 1074)) by lia.
        rewrite pow2_split by lia. change (2 ^ 52) with 4503599627370496. ring. }
      rewrite Em in Hq, Hbelow.
      assert (E0 : e0 = e - 1).
      { apply (binade_unique W B e0 (e - 1) HB He0 ltac:(lia) Hup Hlow).
        - rewrite H53K'. clearbody K K' W. lia.
        - intros _. rewrite H52K'. clearbody K K' W. lia. }
      subst e0.
      assert (Hcap : nearest_even X Y = 9007199254740992).
      { apply nearest_even_capture; [exact HY |].
        apply (capture_scaled X Y W K'); [exact HY | exact HK' | exact Hscale |].
        clearbody K K' W. lia. }
      rewrite Hcap, finish_carry by lia.
      replace (e - 1 + 1) with e by lia. f_equal.
      apply Pos2Z.inj. rewrite Em. reflexivity.
    + apply Hsame. intros _. rewrite Em in Habove. exact Habove.
  - apply Hsame. intros Hgt.
    assert (Hd : Zdigits2 (Zpos m) = 53) by lia.
    pose proof (Zdigits2_lower (Zpos m) ltac:(lia)) as Hmlo. rewrite Hd in Hmlo.
    change (2 ^ (53 - 1)) with 4503599627370496 in Hmlo.
    change (2 ^ 52) with 4503599627370496 in Nm.
    assert (HmK2 : (4503599627370496 + 1) * K <= Zpos m * K)
      by (apply Z.mul_le_mono_nonneg_r; lia).
    rewrite Z.mul_add_distr_r, Z.mul_1_l in HmK2.
    clearbody K W. lia.
Qed.

(** ** Seventeen digits always read back *)

Lemma bounded_well_formed s m e :
  bounded prec emax m e = true -> well_formed (S754_finite s m e).
Proof.
  intros Hb. destruct (bounded_spec m e Hb) as (_ & He & Hd & _).
  split; [| lia].
  apply Z.lt_le_trans with (2 ^ Zdigits2 (Zpos m)).
  - apply Zdigits2_upper. lia.
  - apply pow2_le_mono. pose proof (Zdigits2_nonneg (Zpos m)). lia.
Qed.

Lemma pow2_balance e :
  -1074 <= e -> 2 ^ 1074 * 2 ^ Z.max 0 e = 2 ^ (e + 1074) * 2 ^ Z.max 0 (- e).
Proof.
  intros He. rewrite <- !Z.pow_add_r by lia. f_equal. lia.
Qed.

Lemma scaled_sign x Q K c : 0 < Q -> 0 < K -> x * Q = K * c -> x < 0 -> c < 0.
Proof. intros HQ HK Heq Hx. nia. Qed.

Lemma scaled_pos c B B' k : 0 < B -> 0 < B' -> 0 < k -> c * B = B' * k -> 0 < c.
Proof. intros HB HB' Hk Heq. nia. Qed.

(** A decimal [d * 10^E] whose distance [c] from [m * 2^e], counted in
    units of [1 / (2^max(0,-e) * 10^max(0,-E))], is small enough, reads
    back as [m * 2^e]. *)
Lemma candidate_reads_back s m e d E c :
  bounded prec emax m e = true ->
  0 < d ->
  d * 10 ^ Z.max 0 E * 2 ^ Z.max 0 (- e) -
    Zpos m * 2 ^ Z.max 0 e * 10 ^ Z.max 0 (- E) = c ->
  2 * Z.abs c < 2 ^ Z.max 0 e * 10 ^ Z.max 0 (- E) ->
  (Zpos m = 2 ^ 52 -> -1074 < e -> c < 0 ->
   4 * - c < 2 ^ Z.max 0 e * 10 ^ Z.max 0 (- E)) ->
  round_decimal s d E = S754_finite s m e.
Proof.
  intros Hb Hd Hc Hnear Hquarter.
  destruct (bounded_spec m e Hb) as (_ & He & _).
  pose proof (pow2_balance e ltac:(lia)) as Hbal.
  set (A := d * 10 ^ Z.max 0 E) in *.
  set (B := 10 ^ Z.max 0 (- E)) in *.
  set (P := 2 ^ Z.max 0 e) in *. set (Q := 2 ^ Z.max 0 (- e)) in *.
  set (G := 2 ^ (e + 1074)) in *.
  assert (HB : 0 < B) by apply pow10_pos.
  assert (HT : 0 < 10 ^ Z.max 0 E) by apply pow10_pos.
  assert (HP : 0 < P) by (apply pow2_pos; lia).
  assert (HQ : 0 < Q) by (apply pow2_pos; lia).
  assert (HG : 0 < G) by (apply pow2_pos; lia).
  assert (H1074 : 0 < 2 ^ 1074) by (apply pow2_pos; lia).
  assert (HA : 0 < A) by (unfold A; apply Z.mul_pos_pos; assumption).
  (* the distance in the units of the capture lemma *)
  assert (Hz : (A * 2 ^ 1074 - Zpos m * (G * B)) * Q = 2 ^ 1074 * c).
  { rewrite <- Hc.
    transitivity (A * Q * 2 ^ 1074 - Z.pos m * B * (G * Q)); [ring |].
    rewrite <- Hbal. ring. }
  assert (HGB : G * B * Q = 2 ^ 1074 * (P * B)).
  { transitivity (G * Q * B); [ring |]. rewrite <- Hbal. ring. }
  apply round_decimal_capture; [exact Hb | exact HA | |].
  - change (2 * Z.abs (A * 2 ^ 1074 - Z.pos m * (G * B)) < G * B).
    apply (Z.mul_lt_mono_pos_r Q); [exact HQ |].
    replace (2 * Z.abs (A * 2 ^ 1074 - Z.pos m * (G * B)) * Q)
      with (2 * Z.abs ((A * 2 ^ 1074 - Z.pos m * (G * B)) * Q))
      by (rewrite Z.abs_mul, (Z.abs_eq Q) by lia; ring).
    rewrite Hz, HGB, Z.abs_mul, (Z.abs_eq (2 ^ 1074)) by lia.
    replace (2 * (2 ^ 1074 * Z.abs c)) with (2 ^ 1074 * (2 * Z.abs c)) by ring.
    apply Z.mul_lt_mono_pos_l; assumption.
  - intros Em Hgt Hbelow.
    change (A * 2 ^ 1074 < Z.pos m * (G * B)) in Hbelow.
    change (4 * (Z.pos m * (G * B) - A * 2 ^ 1074) < G * B).
    assert (Hcneg : c < 0).
    { apply (scaled_sign (A * 2 ^ 1074 - Z.pos m * (G * B)) Q (2 ^ 1074));
        [exact HQ | exact H1074 | exact Hz | lia]. }
    specialize (Hquarter Em Hgt Hcneg).
    apply (Z.mul_lt_mono_pos_r Q); [exact HQ |].
    replace (4 * (Z.pos m * (G * B) - A * 2 ^ 1074) * Q)
      with (4 * - ((A * 2 ^ 1074 - Z.pos m * (G * B)) * Q)) by ring.
    rewrite Hz, HGB.
    replace (4 * - (2 ^ 1074 * c)) with (2 ^ 1074 * (4 * - c)) by ring.
    apply Z.mul_lt_mono_pos_l; assumption.
Qed.

Lemma pow2_53_lt : 2 ^ 53 < 10 ^ 16.
Proof. reflexivity. Qed.

Lemma pick_some (lo_ok hi_ok nearer : bool) (x y : Z * Z) :
  lo_ok = true \/ hi_ok = true ->
  exists d n,
    (if lo_ok && (negb hi_ok || nearer) then Some x
     else if hi_ok then Some y else None) = Some (d, n).
Proof.
  destruct x as [x1 x2], y as [y1 y2].
  destruct lo_ok, hi_ok, nearer; cbn; intros [H | H]; try discriminate; eauto.
Qed.

(** With seventeen digits the decimal next below or the one next above
    reads back. *)
Lemma shortest_at_17 m e :
  bounded prec emax m e = true ->
  exists d n, shortest_at 17 m e = Some (d, n).
Proof.
  intros Hb. pose proof (bounded_well_formed false m e Hb) as Hwf.
  destruct (bounded_spec m e Hb) as (_ & He & _).
  pose proof (leading_digits_ge false m e 17 Hwf ltac:(lia)) as Hge.
  pose proof (leading_digits_lt false m e 17 Hwf ltac:(lia)) as Hlt.
  unfold shortest_at. change (Z.of_nat 17) with 17.
  set (j := decimal_exponent m e) in *.
  destruct (scaled m e (j - 17 + 1)) as [a b] eqn:Es.
  unfold scaled in Es. replace (j - 17 + 1) with (j - 16) in Es by lia.
  set (E := j - 16) in *.
  set (T := 10 ^ Z.max 0 E) in *. set (B := 10 ^ Z.max 0 (- E)) in *.
  set (P := 2 ^ Z.max 0 e) in *. set (Q := 2 ^ Z.max 0 (- e)) in *.
  assert (Ha : a = Z.pos m * P * B) by congruence.
  assert (Hb' : b = Q * T) by congruence.
  clear Es.
  assert (HB : 0 < B) by apply pow10_pos.
  assert (HT : 0 < T) by apply pow10_pos.
  assert (HP : 0 < P) by (apply pow2_pos; lia).
  assert (HQ : 0 < Q) by (apply pow2_pos; lia).
  assert (Hb0 : 0 < b) by (rewrite Hb'; apply Z.mul_pos_pos; assumption).
  change (10 ^ (17 - 1)) with (10 ^ 16) in *.
  pose proof pow2_53_lt as H5316.
  destruct Hwf as [Hm53 _].
  (* one unit of the seventeenth digit is less than one unit of the last
     binary place *)
  assert (Hunit : b < P * B).
  { apply (Z.mul_lt_mono_pos_l (10 ^ 16)); [reflexivity |].
    apply Z.le_lt_trans with (1 := Hge). rewrite Ha.
    replace (10 ^ 16 * (P * B)) with (10 ^ 16 * P * B) by ring.
    apply Z.mul_lt_mono_pos_r; [exact HB |].
    apply Z.mul_lt_mono_pos_r; [exact HP | lia]. }
  assert (Hunit2 : Zpos m = 2 ^ 52 -> 2 * b < P * B).
  { intros Em. apply (Z.mul_lt_mono_pos_l (10 ^ 16)); [reflexivity |].
    apply Z.le_lt_trans with (2 * a); [lia |]. rewrite Ha, Em.
    assert (HPB : 0 < P * B) by (apply Z.mul_pos_pos; assumption).
    change (10 ^ 16) with 10000000000000000. change (2 ^ 52) with 4503599627370496.
    rewrite <- Z.mul_assoc. clearbody P B. lia. }
  pose proof (Z.div_mod a b ltac:(lia)) as Hdm.
  pose proof (Z.mod_pos_bound a b Hb0) as Hrho.
  cbv zeta.
  set (lo := a / b) in *. set (rho := a mod b) in *.
  assert (Hdm' : Z.pos m * P * B = Q * T * lo + rho) by (rewrite <- Ha, <- Hb'; exact Hdm).
  assert (Hlo16 : 10 ^ 16 <= lo) by (apply Z.div_le_lower_bound; lia).
  assert (Hlo17 : lo < 10 ^ 17) by (apply Hlt).
  clearbody lo rho. clear Hlt Hge.
  change (10 ^ 16) with 10000000000000000 in *.
  change (10 ^ 17) with 100000000000000000 in *.
  assert (Hlo : rho <= b - rho -> reads_back m e lo (j - 17 + 1) = true).
  { intros Hnear. unfold reads_back. replace (j - 17 + 1) with E by (unfold E; lia).
    rewrite (candidate_reads_back false m e lo E (- rho) Hb); [apply same_refl | lia | | |].
    - fold T Q P B. lia.
    - fold P B. rewrite Z.abs_opp, Z.abs_eq by lia. lia.
    - fold P B. intros Em _ _. specialize (Hunit2 Em). lia. }
  destruct (lo + 1 <? 100000000000000000) eqn:Ecarry; cbv beta iota; apply pick_some.
  - destruct (Z_le_gt_dec rho (b - rho)) as [Hnear | Hfar]; [left; auto | right].
    unfold reads_back. replace (j - 17 + 1) with E by (unfold E; lia).
    rewrite (candidate_reads_back false m e (lo + 1) E (b - rho) Hb);
      [apply same_refl | lia | | |].
    + fold T Q P B. rewrite Hb'. lia.
    + fold P B. rewrite Z.abs_eq by lia. lia.
    + intros _ _ Hneg. lia.
  - destruct (Z_le_gt_dec rho (b - rho)) as [Hnear | Hfar]; [left; auto | right].
    apply Z.ltb_ge in Ecarry.
    assert (Hlo17' : lo + 1 = 100000000000000000) by lia.
    unfold reads_back. replace (j + 1 - 17 + 1) with (E + 1) by (unfold E; lia).
    pose proof (pow10_balance E 1 ltac:(lia)) as Hbal. fold T B in Hbal.
    set (T' := 10 ^ Z.max 0 (E + 1)) in *.
    set (B' := 10 ^ Z.max 0 (- (E + 1))) in *.
    assert (HB' : 0 < B') by apply pow10_pos.
    assert (HT' : 0 < T') by apply pow10_pos.
    change (10 ^ 1) with 10 in Hbal.
    set (c := 10000000000000000 * T' * Q - Z.pos m * P * B').
    assert (Hc : c * B = B' * (b - rho)).
    { unfold c. clearbody T' B' T B P Q.
      transitivity (10000000000000000 * Q * (T' * B) - Z.pos m * P * B * B'); [ring |].
      rewrite <- Hbal, <- Ha.
      transitivity (B' * (100000000000000000 * (Q * T) - a)); [ring |].
      rewrite <- Hb', <- Hlo17'. f_equal. lia. }
    assert (Hcpos : 0 < c)
      by (apply (scaled_pos c B B' (b - rho)); [exact HB | exact HB' | lia | exact Hc]).
    assert (Hsmall : 2 * c < P * B').
    { clearbody c T' B' T B P Q.
      apply (Z.mul_lt_mono_pos_r B); [exact HB |].
      rewrite <- Z.mul_assoc, Hc.
      replace (2 * (B' * (b - rho))) with (B' * (2 * (b - rho))) by ring.
      replace (P * B' * B) with (B' * (P * B)) by ring.
      apply Z.mul_lt_mono_pos_l; [exact HB' | lia]. }
    rewrite (candidate_reads_back false m e 10000000000000000 (E + 1) c Hb);
      [apply same_refl | reflexivity | reflexivity | |].
    + fold P B'. rewrite Z.abs_eq by lia. exact Hsmall.
    + intros _ _ Hneg. lia.
Qed.

(** ** A number is read back from its string *)

Lemma binary_round_aux_sign_eq s mx ex lx m e :
  binary_round_aux prec emax false mx ex lx = S754_finite false m e ->
  binary_round_aux prec emax s mx ex lx = S754_finite s m e.
Proof.
  unfold binary_round_aux.
  destruct (shr_fexp prec emax mx ex lx) as [mrs1 e1].
  destruct (shr_fexp prec emax _ e1 loc_Exact) as [mrs2 e2].
  destruct (shr_m mrs2); try discriminate.
  destruct (e2 <=? emax - prec); [| discriminate].
  intros H. assert (p = m) by congruence. assert (e2 = e) by congruence.
  subst. reflexivity.
Qed.

Lemma round_decimal_sign_eq s M E m e :
  round_decimal false M E = S754_finite false m e ->
  round_decimal s M E = S754_finite s m e.
Proof.
  unfold round_decimal.
  destruct (M * 10 ^ Z.max 0 E) as [|num|num]; try discriminate.
  unfold SFdiv.
  destruct (SFdiv_core_binary prec emax (Z.pos num) 0 _ 0) as [[q e'] l].
  rewrite !xorb_false_r. apply binary_round_aux_sign_eq.
Qed.

(** [parseFloat(String(x)) = x] for every finite binary64 value that is not
    a zero. *)
Lemma parseFloat_NumberToString_finite s m e :
  bounded prec emax m e = true ->
  parseFloat (NumberToString (S754_finite s m e)) = S754_finite s m e.
Proof.
  intros Hb. pose proof (bounded_well_formed s m e Hb) as Hwf.
  destruct (shortest_at_17 m e Hb) as (d0 & n0 & H17).
  destruct (shortest_seq_first m e 17 1 17 d0 n0 ltac:(lia) H17)
    as (k & d & n & Hs & Hk & Hat).
  pose proof (parseFloat_NumberToString s m e Hwf) as Hparse.
  rewrite Hs in Hparse. rewrite Hparse.
  destruct (shortest_at_spec s m e k d n Hwf ltac:(lia) Hat) as [_ Hback].
  apply round_decimal_sign_eq, Hback.
Qed.

Lemma parseFloat_NumberToString_valid x :
  valid_binary prec emax x = true ->
  same_up_to_zero_sign (parseFloat (NumberToString x)) x.
Proof.
  intros Hv. destruct x as [s|s| |s m e].
  - right. exists false, s. split; reflexivity.
  - left. destruct s; reflexivity.
  - left. reflexivity.
  - left. apply parseFloat_NumberToString_finite, Hv.
Qed.

(** *** What is read is a valid binary64 value *)

Lemma nearest_even_bounds X Y lo hi :
  0 < Y -> lo * Y <= X < hi * Y -> lo <= nearest_even X Y <= hi.
Proof.
  intros HY [Hlo Hhi]. unfold nearest_even.
  pose proof (Z.div_mod X Y ltac:(lia)) as Hdm.
  pose proof (Z.mod_pos_bound X Y HY) as Hrho.
  assert (lo <= X / Y) by (apply Z.div_le_lower_bound; lia).
  assert (X / Y < hi) by (apply Z.div_lt_upper_bound; lia).
  destruct (2 * (X mod Y) <? Y); [lia |].
  destruct ((2 * (X mod Y) =? Y) && Z.even (X / Y)); lia.
Qed.

Lemma finish_valid s R e :
  -1074 <= e -> 0 <= R <= 2 ^ 53 -> (-1074 < e -> 2 ^ 52 <= R) ->
  valid_binary prec emax (finish s R e) = true.
Proof.
  intros He HR Hnorm.
  destruct (Z.eq_dec R (2 ^ 53)) as [-> | Ntop].
  - unfold finish, shr_fexp, shr.
    change (Zdigits2 (2 ^ 53)) with 54. rewrite fexp_eq.
    replace (Z.max (54 + e - 53) (-1074) - e) with 1 by lia.
    cbn [iter_pos shr_record_of_loc]. change (2 ^ 53) with 9007199254740992.
    cbn [shr_1 shr_m].
    destruct (e + 1 <=? emax - prec) eqn:Ele; [| reflexivity].
    apply Z.leb_le in Ele. unfold emax, prec in Ele.
    unfold valid_binary, bounded, canonical_mantissa.
    change (Z.pos (digits2_pos 4503599627370496)) with 53.
    rewrite fexp_eq. apply andb_true_iff. split; [apply Z.eqb_eq | apply Z.leb_le];
      unfold emax, prec; lia.
  - destruct R as [|r|r]; [| | lia].
    + unfold finish, shr_fexp, shr. cbn [Zdigits2]. rewrite fexp_eq.
      destruct (Z.max (0 + e - 53) (-1074) - e) as [|p|p] eqn:En; try lia; reflexivity.
    + assert (Hr53 : Zdigits2 (Zpos r) <= 53) by (apply Zdigits2_lt_pow2; lia).
      pose proof (Zdigits2_pos (Zpos r) ltac:(lia)) as Hr1.
      assert (Hcanon : fexp prec emax (Zdigits2 (Zpos r) + e) = e).
      { rewrite fexp_eq. destruct (Z.eq_dec e (-1074)) as [-> | Ne]; [lia |].
        specialize (Hnorm ltac:(lia)).
        assert (53 <= Zdigits2 (Zpos r)).
        { replace 53 with (Zdigits2 (2 ^ 52)) by reflexivity.
          apply Zdigits2_mono; [reflexivity | exact Hnorm]. }
        lia. }
      unfold finish, shr_fexp, shr. rewrite Hcanon, Z.sub_diag.
      cbn [shr_record_of_loc shr_m].
      destruct (e <=? emax - prec) eqn:Ele; [| reflexivity].
      unfold valid_binary, bounded, canonical_mantissa.
      change (Z.pos (digits2_pos r)) with (Zdigits2 (Zpos r)).
      rewrite Hcanon, Z.eqb_refl, Ele. reflexivity.
Qed.

Lemma round_decimal_valid s M E :
  valid_binary prec emax (round_decimal s M E) = true.
Proof.
  destruct (Z_lt_le_dec 0 (M * 10 ^ Z.max 0 E)) as [Hpos | Hneg].
  - destruct (round_decimal_spec s M E Hpos)
      as (e & X & Y & He & HX & HY & Hscale & Hup & Hlow & ->).
    set (B := 10 ^ Z.max 0 (- E)) in *.
    set (W := M * 10 ^ Z.max 0 E * 2 ^ 1074) in *.
    assert (HB : 0 < B) by apply pow10_pos.
    set (H := 2 ^ (e + 1074) * B) in *.
    assert (HH : 0 < H) by (apply Z.mul_pos_pos; [apply pow2_pos; lia | exact HB]).
    assert (H53 : 2 ^ (53 + e + 1074) * B = 2 ^ 53 * H)
      by (unfold H; replace (53 + e + 1074) with (53 + (e + 1074)) by lia;
          rewrite pow2_split by lia; ring).
    assert (H52 : 2 ^ (52 + e + 1074) * B = 2 ^ 52 * H)
      by (unfold H; replace (52 + e + 1074) with (52 + (e + 1074)) by lia;
          rewrite pow2_split by lia; ring).
    rewrite H53 in Hup. rewrite H52 in Hlow.
    assert (HXup : X < 2 ^ 53 * Y).
    { apply (Z.mul_lt_mono_pos_r H); [exact HH |]. rewrite Hscale.
      replace (2 ^ 53 * Y * H) with (2 ^ 53 * H * Y) by ring.
      apply Z.mul_lt_mono_pos_r; assumption. }
    apply finish_valid; [exact He | |].
    + apply nearest_even_bounds; [exact HY |]. lia.
    + intros Hgt. specialize (Hlow Hgt).
      apply (nearest_even_bounds X Y (2 ^ 52) (2 ^ 53) HY). split; [| exact HXup].
      apply (Z.mul_le_mono_pos_r _ _ H); [exact HH |]. rewrite Hscale.
      replace (2 ^ 52 * Y * H) with (2 ^ 52 * H * Y) by ring.
      apply Z.mul_le_mono_nonneg_r; lia.
  - unfold round_decimal. destruct (M * 10 ^ Z.max 0 E); try reflexivity; lia.
Qed.

Lemma parseFloat_valid str : valid_binary prec emax (parseFloat str) = true.
Proof.
  unfold parseFloat.
  destruct (take_sign (trim_start str)) as [neg s1].
  destruct (String.prefix "Infinity" s1); [reflexivity |].
  destruct (span_digits s1) as [ip r1].
  destruct (match r1 with String "." r => span_digits r | _ => (EmptyString, r1) end)
    as [fp r2].
  destruct (ip ++ fp); [reflexivity | apply round_decimal_valid].
Qed.

Lemma formatResult_valid result : valid_binary prec emax (formatResult result) = true.
Proof. apply parseFloat_valid. Qed.

Lemma committed_reads_back nextOperation result :
  same_up_to_zero_sign
    (parseFloat (display (committed nextOperation (formatResult result))))
    (formatResult result).
Proof. apply parseFloat_NumberToString_valid, formatResult_valid. Qed.

(** X13.  After a commit the display reads back as the committed result.
    When [performOperation] commits a finite result, the new display is the
    string of the rounded result, and [parseFloat] of that display is the
    rounded result again (up to the sign of a zero, which the string does not
    show); so the value stored as [previousValue], when an operator other than
    the equals sign was pressed, is the value the display reads as. *)
Theorem X13_display_reads_back_as_the_committed_result
    nextOperation state pv op result :
  previousValue state = Some pv ->
  operation state = Some op ->
  arithmetic op (or_else pv zero) (parseFloat (display state)) = Some result ->
  (op = "÷" -> strictEq (parseFloat (display state)) zero = false) ->
  isFinite result = true ->
  let state' := fst (performOperation nextOperation state) in
  display state' = NumberToString (formatResult result) /\
  same_up_to_zero_sign (parseFloat (display state')) (formatResult result) /\
  (nextOperation <> "=" ->
   exists v, previousValue state' = Some v /\
             same_up_to_zero_sign (parseFloat (display state')) v).
Proof.
  intros Hpv Hop Har Hdiv Hfin state'. subst state'.
  rewrite (performOperation_computes _ _ _ _ _ Hpv Hop Har Hdiv).
  rewrite (commit_finite _ _ _ Hfin). cbn [fst].
  split; [reflexivity |]. split; [apply committed_reads_back |].
  intros Hne. exists (formatResult result). split; [| apply committed_reads_back].
  unfold committed. cbn [previousValue].
  destruct (String.eqb_spec nextOperation "="); [contradiction | reflexivity].
Qed.

Lemma X13_witness :
  let state := fst (pressKeys ["0"; "."; "1"; "+"; "0"; "."; "2"] initialState) in
  display (fst (performOperation "×" state)) = "0.3" /\
  parseFloat (display (fst (performOperation "×" state))) = parseFloat "0.3".
Proof.
  cbv zeta.
  pose proof (X13_display_reads_back_as_the_committed_result "×"
                (fst (pressKeys ["0"; "."; "1"; "+"; "0"; "."; "2"] initialState))
                (parseFloat "0.1") "+" (add (parseFloat "0.1") (parseFloat "0.2"))
                eq_refl eq_refl eq_refl ltac:(discriminate) eq_refl) as H.
  cbv zeta in H. destruct H as (Hd & Hs & _).
  split.
  - rewrite Hd. vm_compute. reflexivity.
  - destruct Hs as [Hs | (a & b & _ & Hz)].
    + rewrite Hs. vm_compute. reflexivity.
    + exfalso. vm_compute in Hz. discriminate.
Defined.

(** X14.  In every reachable state that waits for an operand with a value
    pending, the display reads as the pending value (up to the sign of a
    zero): right after an operator key the number shown and the number
    stored are the same. *)
Theorem X14_waiting_display_is_the_pending_value state :
  reachable state ->
  waitingForOperand state = true ->
  forall v, previousValue state = Some v ->
  same_up_to_zero_sign (parseFloat (display state)) v.
Proof.
  induction 1 as [|state d _ IH Hd|state _ IH|state _ IH|state op _ IH Hop].
  - discriminate.
  - unfold inputNumber. destruct (waitingForOperand state) eqn:Hw;
      cbn [waitingForOperand]; [discriminate | congruence].
  - unfold inputDecimal. destruct (waitingForOperand state) eqn:Hw;
      [cbn [waitingForOperand]; discriminate |].
    destruct (indexOf (display state) "." =? -1);
      cbn [waitingForOperand]; congruence.
  - discriminate.
  - destruct (performOperation_cases op state)
      as [[Hnone ->] | (pv & Hpv & [[-> _] | [(Hst & Hz & ->) | (st & r & Hst & Ha & _ & ->)]])];
      cbn [fst]; try exact IH.
    + cbn [waitingForOperand previousValue display]. intros _ v [= <-].
      left. reflexivity.
    + destruct (isFinite r) eqn:Hfin.
      * rewrite (commit_finite _ _ _ Hfin). cbn [fst]. intros _ v.
        unfold committed at 1. cbn [previousValue].
        destruct (String.eqb op "="); [discriminate |]. intros [= <-].
        apply committed_reads_back.
      * rewrite (commit_not_finite _ _ _ Hfin). discriminate.
Qed.

Lemma X14_witness :
  same_up_to_zero_sign
    (parseFloat (display (fst (pressKeys ["7"; "/"; "8"; "-"] initialState))))
    (parseFloat "0.875").
Proof.
  apply X14_waiting_display_is_the_pending_value.
  - apply pressKeys_reachable; [reflexivity | constructor].
  - vm_compute. reflexivity.
  - vm_compute. reflexivity.
Defined.

(** ** What reads back as a value lies near it *)

Lemma nearest_even_near X Y :
  0 < Y -> 2 * Z.abs (X - nearest_even X Y * Y) <= Y.
Proof.
  intros HY. unfold nearest_even.
  pose proof (Z.div_mod X Y ltac:(lia)) as Hdm.
  pose proof (Z.mod_pos_bound X Y HY) as Hrho.
  set (q := X / Y) in *. set (rho := X mod Y) in *.
  assert (E1 : X - q * Y = rho) by lia.
  assert (E2 : X - (q + 1) * Y = rho - Y) by lia.
  clearbody q rho.
  destruct (Z.ltb_spec (2 * rho) Y).
  - rewrite E1. lia.
  - destruct ((2 * rho =? Y) && Z.even q) eqn:Et.
    + apply andb_true_iff in Et as [Et _]. apply Z.eqb_eq in Et. rewrite E1. lia.
    + rewrite E2. lia.
Qed.

Lemma scaled_compare r r' Y Y' :
  0 < Y -> 0 < Y' -> r' * Y = r * Y' ->
  (2 * r <? Y) = (2 * r' <? Y') /\ (2 * r =? Y) = (2 * r' =? Y').
Proof.
  intros HY HY' Heq.
  assert (Hd : (2 * r - Y) * Y' = (2 * r' - Y') * Y) by lia.
  split.
  - destruct (Z.ltb_spec (2 * r) Y), (Z.ltb_spec (2 * r') Y'); try reflexivity; nia.
  - destruct (Z.eqb_spec (2 * r) Y), (Z.eqb_spec (2 * r') Y'); try reflexivity; nia.
Qed.

(** The nearest integer depends on the quotient only. *)
Lemma nearest_even_ratio X Y X' Y' :
  0 < Y -> 0 < Y' -> X * Y' = X' * Y -> nearest_even X Y = nearest_even X' Y'.
Proof.
  intros HY HY' Heq. unfold nearest_even.
  pose proof (Z.div_mod X Y ltac:(lia)) as Hdm.
  pose proof (Z.mod_pos_bound X Y HY) as Hrho.
  set (q := X / Y) in *. set (rho := X mod Y) in *. clearbody q rho.
  set (r' := X' - q * Y').
  assert (Hr : r' * Y = rho * Y') by (unfold r'; rewrite Hdm in Heq; lia).
  assert (Hr0 : 0 <= r' < Y') by (clearbody r'; nia).
  assert (Hq' : X' / Y' = q) by (symmetry; apply (Z.div_unique X' Y' q r'); unfold r' in *; lia).
  assert (Hm' : X' mod Y' = r')
    by (symmetry; apply (Z.mod_unique X' Y' q r'); unfold r' in *; lia).
  rewrite Hq', Hm'.
  destruct (scaled_compare rho r' Y Y' HY HY' Hr) as [-> ->]. reflexivity.
Qed.

Lemma near_scaled X Y W H T :
  0 < Y -> 0 < H -> X * H = W * Y ->
  2 * Z.abs (X - T * Y) <= Y -> 2 * Z.abs (W - T * H) <= H.
Proof.
  intros HY HH Heq Hnear.
  apply (Z.mul_le_mono_pos_r _ _ Y); [exact HY |].
  replace (2 * Z.abs (W - T * H) * Y) with (2 * Z.abs ((W - T * H) * Y))
    by (rewrite Z.abs_mul, (Z.abs_eq Y) by lia; ring).
  replace ((W - T * H) * Y) with ((X - T * Y) * H) by lia.
  rewrite Z.abs_mul, (Z.abs_eq H) by lia.
  replace (H * Y) with (Y * H) by ring.
  rewrite Z.mul_assoc. apply Z.mul_le_mono_nonneg_r; lia.
Qed.

(** The two ways [finish] gives a finite value: the rounded mantissa as it
    is, or the carry into the next binade. *)
Lemma finish_inv s R e0 m e :
  -1074 <= e0 -> 0 <= R <= 2 ^ 53 -> (-1074 < e0 -> 2 ^ 52 <= R) ->
  finish s R e0 = S754_finite s m e ->
  (Zpos m = R /\ e = e0 /\ R < 2 ^ 53) \/
  (R = 2 ^ 53 /\ Zpos m = 2 ^ 52 /\ e = e0 + 1).
Proof.
  intros He HR Hnorm Hfin.
  destruct (Z.eq_dec R (2 ^ 53)) as [-> | Ntop].
  - right. change (2 ^ 53) with 9007199254740992 in Hfin.
    destruct (Z_le_gt_dec (e0 + 1) 971) as [Hle | Hgt].
    + rewrite finish_carry in Hfin by lia.
      assert (m = 4503599627370496%positive) by congruence.
      assert (e = e0 + 1) by congruence. subst. repeat split.
    + exfalso. unfold finish, shr_fexp, shr in Hfin.
      change (Zdigits2 9007199254740992) with 54 in Hfin. rewrite fexp_eq in Hfin.
      replace (Z.max (54 + e0 - 53) (-1074) - e0) with 1 in Hfin by lia.
      cbn [iter_pos shr_record_of_loc shr_1 shr_m] in Hfin.
      replace (e0 + 1 <=? emax - prec) with false in Hfin; [discriminate |].
      symmetry. apply Z.leb_gt. unfold emax, prec. lia.
  - left. destruct R as [|r|r]; [| | lia].
    + exfalso. unfold finish, shr_fexp, shr in Hfin. cbn [Zdigits2] in Hfin.
      rewrite fexp_eq in Hfin.
      destruct (Z.max (0 + e0 - 53) (-1074) - e0) as [|p|p] eqn:En; try lia; discriminate.
    + assert (Hr53 : Zdigits2 (Zpos r) <= 53) by (apply Zdigits2_lt_pow2; lia).
      pose proof (Zdigits2_pos (Zpos r) ltac:(lia)) as Hr1.
      assert (Hcanon : fexp prec emax (Zdigits2 (Zpos r) + e0) = e0).
      { rewrite fexp_eq. destruct (Z.eq_dec e0 (-1074)) as [-> | Ne]; [lia |].
        specialize (Hnorm ltac:(lia)).
        assert (53 <= Zdigits2 (Zpos r)).
        { replace 53 with (Zdigits2 (2 ^ 52)) by reflexivity.
          apply Zdigits2_mono; [reflexivity | exact Hnorm]. }
        lia. }
      unfold finish, shr_fexp, shr in Hfin. rewrite Hcanon, Z.sub_diag in Hfin.
      cbn [shr_record_of_loc shr_m] in Hfin.
      destruct (e0 <=? emax - prec); [| discriminate].
      assert (r = m) by congruence. assert (e0 = e) by congruence. subst.
      split; [reflexivity |]. split; [reflexivity | lia].
Qed.

(** A decimal [M * 10^E] that is read as the finite value [m * 2^e] lies
    within half a unit of the last place of it, and within a quarter when it
    lies below a power of two. *)
Lemma round_decimal_near s M E m e :
  round_decimal s M E = S754_finite s m e ->
  -1074 <= e /\ 0 < M * 10 ^ Z.max 0 E /\
  2 * Z.abs (M * 10 ^ Z.max 0 E * 2 ^ 1074 -
             Zpos m * (2 ^ (e + 1074) * 10 ^ Z.max 0 (- E))) <=
    2 ^ (e + 1074) * 10 ^ Z.max 0 (- E) /\
  (Zpos m = 2 ^ 52 -> -1074 < e ->
   M * 10 ^ Z.max 0 E * 2 ^ 1074 < Zpos m * (2 ^ (e + 1074) * 10 ^ Z.max 0 (- E)) ->
   4 * (Zpos m * (2 ^ (e + 1074) * 10 ^ Z.max 0 (- E)) - M * 10 ^ Z.max 0 E * 2 ^ 1074) <=
     2 ^ (e + 1074) * 10 ^ Z.max 0 (- E)).
Proof.
  intros Hr.
  assert (HA : 0 < M * 10 ^ Z.max 0 E).
  { unfold round_decimal in Hr. destruct (M * 10 ^ Z.max 0 E); try discriminate; lia. }
  destruct (round_decimal_spec s M E HA)
    as (e0 & X & Y & He0 & HX & HY & Hscale & Hup & Hlow & Hfin).
  rewrite Hfin in Hr. clear Hfin.
  set (B := 10 ^ Z.max 0 (- E)) in *.
  set (W := M * 10 ^ Z.max 0 E * 2 ^ 1074) in *.
  assert (HB : 0 < B) by apply pow10_pos.
  set (H := 2 ^ (e0 + 1074) * B) in *.
  assert (HH : 0 < H) by (apply Z.mul_pos_pos; [apply pow2_pos; lia | exact HB]).
  assert (H53 : 2 ^ (53 + e0 + 1074) * B = 9007199254740992 * H)
    by (unfold H; replace (53 + e0 + 1074) with (53 + (e0 + 1074)) by lia;
        rewrite pow2_split by lia; change (2 ^ 53) with 9007199254740992; ring).
  assert (H52 : 2 ^ (52 + e0 + 1074) * B = 4503599627370496 * H)
    by (unfold H; replace (52 + e0 + 1074) with (52 + (e0 + 1074)) by lia;
        rewrite pow2_split by lia; change (2 ^ 52) with 4503599627370496; ring).
  rewrite H53 in Hup. rewrite H52 in Hlow.
  assert (HXup : X < 2 ^ 53 * Y).
  { apply (Z.mul_lt_mono_pos_r H); [exact HH |]. rewrite Hscale.
    replace (2 ^ 53 * Y * H) with (9007199254740992 * H * Y)
      by (change (2 ^ 53) with 9007199254740992; ring).
    apply Z.mul_lt_mono_pos_r; assumption. }
  assert (HR : 0 <= nearest_even X Y <= 2 ^ 53)
    by (apply nearest_even_bounds; [exact HY | lia]).
  assert (HRn : -1074 < e0 -> 2 ^ 52 <= nearest_even X Y).
  { intros Hgt. specialize (Hlow Hgt).
    apply (nearest_even_bounds X Y (2 ^ 52) (2 ^ 53) HY). split; [| exact HXup].
    apply (Z.mul_le_mono_pos_r _ _ H); [exact HH |]. rewrite Hscale.
    replace (2 ^ 52 * Y * H) with (4503599627370496 * H * Y)
      by (change (2 ^ 52) with 4503599627370496; ring).
    apply Z.mul_le_mono_nonneg_r; lia. }
  pose proof (near_scaled X Y W H (nearest_even X Y) HY HH Hscale
                (nearest_even_near X Y HY)) as Hnear.
  set (R := nearest_even X Y) in *. clearbody R.
  destruct (finish_inv s R e0 m e He0 HR HRn Hr) as [(Em & -> & Htop) | (ER & Em & ->)].
  - fold H. rewrite <- Em in Hnear.
    split; [exact He0 |]. split; [exact HA |]. split; [exact Hnear |].
    intros E52 Hgt Hbelow. specialize (Hlow Hgt).
    change (2 ^ 52) with 4503599627370496 in E52. rewrite E52 in Hbelow.
    clearbody H W. lia.
  - assert (HK : 2 ^ (e0 + 1 + 1074) * B = 2 * H).
    { unfold H. replace (e0 + 1 + 1074) with (1 + (e0 + 1074)) by lia.
      rewrite pow2_split by lia. change (2 ^ 1) with 2. ring. }
    rewrite HK, Em. change (2 ^ 52) with 4503599627370496.
    change (2 ^ 53) with 9007199254740992 in ER. rewrite ER in Hnear.
    clearbody H W.
    split; [lia |]. split; [exact HA |]. split; [lia |]. intros _ _ _. lia.
Qed.

(** The value read depends on the value of the decimal only. *)
Lemma round_decimal_value s M E M' E' :
  0 < M * 10 ^ Z.max 0 E ->
  M * 10 ^ Z.max 0 E * 10 ^ Z.max 0 (- E') =
    M' * 10 ^ Z.max 0 E' * 10 ^ Z.max 0 (- E) ->
  round_decimal s M E = round_decimal s M' E'.
Proof.
  intros HA Heq.
  set (B := 10 ^ Z.max 0 (- E)) in *. set (B' := 10 ^ Z.max 0 (- E')) in *.
  assert (HB : 0 < B) by apply pow10_pos.
  assert (HB' : 0 < B') by apply pow10_pos.
  assert (HA' : 0 < M' * 10 ^ Z.max 0 E').
  { apply (Z.mul_lt_mono_pos_r B); [exact HB |]. rewrite <- Heq, Z.mul_0_l.
    apply Z.mul_pos_pos; assumption. }
  destruct (round_decimal_spec s M E HA)
    as (e0 & X & Y & He0 & HX & HY & Hscale & Hup & Hlow & ->).
  destruct (round_decimal_spec s M' E' HA')
    as (e1 & X' & Y' & He1 & HX' & HY' & Hscale' & Hup' & Hlow' & ->).
  fold B in Hscale, Hup, Hlow. fold B' in Hscale', Hup', Hlow'.
  set (A := M * 10 ^ Z.max 0 E) in *. set (A' := M' * 10 ^ Z.max 0 E') in *.
  clearbody A A' B B'.
  assert (HW : A * 2 ^ 1074 * B' = A' * 2 ^ 1074 * B).
  { transitivity (A * B' * 2 ^ 1074); [ring |]. rewrite Heq. ring. }
  assert (E01 : e0 = e1).
  { apply (binade_unique (A * 2 ^ 1074 * B') (B * B') e0 e1);
      [apply Z.mul_pos_pos; assumption | exact He0 | exact He1 | | | |].
    - rewrite Z.mul_assoc. apply Z.mul_lt_mono_pos_r; assumption.
    - intros Hgt. rewrite Z.mul_assoc. apply Z.mul_le_mono_nonneg_r; [lia | auto].
    - rewrite HW. replace (2 ^ (53 + e1 + 1074) * (B * B'))
        with (2 ^ (53 + e1 + 1074) * B' * B) by ring.
      apply Z.mul_lt_mono_pos_r; assumption.
    - intros Hgt. rewrite HW. replace (2 ^ (52 + e1 + 1074) * (B * B'))
        with (2 ^ (52 + e1 + 1074) * B' * B) by ring.
      apply Z.mul_le_mono_nonneg_r; [lia | auto]. }
  subst e1. f_equal.
  apply nearest_even_ratio; [exact HY | exact HY' |].
  set (G := 2 ^ (e0 + 1074)) in *.
  assert (HG : 0 < G) by (apply pow2_pos; lia).
  clearbody G.
  apply (Z.mul_reg_r _ _ (G * B * B')).
  - pose proof (Z.mul_pos_pos _ _ (Z.mul_pos_pos _ _ HG HB) HB'). lia.
  - transitivity (X * (G * B) * Y' * B'); [ring |]. rewrite Hscale.
    transitivity (A * 2 ^ 1074 * B' * Y * Y'); [ring |]. rewrite HW.
    transitivity (A' * 2 ^ 1074 * Y' * Y * B); [ring |]. rewrite <- Hscale'. ring.
Qed.

Lemma pow2_max_pos k : 0 < 2 ^ Z.max 0 k.
Proof. apply Z.pow_pos_nonneg; [reflexivity | apply Z.le_max_l]. Qed.

Lemma units_half x c K L N Q :
  0 < Q -> 0 < N -> x * Q = N * c -> K * Q = N * L ->
  2 * Z.abs x <= K -> 2 * Z.abs c <= L.
Proof.
  intros HQ HN Hx HK Hnear.
  apply (Z.mul_le_mono_pos_l _ _ N); [exact HN |].
  replace (N * (2 * Z.abs c)) with (2 * Z.abs (N * c))
    by (rewrite Z.abs_mul, (Z.abs_eq N) by lia; ring).
  rewrite <- Hx, <- HK, Z.abs_mul, (Z.abs_eq Q) by lia.
  rewrite Z.mul_assoc. apply Z.mul_le_mono_nonneg_r; lia.
Qed.

Lemma units_quarter x c K L N Q :
  0 < Q -> 0 < N -> x * Q = N * c -> K * Q = N * L ->
  (x < 0 -> 4 * - x <= K) -> c < 0 -> 4 * - c <= L.
Proof.
  intros HQ HN Hx HK Hquarter Hneg.
  assert (Hxneg : x < 0).
  { enough (x * Q < 0 * Q) by (apply Z.mul_lt_mono_pos_r in H; lia).
    rewrite Hx, Z.mul_0_l. apply Z.mul_pos_neg; lia. }
  specialize (Hquarter Hxneg).
  apply (Z.mul_le_mono_pos_l _ _ N); [exact HN |].
  replace (N * (4 * - c)) with (4 * - (N * c)) by ring.
  rewrite <- Hx, <- HK.
  replace (4 * - (x * Q)) with (4 * - x * Q) by ring.
  apply Z.mul_le_mono_nonneg_r; lia.
Qed.

(** The distance of a decimal from [m * 2^e], counted as in
    [candidate_reads_back], when the decimal reads back as that value. *)
Lemma reads_back_near s M E m e c :
  round_decimal s M E = S754_finite s m e ->
  M * 10 ^ Z.max 0 E * 2 ^ Z.max 0 (- e) -
    Zpos m * 2 ^ Z.max 0 e * 10 ^ Z.max 0 (- E) = c ->
  2 * Z.abs c <= 2 ^ Z.max 0 e * 10 ^ Z.max 0 (- E) /\
  (Zpos m = 2 ^ 52 -> -1074 < e -> c < 0 ->
   4 * - c <= 2 ^ Z.max 0 e * 10 ^ Z.max 0 (- E)).
Proof.
  intros Hr Hc.
  destruct (round_decimal_near s M E m e Hr) as (He & HA & Hnear & Hquarter).
  pose proof (pow2_balance e He) as Hbal.
  pose proof (pow2_max_pos (- e)) as HQ.
  assert (HN : 0 < 2 ^ 1074) by reflexivity.
  set (A := M * 10 ^ Z.max 0 E) in *.
  set (B := 10 ^ Z.max 0 (- E)) in *.
  set (P := 2 ^ Z.max 0 e) in *. set (Q := 2 ^ Z.max 0 (- e)) in *.
  set (G := 2 ^ (e + 1074)) in *. set (N := 2 ^ 1074) in *.
  assert (Hz : (A * N - Zpos m * (G * B)) * Q = N * c).
  { clearbody A B P Q G N. rewrite <- Hc.
    transitivity (A * Q * N - Z.pos m * B * (G * Q)); [ring |].
    rewrite <- Hbal. ring. }
  assert (HGB : G * B * Q = N * (P * B)).
  { clearbody A B P Q G N. transitivity (G * Q * B); [ring |]. rewrite <- Hbal. ring. }
  split.
  - exact (units_half _ c _ (P * B) N Q HQ HN Hz HGB Hnear).
  - intros Em Hgt Hneg.
    apply (units_quarter (A * N - Zpos m * (G * B)) c (G * B) (P * B) N Q HQ HN Hz HGB);
      [| exact Hneg].
    intros Hx.
    replace (4 * - (A * N - Z.pos m * (G * B))) with (4 * (Z.pos m * (G * B) - A * N)) by ring.
    apply (Hquarter Em Hgt). apply Z.lt_sub_0. exact Hx.
Qed.

Lemma between_abs c c' B B' :
  0 < B -> 0 < B' -> c' * B <> c * B' ->
  (0 <= c' /\ c' * B <= c * B') \/ (c' <= 0 /\ c * B' <= c' * B) ->
  Z.abs c' * B < Z.abs c * B' /\ (c' < 0 -> c < 0).
Proof.
  intros HB HB' Hne Hbetween.
  assert (Hup : c * B' <= Z.abs c * B') by (apply Z.mul_le_mono_nonneg_r; lia).
  assert (Hdown : - c * B' <= Z.abs c * B') by (apply Z.mul_le_mono_nonneg_r; lia).
  split.
  - destruct Hbetween as [[H0 Hle] | [H0 Hle]].
    + rewrite (Z.abs_eq c') by exact H0. lia.
    + rewrite (Z.abs_neq c') by exact H0. lia.
  - intros Hneg. destruct (Z_lt_le_dec c 0) as [L | G]; [exact L | exfalso].
    assert (0 <= c * B') by (apply Z.mul_nonneg_nonneg; lia).
    assert (c' * B < 0) by (apply Z.mul_neg_pos; lia).
    lia.
Qed.

Lemma between_half c c' B B' P :
  0 < B -> 0 < B' -> c' * B <> c * B' ->
  (0 <= c' /\ c' * B <= c * B') \/ (c' <= 0 /\ c * B' <= c' * B) ->
  2 * Z.abs c <= P * B -> 2 * Z.abs c' < P * B'.
Proof.
  intros HB HB' Hne Hbetween Hnear.
  destruct (between_abs c c' B B' HB HB' Hne Hbetween) as [Habs _].
  apply (Z.mul_lt_mono_pos_r B); [exact HB |].
  apply Z.lt_le_trans with (2 * Z.abs c * B'); [lia |].
  replace (P * B' * B) with (P * B * B') by ring.
  apply Z.mul_le_mono_nonneg_r; [lia | exact Hnear].
Qed.

Lemma between_quarter c c' B B' P :
  0 < B -> 0 < B' -> c' * B <> c * B' ->
  (0 <= c' /\ c' * B <= c * B') \/ (c' <= 0 /\ c * B' <= c' * B) ->
  (c < 0 -> 4 * - c <= P * B) -> c' < 0 -> 4 * - c' < P * B'.
Proof.
  intros HB HB' Hne Hbetween Hquarter Hneg.
  destruct (between_abs c c' B B' HB HB' Hne Hbetween) as [Habs Hsign].
  specialize (Hquarter (Hsign Hneg)).
  rewrite (Z.abs_neq c'), (Z.abs_neq c) in Habs by (specialize (Hsign Hneg); lia).
  apply (Z.mul_lt_mono_pos_r B); [exact HB |].
  apply Z.lt_le_trans with (4 * - c * B'); [lia |].
  replace (P * B' * B) with (P * B * B') by ring.
  apply Z.mul_le_mono_nonneg_r; [lia | exact Hquarter].
Qed.

Lemma between_same A A' B B' mP Q c c' :
  0 < Q -> A * Q - mP * B = c -> A' * Q - mP * B' = c' ->
  c' * B = c * B' -> A * B' = A' * B.
Proof.
  intros HQ Hc Hc' Heq. apply (Z.mul_reg_r _ _ Q); [lia |]. subst c c'. lia.
Qed.

(** A decimal between one that reads back as [m * 2^e] and [m * 2^e] itself
    reads back as [m * 2^e] too. *)
Lemma reads_back_between s m e M E M' E' c c' :
  bounded prec emax m e = true ->
  round_decimal s M E = S754_finite s m e ->
  0 < M' ->
  M * 10 ^ Z.max 0 E * 2 ^ Z.max 0 (- e) -
    Zpos m * 2 ^ Z.max 0 e * 10 ^ Z.max 0 (- E) = c ->
  M' * 10 ^ Z.max 0 E' * 2 ^ Z.max 0 (- e) -
    Zpos m * 2 ^ Z.max 0 e * 10 ^ Z.max 0 (- E') = c' ->
  (0 <= c' /\ c' * 10 ^ Z.max 0 (- E) <= c * 10 ^ Z.max 0 (- E')) \/
  (c' <= 0 /\ c * 10 ^ Z.max 0 (- E') <= c' * 10 ^ Z.max 0 (- E)) ->
  round_decimal s M' E' = S754_finite s m e.
Proof.
  intros Hb Hr HM' Hc Hc' Hbetween.
  destruct (reads_back_near s M E m e c Hr Hc) as [Hnear Hquarter].
  destruct (round_decimal_near s M E m e Hr) as (He & HA & _).
  pose proof (pow10_pos (- E)) as HB. pose proof (pow10_pos (- E')) as HB'.
  pose proof (pow2_max_pos (- e)) as HQ.
  destruct (Z.eq_dec (c' * 10 ^ Z.max 0 (- E)) (c * 10 ^ Z.max 0 (- E'))) as [Esame | Ndiff].
  - rewrite <- Hr. symmetry. apply round_decimal_value; [exact HA |].
    exact (between_same _ _ _ _ _ _ c c' HQ Hc Hc' Esame).
  - apply (candidate_reads_back s m e M' E' c' Hb HM' Hc').
    + exact (between_half c c' _ _ _ HB HB' Ndiff Hbetween Hnear).
    + intros Em Hgt Hneg.
      exact (between_quarter c c' _ _ _ HB HB' Ndiff Hbetween (Hquarter Em Hgt) Hneg).
Qed.

(** ** A decimal of [k] digits that reads back is found with [k] digits *)

Lemma grid_case cD Bj B I b a lo rho :
  0 < Bj -> 0 < B -> 0 < b -> a = b * lo + rho -> 0 <= rho < b ->
  cD * Bj = B * (I * b - a) ->
  (cD <= 0 -> cD * Bj <= - rho * B) /\ (0 < cD -> (b - rho) * B <= cD * Bj).
Proof.
  intros HBj HB Hb Ha Hrho Heq. split; intros Hs.
  - assert (H1 : cD * Bj <= 0) by (apply Z.mul_nonpos_nonneg; lia).
    assert (H2 : I * b - a <= 0).
    { destruct (Z_le_gt_dec (I * b - a) 0) as [L | G]; [exact L | exfalso].
      assert (0 < B * (I * b - a)) by (apply Z.mul_pos_pos; lia). lia. }
    assert (H3 : I <= lo).
    { destruct (Z_le_gt_dec I lo) as [L | G]; [exact L | exfalso].
      assert ((lo + 1) * b <= I * b) by (apply Z.mul_le_mono_nonneg_r; lia). lia. }
    assert (H4 : I * b <= lo * b) by (apply Z.mul_le_mono_nonneg_r; lia).
    rewrite Heq. replace (- rho * B) with (B * (lo * b - a)) by (subst a; ring).
    apply Z.mul_le_mono_nonneg_l; lia.
  - assert (H1 : 0 < cD * Bj) by (apply Z.mul_pos_pos; lia).
    assert (H2 : 0 < I * b - a).
    { destruct (Z_lt_le_dec 0 (I * b - a)) as [L | G]; [exact L | exfalso].
      assert (B * (I * b - a) <= 0) by (apply Z.mul_nonneg_nonpos; lia). lia. }
    assert (H3 : lo + 1 <= I).
    { destruct (Z_le_gt_dec (lo + 1) I) as [L | G]; [exact L | exfalso].
      assert (I * b <= lo * b) by (apply Z.mul_le_mono_nonneg_r; lia). lia. }
    assert (H4 : (lo + 1) * b <= I * b) by (apply Z.mul_le_mono_nonneg_r; lia).
    rewrite Heq. replace ((b - rho) * B) with (B * ((lo + 1) * b - a)) by (subst a; ring).
    apply Z.mul_le_mono_nonneg_l; lia.
Qed.

Lemma below_case cD Bj B b a lo rho d Z U :
  0 < Bj -> 0 < B -> 0 < U -> a = b * lo + rho -> 0 <= rho < b ->
  cD * Bj = d * U - a * B -> b * B = Z * U -> d <= lo * Z ->
  (cD <= 0 -> cD * Bj <= - rho * B) /\ (0 < cD -> (b - rho) * B <= cD * Bj).
Proof.
  intros HBj HB HU Ha Hrho Heq HbB Hd.
  assert (H1 : d * U <= lo * Z * U) by (apply Z.mul_le_mono_nonneg_r; lia).
  assert (H2 : lo * Z * U = lo * b * B) by (rewrite <- Z.mul_assoc, <- HbB; ring).
  assert (H3 : cD * Bj <= - rho * B).
  { rewrite Heq. replace (- rho * B) with (lo * b * B - a * B) by (subst a; ring). lia. }
  split; intros Hs; [exact H3 | exfalso].
  assert (0 < cD * Bj) by (apply Z.mul_pos_pos; lia).
  assert (0 <= rho * B) by (apply Z.mul_nonneg_nonneg; lia).
  lia.
Qed.

Lemma carry_case c' cD Bj B B1 b rho :
  0 < Bj -> 0 < B -> 0 < B1 -> 0 <= rho < b ->
  c' * Bj = B1 * (b - rho) -> (b - rho) * B <= cD * Bj ->
  0 <= c' /\ c' * B <= cD * B1.
Proof.
  intros HBj HB HB1 Hrho Hc' Hle.
  assert (H0 : 0 < c')
    by (apply (scaled_pos c' Bj B1 (b - rho)); [exact HBj | exact HB1 | lia | exact Hc']).
  split; [lia |].
  apply (Z.mul_le_mono_pos_r _ _ Bj); [exact HBj |].
  replace (c' * B * Bj) with (c' * Bj * B) by ring. rewrite Hc'.
  replace (B1 * (b - rho) * B) with (B1 * ((b - rho) * B)) by ring.
  replace (cD * B1 * Bj) with (B1 * (cD * Bj)) by ring.
  apply Z.mul_le_mono_nonneg_l; lia.
Qed.

Lemma pow10_succ k : (1 <= k)%nat -> 10 ^ Z.of_nat k = 10 * 10 ^ (Z.of_nat k - 1).
Proof.
  intros Hk. replace (Z.of_nat k) with (1 + (Z.of_nat k - 1)) at 1 by lia.
  rewrite Z.pow_add_r by lia. reflexivity.
Qed.

Lemma pow10_ge_10 z : 1 <= z -> 10 <= 10 ^ z.
Proof.
  intros Hz. change 10 with (10 ^ 1) at 1. apply Z.pow_le_mono_r; lia.
Qed.

Lemma digits_below d lo Z p :
  d < 10 * p -> p <= lo -> 10 <= Z -> 0 < p -> d <= lo * Z.
Proof.
  intros Hd Hlo HZ Hp.
  assert (10 * p <= lo * Z).
  { apply Z.le_trans with (lo * 10); [lia |]. apply Z.mul_le_mono_nonneg_l; lia. }
  lia.
Qed.

(** When a decimal of at most [k] digits reads back as [m * 2^e], one of the
    two [k]-digit decimals around [m * 2^e] does. *)
Lemma shortest_at_decimal k m e d E :
  bounded prec emax m e = true -> (1 <= k)%nat ->
  d < 10 ^ Z.of_nat k ->
  round_decimal false d E = S754_finite false m e ->
  exists d' n', shortest_at k m e = Some (d', n').
Proof.
  intros Hb Hk Hd Hr. pose proof (bounded_well_formed false m e Hb) as Hwf.
  destruct (round_decimal_near false d E m e Hr) as (He & HA & _).
  pose proof (leading_digits_ge false m e (Z.of_nat k) Hwf ltac:(lia)) as Hge.
  unfold shortest_at.
  set (j := decimal_exponent m e) in *.
  destruct (scaled m e (j - Z.of_nat k + 1)) as [a b] eqn:Es.
  unfold scaled in Es.
  set (Ej := j - Z.of_nat k + 1) in *.
  set (T := 10 ^ Z.max 0 E) in *. set (B := 10 ^ Z.max 0 (- E)) in *.
  set (Tj := 10 ^ Z.max 0 Ej) in *. set (Bj := 10 ^ Z.max 0 (- Ej)) in *.
  set (P := 2 ^ Z.max 0 e) in *. set (Q := 2 ^ Z.max 0 (- e)) in *.
  assert (Ha : a = Z.pos m * P * Bj) by congruence.
  assert (Hb' : b = Q * Tj) by congruence.
  clear Es.
  assert (HB : 0 < B) by apply pow10_pos.
  assert (HT : 0 < T) by apply pow10_pos.
  assert (HBj : 0 < Bj) by apply pow10_pos.
  assert (HTj : 0 < Tj) by apply pow10_pos.
  assert (HP : 0 < P) by apply pow2_max_pos.
  assert (HQ : 0 < Q) by apply pow2_max_pos.
  assert (Hb0 : 0 < b) by (rewrite Hb'; apply Z.mul_pos_pos; assumption).
  assert (Hd0 : 0 < d) by (apply (Z.mul_pos_cancel_r d T HT); exact HA).
  assert (Hp0 : 0 < 10 ^ (Z.of_nat k - 1)) by (apply Z.pow_pos_nonneg; lia).
  pose proof (pow10_succ k Hk) as Hsucc.
  pose proof (Z.div_mod a b ltac:(lia)) as Hdm.
  pose proof (Z.mod_pos_bound a b Hb0) as Hrho.
  assert (Hlo : 10 ^ (Z.of_nat k - 1) <= a / b)
    by (apply Z.div_le_lower_bound; [exact Hb0 | rewrite Z.mul_comm; exact Hge]).
  cbv zeta.
  set (lo := a / b) in *. set (rho := a mod b) in *.
  set (cD := d * T * Q - Z.pos m * P * B).
  (* where the decimal lies among the [k]-digit decimals *)
  assert (HF : (cD <= 0 -> cD * Bj <= - rho * B) /\
               (0 < cD -> (b - rho) * B <= cD * Bj)).
  { destruct (Z_le_gt_dec Ej E) as [Hle | Hgt].
    - pose proof (pow10_balance Ej (E - Ej) ltac:(lia)) as Hbal.
      replace (Ej + (E - Ej)) with E in Hbal by lia. fold T B Tj Bj in Hbal.
      set (Z := 10 ^ (E - Ej)) in *.
      apply (grid_case cD Bj B (d * Z) b a lo rho HBj HB Hb0 Hdm Hrho).
      unfold cD. rewrite Ha, Hb'. clearbody T B Tj Bj P Q Z lo rho.
      transitivity (d * Q * (T * Bj) - Z.pos m * P * B * Bj); [ring |].
      rewrite <- Hbal. ring.
    - pose proof (pow10_balance E (Ej - E) ltac:(lia)) as Hbal.
      replace (E + (Ej - E)) with Ej in Hbal by lia. fold T B Tj Bj in Hbal.
      pose proof (pow10_ge_10 (Ej - E) ltac:(lia)) as HZ.
      set (Z := 10 ^ (Ej - E)) in *.
      apply (below_case cD Bj B b a lo rho d Z (T * Q * Bj) HBj HB);
        [apply Z.mul_pos_pos; [apply Z.mul_pos_pos |]; assumption
        | exact Hdm | exact Hrho | | |].
      + unfold cD. rewrite Ha. ring.
      + rewrite Hb'. clearbody T B Tj Bj P Q Z lo rho.
        transitivity (Q * (Tj * B)); [ring |]. rewrite <- Hbal. ring.
      + apply (digits_below d lo Z (10 ^ (Z.of_nat k - 1)));
          [rewrite <- Hsucc; exact Hd | exact Hlo | exact HZ | exact Hp0]. }
  destruct HF as [HF1 HF2].
  assert (Hlo0 : 0 < lo) by (apply Z.lt_le_trans with (1 := Hp0); exact Hlo).
  assert (Hclo : lo * Tj * Q - Z.pos m * P * Bj = - rho).
  { rewrite <- Ha. clearbody T B Tj Bj P Q lo rho. rewrite Hdm, Hb'. ring. }
  assert (Hlo_ok : cD <= 0 -> reads_back m e lo Ej = true).
  { intros Hs. unfold reads_back.
    rewrite (reads_back_between false m e d E lo Ej cD (- rho) Hb Hr Hlo0 eq_refl Hclo);
      [apply same_refl |].
    right. split; [lia | exact (HF1 Hs)]. }
  destruct (lo + 1 <? 10 ^ Z.of_nat k) eqn:Ecarry; cbv beta iota; apply pick_some.
  - destruct (Z_le_gt_dec cD 0) as [Hs | Hs]; [left; auto | right].
    assert (Hchi : (lo + 1) * Tj * Q - Z.pos m * P * Bj = b - rho).
    { rewrite <- Ha. clearbody T B Tj Bj P Q lo rho. rewrite Hdm, Hb'. ring. }
    unfold reads_back. change (j - Z.of_nat k + 1) with Ej.
    rewrite (reads_back_between false m e d E (lo + 1) Ej cD (b - rho) Hb Hr
               ltac:(lia) eq_refl Hchi);
      [apply same_refl |].
    left. split; [lia | apply HF2; lia].
  - destruct (Z_le_gt_dec cD 0) as [Hs | Hs]; [left; auto | right].
    apply Z.ltb_ge in Ecarry.
    pose proof (leading_digits_lt false m e (Z.of_nat k) Hwf ltac:(lia)) as Hlt.
    fold j in Hlt. replace (j - Z.of_nat k + 1) with Ej in Hlt by reflexivity.
    unfold scaled in Hlt. fold P Q Tj Bj in Hlt. rewrite <- Ha, <- Hb' in Hlt.
    fold lo in Hlt.
    assert (Htop : lo + 1 = 10 * 10 ^ (Z.of_nat k - 1)).
    { rewrite <- Hsucc. destruct Hlt as [_ Hlt]. revert Ecarry Hlt.
      generalize (10 ^ Z.of_nat k). clearbody lo. clear - lo. intros; lia. }
    pose proof (pow10_balance Ej 1 ltac:(lia)) as Hbal. fold Tj Bj in Hbal.
    change (10 ^ 1) with 10 in Hbal.
    replace (j + 1 - Z.of_nat k + 1) with (Ej + 1) by (unfold Ej; lia).
    set (T1 := 10 ^ Z.max 0 (Ej + 1)) in *.
    set (B1 := 10 ^ Z.max 0 (- (Ej + 1))) in *.
    assert (HB1 : 0 < B1) by apply pow10_pos.
    set (c1 := 10 ^ (Z.of_nat k - 1) * T1 * Q - Z.pos m * P * B1).
    assert (Hc1 : c1 * Bj = B1 * (b - rho)).
    { unfold c1. set (p := 10 ^ (Z.of_nat k - 1)) in *.
      clearbody T B Tj Bj P Q T1 B1 lo rho p.
      transitivity (p * Q * (T1 * Bj) - Z.pos m * P * Bj * B1); [ring |].
      rewrite <- Hbal, <- Ha.
      transitivity (B1 * (10 * p * (Q * Tj) - a)); [ring |].
      rewrite <- Hb', <- Htop, Hdm. ring. }
    destruct (carry_case c1 cD Bj B B1 b rho HBj HB HB1 Hrho Hc1 (HF2 ltac:(lia)))
      as [Hc10 Hc1le].
    unfold reads_back.
    rewrite (reads_back_between false m e d E (10 ^ (Z.of_nat k - 1)) (Ej + 1)
               cD c1 Hb Hr Hp0 eq_refl eq_refl);
      [apply same_refl |].
    left. split; [exact Hc10 | exact Hc1le].
Qed.

(** So [Number::toString] needs no more digits than any decimal that is read
    as the value. *)
Lemma shortest_le k m e d E :
  bounded prec emax m e = true -> (1 <= k <= 17)%nat ->
  d < 10 ^ Z.of_nat k ->
  round_decimal false d E = S754_finite false m e ->
  exists k' d' n',
    shortest (seq 1 17) m e = (k', d', n') /\ (1 <= k' <= k)%nat /\
    shortest_at k' m e = Some (d', n').
Proof.
  intros Hb Hk Hd Hr.
  destruct (shortest_at_decimal k m e d E Hb ltac:(lia) Hd Hr) as (d0 & n0 & Hat).
  exact (shortest_seq_first m e 17 1 k d0 n0 ltac:(lia) Hat).
Qed.

(** ** A result is shown with at most twelve digits *)

Lemma NumberToString_notation s m e :
  NumberToString (S754_finite s m e) =
    let '(k, d, n) := shortest (seq 1 17) m e in
    sign_string s ++ decimal_notation k d n.
Proof.
  unfold NumberToString, decimal_notation.
  destruct (shortest (seq 1 17) m e) as [[k d] n]. reflexivity.
Qed.

Lemma binary_round_aux_sign_any s s' mx ex lx m e :
  binary_round_aux prec emax s mx ex lx = S754_finite s m e ->
  binary_round_aux prec emax s' mx ex lx = S754_finite s' m e.
Proof.
  unfold binary_round_aux.
  destruct (shr_fexp prec emax mx ex lx) as [mrs1 e1].
  destruct (shr_fexp prec emax _ e1 loc_Exact) as [mrs2 e2].
  destruct (shr_m mrs2); try discriminate.
  destruct (e2 <=? emax - prec); [| discriminate].
  intros H. assert (p = m) by congruence. assert (e2 = e) by congruence.
  subst. reflexivity.
Qed.

Lemma round_decimal_sign_any s s' M E m e :
  round_decimal s M E = S754_finite s m e ->
  round_decimal s' M E = S754_finite s' m e.
Proof.
  unfold round_decimal.
  destruct (M * 10 ^ Z.max 0 E) as [|num|num]; try discriminate.
  unfold SFdiv.
  destruct (SFdiv_core_binary prec emax (Z.pos num) 0 _ 0) as [[q e'] l].
  rewrite !xorb_false_r. apply binary_round_aux_sign_any.
Qed.

(** The string of a value that a decimal of at most twelve digits is read
    as. *)
Lemma twelve_digits_shown s d E m e :
  d < 10 ^ 12 ->
  round_decimal s d E = S754_finite s m e ->
  TwelveDigits (NumberToString (S754_finite s m e)).
Proof.
  intros Hd Hr.
  assert (Hb : bounded prec emax m e = true).
  { pose proof (round_decimal_valid s d E) as Hv. rewrite Hr in Hv. exact Hv. }
  pose proof (bounded_well_formed s m e Hb) as Hwf.
  pose proof (round_decimal_sign_any s false d E m e Hr) as Hr0.
  destruct (shortest_le 12 m e d E Hb ltac:(lia) Hd Hr0)
    as (k & d' & n & Hs & Hk & Hat).
  destruct (shortest_at_spec s m e k d' n Hwf ltac:(lia) Hat) as [Hd' _].
  destruct (shortest_at_shape s m e k d' n Hwf ltac:(lia) Hat) as [Hlead _].
  rewrite NumberToString_notation, Hs.
  exists s, k, d', n. split; [lia |]. split; [lia | reflexivity].
Qed.

Lemma formatResult_twelve_digits result :
  isFinite result = true -> well_formed result ->
  NumberToString (formatResult result) = "0" \/
  TwelveDigits (NumberToString (formatResult result)).
Proof.
  intros Hfin Hwf.
  destruct (formatResult_finite_value result Hfin Hwf) as [Hfin' _].
  destruct result as [s|s| |s m e]; try discriminate.
  - left. rewrite formatResult_zero. reflexivity.
  - pose proof (formatResult_finite s m e) as Hval.
    pose proof (precision_digits_range 12 m e ltac:(lia)) as Hrange.
    destruct (precision_digits 12 m e) as [n j].
    change (Z.of_nat 12) with 12 in Hrange.
    rewrite Hval in *.
    destruct (round_decimal_cases s n (j - 11)) as [Hz | [Hinf | (m' & e' & Hr & _)]].
    + left. rewrite Hz. reflexivity.
    + rewrite Hinf in Hfin'. discriminate.
    + right. rewrite Hr. apply (twelve_digits_shown s n (j - 11)); [lia | exact Hr].
Qed.

Lemma arithmetic_well_formed op x y r :
  well_formed x -> well_formed y -> arithmetic op x y = Some r -> well_formed r.
Proof.
  intros Hx Hy. unfold arithmetic.
  destruct (String.eqb op "+"); [intros [= <-]; apply add_well_formed; assumption |].
  destruct (String.eqb op "-"); [intros [= <-]; apply sub_well_formed; assumption |].
  destruct (String.eqb op "×"); [intros [= <-]; apply mul_well_formed |].
  destruct (String.eqb op "÷"); [intros [= <-]; apply div_well_formed | discriminate].
Qed.

Lemma pending_result_well_formed state pv op r :
  Invariant state ->
  previousValue state = Some pv ->
  arithmetic op (or_else pv zero) (parseFloat (display state)) = Some r ->
  well_formed r.
Proof.
  intros Hinv Hpv Har. pose proof Hinv as [_ _ Hprev].
  destruct (display_facts state Hinv) as (_ & _ & Hwf & _).
  destruct (Hprev pv Hpv) as [Hpvwf _].
  apply (arithmetic_well_formed op (or_else pv zero) (parseFloat (display state)));
    [apply or_else_well_formed; [exact Hpvwf | exact I] | exact Hwf | exact Har].
Qed.

(** X15.  A committed result is shown with at most twelve significant
    digits.  In a reachable state with an operation pending whose result is
    finite, [performOperation] leaves the display "0" or an optional minus
    sign followed by the notation of at most twelve digits, the first of
    them not zero: [String] needs no more digits than [toPrecision(12)]
    wrote, whatever the result. *)
Theorem X15_committed_result_shows_at_most_twelve_digits
    nextOperation state pv op result :
  reachable state ->
  previousValue state = Some pv ->
  operation state = Some op ->
  arithmetic op (or_else pv zero) (parseFloat (display state)) = Some result ->
  (op = "÷" -> strictEq (parseFloat (display state)) zero = false) ->
  isFinite result = true ->
  let shown := display (fst (performOperation nextOperation state)) in
  shown = NumberToString (formatResult result) /\
  (shown = "0" \/ TwelveDigits shown).
Proof.
  intros Hreach Hpv Hop Har Hdiv Hfin shown. subst shown.
  pose proof (pending_result_well_formed state pv op result
                (reachable_invariant state Hreach) Hpv Har) as Hwf.
  rewrite (performOperation_computes _ _ _ _ _ Hpv Hop Har Hdiv).
  rewrite (commit_finite _ _ _ Hfin). cbn [fst committed display].
  split; [reflexivity |]. apply formatResult_twelve_digits; assumption.
Qed.

Lemma X15_witness :
  let state := fst (pressKeys ["0"; "."; "1"; "+"; "0"; "."; "2"] initialState) in
  let shown := display (fst (performOperation "=" state)) in
  shown = NumberToString (formatResult (add (parseFloat "0.1") (parseFloat "0.2"))) /\
  (shown = "0" \/ TwelveDigits shown).
Proof.
  apply (X15_committed_result_shows_at_most_twelve_digits "="
           (fst (pressKeys ["0"; "."; "1"; "+"; "0"; "."; "2"] initialState))
           (parseFloat "0.1") "+" (add (parseFloat "0.1") (parseFloat "0.2"))).
  - apply pressKeys_reachable; [reflexivity | constructor].
  - reflexivity.
  - reflexivity.
  - reflexivity.
  - intros H. discriminate H.
  - reflexivity.
Defined.



(** ** The digits shown are those of the rounding to twelve digits *)

(** Two decimals that lie within half a unit of the last place of the same
    value, the one with the smaller exponent having fewer digits than the
    mantissa counts units, are the same number. *)
Lemma unique_core d1 I2 T1 B1 B2 P Q m c1 c2 :
  0 < T1 -> 0 < B1 -> 0 < B2 -> 0 < P -> 0 < Q ->
  c1 = d1 * T1 * Q - m * P * B1 ->
  2 * Z.abs c1 <= P * B1 -> 2 * Z.abs c2 <= P * B2 ->
  c1 * B2 - c2 * B1 = Q * (d1 - I2) * T1 * B2 ->
  0 <= d1 < m -> d1 = I2.
Proof.
  intros HT1 HB1 HB2 HP HQ Hc1 Hn1 Hn2 Hdiff [Hd0 Hdm].
  destruct (Z.eq_dec d1 I2) as [E | N]; [exact E | exfalso].
  assert (HPB : 0 < P * B1) by (apply Z.mul_pos_pos; assumption).
  assert (HQT : 0 < Q * T1) by (apply Z.mul_pos_pos; assumption).
  (* the unit of the decimal is at most the unit of the last place *)
  assert (Hunit : Q * T1 <= P * B1).
  { apply (Z.mul_le_mono_pos_r _ _ B2); [exact HB2 |].
    assert (H1 : 2 * Z.abs (c1 * B2) <= P * B1 * B2).
    { rewrite Z.abs_mul, (Z.abs_eq B2) by lia. rewrite Z.mul_assoc.
      apply Z.mul_le_mono_nonneg_r; lia. }
    assert (H2 : 2 * Z.abs (c2 * B1) <= P * B1 * B2).
    { rewrite Z.abs_mul, (Z.abs_eq B1) by lia. rewrite Z.mul_assoc.
      replace (P * B1 * B2) with (P * B2 * B1) by ring.
      apply Z.mul_le_mono_nonneg_r; lia. }
    assert (H3 : Q * T1 * B2 <= Z.abs (c1 * B2 - c2 * B1)).
    { rewrite Hdiff.
      replace (Q * (d1 - I2) * T1 * B2) with ((d1 - I2) * (Q * T1 * B2)) by ring.
      rewrite Z.abs_mul.
      assert (0 < Q * T1 * B2) by (apply Z.mul_pos_pos; assumption).
      rewrite (Z.abs_eq (Q * T1 * B2)) by lia.
      rewrite <- (Z.mul_1_l (Q * T1 * B2)) at 1.
      apply Z.mul_le_mono_nonneg_r; lia. }
    lia. }
  assert (Hd1 : d1 * (Q * T1) <= d1 * (P * B1))
    by (apply Z.mul_le_mono_nonneg_l; assumption).
  assert (Hm : (2 * m - 2 * d1 - 1) * (P * B1) <= 0) by lia.
  assert (0 < (2 * m - 2 * d1 - 1) * (P * B1)) by (apply Z.mul_pos_pos; lia).
  lia.
Qed.

(** Two decimals that are read as the same value, each with fewer digits
    than the mantissa of the value counts units, are the same number. *)
Lemma reads_back_unique m e d1 E1 d2 E2 :
  d1 < Zpos m -> d2 < Zpos m ->
  round_decimal false d1 E1 = S754_finite false m e ->
  round_decimal false d2 E2 = S754_finite false m e ->
  d1 * 10 ^ Z.max 0 E1 * 10 ^ Z.max 0 (- E2) =
  d2 * 10 ^ Z.max 0 E2 * 10 ^ Z.max 0 (- E1).
Proof.
  intros Hd1 Hd2 Hr1 Hr2.
  destruct (reads_back_near false d1 E1 m e _ Hr1 eq_refl) as [Hn1 _].
  destruct (reads_back_near false d2 E2 m e _ Hr2 eq_refl) as [Hn2 _].
  destruct (round_decimal_near false d1 E1 m e Hr1) as (_ & HA1 & _).
  destruct (round_decimal_near false d2 E2 m e Hr2) as (_ & HA2 & _).
  pose proof (pow10_pos E1) as HT1. pose proof (pow10_pos (- E1)) as HB1.
  pose proof (pow10_pos E2) as HT2. pose proof (pow10_pos (- E2)) as HB2.
  pose proof (pow2_max_pos e) as HP. pose proof (pow2_max_pos (- e)) as HQ.
  assert (Hd10 : 0 <= d1)
    by (apply Z.lt_le_incl, (Z.mul_pos_cancel_r d1 _ HT1); exact HA1).
  assert (Hd20 : 0 <= d2)
    by (apply Z.lt_le_incl, (Z.mul_pos_cancel_r d2 _ HT2); exact HA2).
  set (T1 := 10 ^ Z.max 0 E1) in *. set (B1 := 10 ^ Z.max 0 (- E1)) in *.
  set (T2 := 10 ^ Z.max 0 E2) in *. set (B2 := 10 ^ Z.max 0 (- E2)) in *.
  set (P := 2 ^ Z.max 0 e) in *. set (Q := 2 ^ Z.max 0 (- e)) in *.
  set (c1 := d1 * T1 * Q - Z.pos m * P * B1) in *.
  set (c2 := d2 * T2 * Q - Z.pos m * P * B2) in *.
  destruct (Z_le_gt_dec E1 E2) as [Hle | Hgt].
  - pose proof (pow10_balance E1 (E2 - E1) ltac:(lia)) as Hbal.
    replace (E1 + (E2 - E1)) with E2 in Hbal by lia. fold T1 B1 T2 B2 in Hbal.
    set (Z := 10 ^ (E2 - E1)) in *.
    assert (E : d1 = d2 * Z).
    { apply (unique_core d1 (d2 * Z) T1 B1 B2 P Q (Zpos m) c1 c2); auto.
      unfold c1, c2. clearbody T1 B1 T2 B2 P Q Z.
      transitivity (Q * d1 * T1 * B2 - Q * d2 * (T2 * B1)); [ring |].
      rewrite <- Hbal. ring. }
    rewrite E. clearbody T1 B1 T2 B2 P Q Z.
    transitivity (d2 * (T1 * Z * B2)); [ring |]. rewrite Hbal. ring.
  - pose proof (pow10_balance E2 (E1 - E2) ltac:(lia)) as Hbal.
    replace (E2 + (E1 - E2)) with E1 in Hbal by lia. fold T1 B1 T2 B2 in Hbal.
    set (Z := 10 ^ (E1 - E2)) in *.
    assert (E : d2 = d1 * Z).
    { apply (unique_core d2 (d1 * Z) T2 B2 B1 P Q (Zpos m) c2 c1); auto.
      unfold c1, c2. clearbody T1 B1 T2 B2 P Q Z.
      transitivity (Q * d2 * T2 * B1 - Q * d1 * (T1 * B2)); [ring |].
      rewrite <- Hbal. ring. }
    rewrite E. clearbody T1 B1 T2 B2 P Q Z.
    symmetry. transitivity (d1 * (T2 * Z * B1)); [ring |]. rewrite Hbal. ring.
Qed.

(** No number of digits below the one [Number::toString] settles on reads
    back. *)
Lemma shortest_seq_minimal m e len : forall a k d n,
  (k < a + len)%nat ->
  shortest (seq a len) m e = (k, d, n) ->
  forall k', (a <= k' < k)%nat -> shortest_at k' m e = None.
Proof.
  induction len as [|len IH]; intros a k d n Hk Hs k' Hk'; [lia |].
  cbn [seq shortest] in Hs.
  destruct (shortest_at a m e) as [[s0 n0]|] eqn:Hat.
  - assert (a = k) by congruence. lia.
  - destruct (Nat.eq_dec k' a) as [-> | Hne]; [exact Hat |].
    apply (IH (S a) k d n); [lia | exact Hs | lia].
Qed.

(** So the last of the digits is not a zero, unless it is the only one. *)
Lemma shortest_no_trailing_zero m e k d n :
  bounded prec emax m e = true -> (1 < k <= 17)%nat ->
  shortest (seq 1 17) m e = (k, d, n) ->
  shortest_at k m e = Some (d, n) ->
  d mod 10 <> 0.
Proof.
  intros Hb Hk Hs Hat Hmod.
  pose proof (bounded_well_formed false m e Hb) as Hwf.
  destruct (shortest_at_spec false m e k d n Hwf ltac:(lia) Hat) as [Hd Hr].
  destruct (round_decimal_near false d (n - Z.of_nat k) m e Hr) as (_ & HA & _).
  pose proof (Z.div_mod d 10 ltac:(lia)) as Hdm. rewrite Hmod, Z.add_0_r in Hdm.
  set (d' := d / 10) in *.
  pose proof (pow10_succ k ltac:(lia)) as Hsucc.
  assert (Hd' : d' < 10 ^ Z.of_nat (k - 1)).
  { replace (Z.of_nat (k - 1)) with (Z.of_nat k - 1) by lia. lia. }
  assert (Hr' : round_decimal false d' (n - Z.of_nat k + 1) = S754_finite false m e).
  { rewrite <- Hr. symmetry. apply round_decimal_value; [exact HA |].
    pose proof (pow10_balance (n - Z.of_nat k) 1 ltac:(lia)) as Hbal.
    change (10 ^ 1) with 10 in Hbal. rewrite Hdm.
    set (T := 10 ^ Z.max 0 (n - Z.of_nat k)) in *.
    set (B := 10 ^ Z.max 0 (- (n - Z.of_nat k))) in *.
    set (T' := 10 ^ Z.max 0 (n - Z.of_nat k + 1)) in *.
    set (B' := 10 ^ Z.max 0 (- (n - Z.of_nat k + 1))) in *.
    clearbody T B T' B' d'.
    transitivity (d' * (T * 10 * B')); [ring |]. rewrite Hbal. ring. }
  destruct (shortest_at_decimal (k - 1) m e d' (n - Z.of_nat k + 1) Hb ltac:(lia) Hd' Hr')
    as (d0 & n0 & Hsome).
  rewrite (shortest_seq_minimal m e 17 1 k d n ltac:(lia) Hs (k - 1)%nat ltac:(lia)) in Hsome.
  discriminate.
Qed.

(** Two decimals that are the same number, written with [k] and with twelve
    digits. *)
Lemma same_decimal_digits d k n12 E E12 :
  (1 <= k <= 12)%nat ->
  10 ^ (Z.of_nat k - 1) <= d < 10 ^ Z.of_nat k ->
  10 ^ 11 <= n12 < 10 ^ 12 ->
  d * 10 ^ Z.max 0 E * 10 ^ Z.max 0 (- E12) =
    n12 * 10 ^ Z.max 0 E12 * 10 ^ Z.max 0 (- E) ->
  E = E12 + 12 - Z.of_nat k /\ d * 10 ^ (12 - Z.of_nat k) = n12.
Proof.
  intros Hk Hd Hn Heq.
  pose proof (pow10_pos E) as HT. pose proof (pow10_pos (- E)) as HB.
  pose proof (pow10_pos E12) as HT12. pose proof (pow10_pos (- E12)) as HB12.
  assert (Hp0 : 0 < 10 ^ (Z.of_nat k - 1)) by (apply Z.pow_pos_nonneg; lia).
  destruct (Z_le_gt_dec E12 E) as [Hle | Hgt].
  - pose proof (pow10_balance E12 (E - E12) ltac:(lia)) as Hbal.
    replace (E12 + (E - E12)) with E in Hbal by lia.
    set (z := E - E12) in *.
    assert (Hz0 : 0 < 10 ^ z) by (apply Z.pow_pos_nonneg; lia).
    assert (Hval : d * 10 ^ z = n12).
    { set (T := 10 ^ Z.max 0 E) in *. set (B := 10 ^ Z.max 0 (- E)) in *.
      set (T12 := 10 ^ Z.max 0 E12) in *. set (B12 := 10 ^ Z.max 0 (- E12)) in *.
      set (Z := 10 ^ z) in *. clearbody T B T12 B12 Z.
      apply (Z.mul_reg_r _ _ (T12 * B)).
      - pose proof (Z.mul_pos_pos _ _ HT12 HB). lia.
      - transitivity (d * (T12 * Z * B)); [ring |]. rewrite Hbal.
        transitivity (d * T * B12); [ring |]. rewrite Heq. ring. }
    assert (Hup : z < 13 - Z.of_nat k).
    { enough (Z.of_nat k - 1 + z < 12) by lia.
      apply pow10_lt_inv; [lia | lia |].
      rewrite Z.pow_add_r by lia.
      apply Z.le_lt_trans with (d * 10 ^ z); [apply Z.mul_le_mono_nonneg_r; lia | lia]. }
    assert (Hlow : 11 - Z.of_nat k < z).
    { enough (11 < Z.of_nat k + z) by lia.
      apply pow10_lt_inv; [lia | lia |].
      rewrite Z.pow_add_r by lia.
      apply Z.le_lt_trans with (d * 10 ^ z); [lia | apply Z.mul_lt_mono_pos_r; lia]. }
    assert (Ez : z = 12 - Z.of_nat k) by lia.
    split; [unfold z in Ez; lia | rewrite <- Ez; exact Hval].
  - exfalso.
    pose proof (pow10_balance E (E12 - E) ltac:(lia)) as Hbal.
    replace (E + (E12 - E)) with E12 in Hbal by lia.
    pose proof (pow10_ge_10 (E12 - E) ltac:(lia)) as HW.
    assert (Hk12 : 10 ^ Z.of_nat k <= 10 ^ 12) by (apply Z.pow_le_mono_r; lia).
    set (T := 10 ^ Z.max 0 E) in *. set (B := 10 ^ Z.max 0 (- E)) in *.
    set (T12 := 10 ^ Z.max 0 E12) in *. set (B12 := 10 ^ Z.max 0 (- E12)) in *.
    set (W := 10 ^ (E12 - E)) in *. clearbody T B T12 B12 W.
    assert (Hval : d = n12 * W).
    { apply (Z.mul_reg_r _ _ (T * B12)).
      - pose proof (Z.mul_pos_pos _ _ HT HB12). lia.
      - transitivity (d * T * B12); [ring |]. rewrite Heq.
        transitivity (n12 * (T12 * B)); [ring |]. rewrite <- Hbal. ring. }
    assert (10 ^ 11 * 10 <= n12 * W).
    { apply Z.le_trans with (n12 * 10); [lia |]. apply Z.mul_le_mono_nonneg_l; lia. }
    change (10 ^ 11 * 10) with (10 ^ 12) in *. lia.
Qed.

(** The string of the value that a decimal of twelve digits is read as
    shows that decimal, without the zeros at its end. *)
Lemma rounding_shown s n12 j m e :
  10 ^ 11 <= n12 < 10 ^ 12 ->
  round_decimal s n12 (j - 11) = S754_finite s m e ->
  10 ^ 12 <= Zpos m ->
  exists k d,
    (1 <= k <= 12)%nat /\ d * 10 ^ (12 - Z.of_nat k) = n12 /\
    (k = 1%nat \/ d mod 10 <> 0) /\
    NumberToString (S754_finite s m e) = sign_string s ++ decimal_notation k d (j + 1).
Proof.
  intros Hn Hr Hm.
  assert (Hb : bounded prec emax m e = true).
  { pose proof (round_decimal_valid s n12 (j - 11)) as Hv. rewrite Hr in Hv. exact Hv. }
  pose proof (bounded_well_formed false m e Hb) as Hwf.
  pose proof (round_decimal_sign_any s false n12 (j - 11) m e Hr) as Hr0.
  destruct (shortest_le 12 m e n12 (j - 11) Hb ltac:(lia) ltac:(change (Z.of_nat 12) with 12; lia) Hr0)
    as (k & d & n & Hs & Hk & Hat).
  destruct (shortest_at_spec false m e k d n Hwf ltac:(lia) Hat) as [Hd Hback].
  destruct (shortest_at_shape false m e k d n Hwf ltac:(lia) Hat) as [Hlead _].
  assert (Hk12 : 10 ^ Z.of_nat k <= 10 ^ 12) by (apply Z.pow_le_mono_r; lia).
  pose proof (reads_back_unique m e d (n - Z.of_nat k) n12 (j - 11)
                ltac:(lia) ltac:(lia) Hback Hr0) as Hsame.
  destruct (same_decimal_digits d k n12 (n - Z.of_nat k) (j - 11) Hk ltac:(lia) Hn Hsame)
    as [Hexp Hdig].
  exists k, d. split; [exact Hk |]. split; [exact Hdig |]. split.
  - destruct (Nat.eq_dec k 1) as [E1 | N1]; [left; exact E1 | right].
    apply (shortest_no_trailing_zero m e k d n Hb ltac:(lia) Hs Hat).
  - rewrite NumberToString_notation, Hs. replace (j + 1) with n by lia. reflexivity.
Qed.

(** X17.  The digits shown are those [toPrecision(12)] wrote.  When the
    result rounds to the twelve digits [n12] with decimal exponent [j] and
    the number value of that decimal has a mantissa of at least [10^12]
    (every normal binary64 value has one; this leaves out only results below
    [10^12 * 2^-1074], about 4.9e-312), the display is the sign and the
    notation of the digits of [n12] without the zeros at its end, the
    decimal point where [toPrecision] has it: reading the twelve digits as a
    number and printing that number changes no digit. *)
Theorem X17_display_shows_the_twelve_digit_rounding
    nextOperation state pv op s m e m' e' :
  reachable state ->
  previousValue state = Some pv ->
  operation state = Some op ->
  arithmetic op (or_else pv zero) (parseFloat (display state)) = Some (S754_finite s m e) ->
  (op = "÷" -> strictEq (parseFloat (display state)) zero = false) ->
  formatResult (S754_finite s m e) = S754_finite s m' e' ->
  10 ^ 12 <= Zpos m' ->
  let '(n12, j) := precision_digits 12 m e in
  exists k d,
    (1 <= k <= 12)%nat /\ d * 10 ^ (12 - Z.of_nat k) = n12 /\
    (k = 1%nat \/ d mod 10 <> 0) /\
    display (fst (performOperation nextOperation state)) =
      sign_string s ++ decimal_notation k d (j + 1).
Proof.
  intros Hreach Hpv Hop Har Hdiv Hfmt Hm'.
  pose proof (pending_result_well_formed state pv op _
                (reachable_invariant state Hreach) Hpv Har) as Hwf.
  rewrite (performOperation_computes _ _ _ _ _ Hpv Hop Har Hdiv).
  rewrite (commit_finite nextOperation state (S754_finite s m e) eq_refl).
  cbn [fst committed display].
  rewrite Hfmt.
  pose proof (formatResult_finite s m e) as Hval.
  pose proof (precision_digits_range 12 m e ltac:(lia)) as Hrange.
  pose proof (precision_12_significant s m e Hwf) as Hlead.
  destruct (precision_digits 12 m e) as [n12 j]. cbn [fst] in Hlead.
  change (Z.of_nat 12) with 12 in Hrange.
  rewrite Hfmt in Hval. symmetry in Hval.
  apply (rounding_shown s n12 j m' e'); [lia | exact Hval | exact Hm'].
Qed.

Lemma X17_witness :
  let state := fst (pressKeys ["0"; "."; "1"; "+"; "0"; "."; "2"] initialState) in
  let '(n12, j) := precision_digits 12 5404319552844596 (-54) in
  exists k d,
    (1 <= k <= 12)%nat /\ d * 10 ^ (12 - Z.of_nat k) = n12 /\
    (k = 1%nat \/ d mod 10 <> 0) /\
    display (fst (performOperation "=" state)) =
      sign_string false ++ decimal_notation k d (j + 1).
Proof.
  apply (X17_display_shows_the_twelve_digit_rounding "="
           (fst (pressKeys ["0"; "."; "1"; "+"; "0"; "."; "2"] initialState))
           (parseFloat "0.1") "+" false 5404319552844596 (-54) 5404319552844595 (-54)).
  - apply pressKeys_reachable; [reflexivity | constructor].
  - reflexivity.
  - reflexivity.
  - vm_compute. reflexivity.
  - intros H. discriminate H.
  - vm_compute. reflexivity.
  - vm_compute. discriminate.
Defined.
